(** * ldrshrink: a shallow embedding of [ldrshrink.c]

    The tool reads an ADSP-SC58x/BF70x loader stream (16-byte block
    headers, each optionally followed by a payload), merges contiguous
    blocks into chunks and writes the simplified stream.

    The file has three parts: the program ([calc_header_checksum],
    [write_header], [write_image] and [main], function by function), the
    predicates the statements use, and the properties.

    Conventions of the embedding.
    - An [unsigned] is a [Z] in [0, 2^32); every C addition or subtraction
      on [unsigned] is written with its wrap-around ([wrap32]).
    - A byte is a [Z] in [0, 256); a file is the list of its bytes. The
      input file is what is left to read, the output file what has been
      written.
    - The linked list of [struct chunk_list_type] is a Rocq list; the
      [data] pointer is an [option]: [None] is the NULL pointer.
    - [realloc] does not initialise the bytes it adds and [main] does not
      initialise [settings] and [hdr]: these indeterminate values are
      inputs of the model ([junk], [settings0], [hdr0]), over which the
      theorems quantify.
    - [fseek(input, n, SEEK_CUR)] moves [n] bytes forward ([long] holds
      every [unsigned]); a seek past the end leaves nothing to read.
    - The command line, the opening of the files and the text printed on
      the standard output are not modelled, except for a trace of the
      calls of [write_image] and of the overwrite warnings. *)

From Stdlib Require Import ZArith List Lia Bool.
Import ListNotations.
Local Open Scope Z_scope.

(** ** Constants *)

Definition BFLAG_FILL   : Z := 0x010.
Definition BFLAG_INIT   : Z := 0x080.
Definition BFLAG_IGNORE : Z := 0x100.
Definition BFLAG_FIRST  : Z := 0x400.
Definition BFLAG_FINAL  : Z := 0x800.

Definition CUSTOMIZE_SMALLEST_FILL_BLOCK : Z := 256.

(** [sizeof(struct block_header_type)] *)
Definition sizeof_header : Z := 16.

Definition wrap32 (z : Z) : Z := z mod 2 ^ 32.

(** [x & m] as a C condition. *)
Definition has (x m : Z) : bool := negb (Z.land x m =? 0).

(** ** Data *)

(** [struct block_header_type], the bit-field [block_code] flattened. *)
Record block_header_type := mk_header {
  bcode : Z;            (* unsigned bcode:4 *)
  flags : Z;            (* unsigned flags:12 *)
  hdrchk : Z;           (* unsigned hdrchk:8 *)
  hdrsign : Z;          (* unsigned hdrsign:8 *)
  target_address : Z;
  byte_count : Z;
  argument : Z
}.

(** [struct chunk_list_type]; [next] is the tail of the Rocq list. *)
Record chunk_list_type := mk_chunk {
  c_address : Z;
  c_argument : Z;
  c_data : option (list Z);
  c_length : Z;
  c_flags : Z
}.

(** [struct image_settings_type] *)
Record image_settings_type := mk_settings {
  s_hdrsign : Z;        (* unsigned char *)
  s_bcode : Z;          (* unsigned char *)
  entry_point : Z
}.

Definition byte_ok (b : Z) : Prop := 0 <= b < 256.
Definition bytes_ok (l : list Z) : Prop := Forall byte_ok l.
Definition word_ok (w : Z) : Prop := 0 <= w < 2 ^ 32.

(** ** The header in memory

    The structure is read and written as its 16 bytes of memory. On the
    little-endian hosts the tool is built for, the bit-fields of
    [block_code] are allocated from the least significant bit:
    byte 0 = bcode (low nibble) and the low nibble of flags (high nibble),
    byte 1 = the upper 8 bits of flags, byte 2 = hdrchk, byte 3 = hdrsign. *)

Definition word_bytes (w : Z) : list Z :=
  [w mod 256; (w / 256) mod 256; (w / 65536) mod 256; (w / 16777216) mod 256].

Definition bytes_word (b0 b1 b2 b3 : Z) : Z :=
  b0 + 256 * b1 + 65536 * b2 + 16777216 * b3.

Definition header_bytes (h : block_header_type) : list Z :=
  [bcode h mod 16 + 16 * (flags h mod 16); (flags h / 16) mod 256;
   hdrchk h mod 256; hdrsign h mod 256]
  ++ word_bytes (target_address h)
  ++ word_bytes (byte_count h)
  ++ word_bytes (argument h).

Definition byte_at (l : list Z) (i : nat) : Z := nth i l 0.

Definition header_of_bytes (l : list Z) : block_header_type :=
  {| bcode := byte_at l 0 mod 16;
     flags := byte_at l 0 / 16 + 16 * byte_at l 1;
     hdrchk := byte_at l 2;
     hdrsign := byte_at l 3;
     target_address := bytes_word (byte_at l 4) (byte_at l 5) (byte_at l 6) (byte_at l 7);
     byte_count := bytes_word (byte_at l 8) (byte_at l 9) (byte_at l 10) (byte_at l 11);
     argument := bytes_word (byte_at l 12) (byte_at l 13) (byte_at l 14) (byte_at l 15) |}.

Definition set_hdrchk (h : block_header_type) (v : Z) : block_header_type :=
  {| bcode := bcode h; flags := flags h; hdrchk := v mod 256; hdrsign := hdrsign h;
     target_address := target_address h; byte_count := byte_count h;
     argument := argument h |}.

(** ** HeaderCodec *)

Definition xor_bytes (l : list Z) : Z := fold_left Z.lxor l 0.

(** [calc_header_checksum]: the XOR of the 16 bytes of the header. *)
Definition calc_header_checksum (hdr : block_header_type) : Z :=
  xor_bytes (header_bytes hdr).

(** [write_header]: returns the file after the write and the header as the
    call leaves it (the checksum is stored through the pointer). *)
Definition write_header (handle : list Z) (hdr : block_header_type)
  : list Z * block_header_type :=
  let hdr := set_hdrchk hdr 0 in
  let hdr := set_hdrchk hdr (calc_header_checksum hdr) in
  (handle ++ header_bytes hdr, hdr).

(** ** ImageWriter *)

Definition set_block (h : block_header_type) (fl arg count target : Z)
  : block_header_type :=
  {| bcode := bcode h; flags := fl mod 4096; hdrchk := hdrchk h; hdrsign := hdrsign h;
     target_address := target; byte_count := count; argument := arg |}.

(** The first loop of [write_image]: the size of the image. *)
Fixpoint image_position (current : list chunk_list_type) (position : Z) : Z :=
  match current with
  | [] => position
  | c :: next =>
      let position := wrap32 (position + sizeof_header) in
      let position :=
        match c_data c with
        | Some _ => wrap32 (position + c_length c)
        | None => position
        end in
      image_position next position
  end.

(** [fwrite(data, 1, length, handle)] *)
Definition fwrite (handle : list Z) (buf : list Z) (n : Z) : list Z :=
  handle ++ firstn (Z.to_nat n) buf.

(** The second loop of [write_image]: one header per chunk, then its data. *)
Fixpoint write_chunks (handle : list Z) (hdr : block_header_type)
    (current : list chunk_list_type) : list Z :=
  match current with
  | [] => handle
  | c :: next =>
      let hdr := set_block hdr (c_flags c) (c_argument c) (c_length c) (c_address c) in
      let (handle, hdr) := write_header handle hdr in
      let handle :=
        match c_data c with
        | Some buf => fwrite handle buf (c_length c)
        | None => handle
        end in
      write_chunks handle hdr next
  end.

(** The header [write_image] builds after its [memset]. *)
Definition image_header (settings : image_settings_type) (position : Z)
  : block_header_type :=
  {| bcode := s_bcode settings mod 16;
     flags := Z.lor BFLAG_IGNORE BFLAG_FIRST;
     hdrchk := 0;
     hdrsign := s_hdrsign settings mod 256;
     target_address := entry_point settings;
     byte_count := 0;
     argument := position |}.

Definition write_image (handle : list Z) (chunks : list chunk_list_type)
    (settings : image_settings_type) : list Z :=
  let position := image_position chunks sizeof_header in
  let (handle, hdr) := write_header handle (image_header settings position) in
  write_chunks handle hdr chunks.

(** ** ChunkStore: the merge rule *)

(** The tests of the scan loop on the chunk [current]; [true] is the
    [break] with [additional = current], [false] is [not_a_match]. *)
Definition chunk_matches (hdr : block_header_type) (current : chunk_list_type) : bool :=
  if has (flags hdr) (Z.lnot BFLAG_FILL) then false
  else if has (flags hdr) BFLAG_FILL && (CUSTOMIZE_SMALLEST_FILL_BLOCK <? byte_count hdr)
  then false
  else if has (c_flags current) BFLAG_FILL then false
  else (c_address current <=? target_address hdr)
       && (target_address hdr <=? wrap32 (c_address current + c_length current)).

(** The scan loop: the chunks [previous] went over, and the list from
    [current] on when the loop is left ([[]] is [current == NULL]). *)
Fixpoint scan (hdr : block_header_type) (current : list chunk_list_type)
  : list chunk_list_type * list chunk_list_type :=
  match current with
  | [] => ([], [])
  | c :: next =>
      if chunk_matches hdr c then ([], current)
      else let (passed, rest) := scan hdr next in (c :: passed, rest)
  end.

Definition new_chunk (hdr : block_header_type) : chunk_list_type :=
  {| c_address := target_address hdr;
     c_argument := argument hdr;
     c_data := None;
     c_length := 0;
     c_flags := flags hdr |}.

(** Find or create [additional]: the chunks before it, the chunk, the
    chunks after it. A created chunk is linked between [previous] and
    [current]. *)
Definition find_or_create (hdr : block_header_type) (chunks : list chunk_list_type)
  : list chunk_list_type * chunk_list_type * list chunk_list_type :=
  let (passed, rest) := scan hdr chunks in
  match rest with
  | additional :: next => (passed, additional, next)
  | [] => (passed, new_chunk hdr, rest)
  end.

(** [memcpy(buf + off, bytes, length bytes)] *)
Definition store (buf : list Z) (off : nat) (bytes : list Z) : list Z :=
  firstn off buf ++ bytes ++ skipn (off + length bytes) buf.

(** [fread(ptr, 1, n, input)]: the bytes obtained and the rest of the file. *)
Definition fread (input : list Z) (n : Z) : list Z * list Z :=
  (firstn (Z.to_nat n) input, skipn (Z.to_nat n) input).

(** The unrolling loop: [while (byte_count >= 4) { memcpy; ptr += 4;
    byte_count -= 4; }]. Returns the buffer and what is left of
    [hdr.byte_count]. *)
Fixpoint fill_loop (fuel : nat) (buf : list Z) (ptr : nat) (arg count : Z)
  : list Z * Z :=
  match fuel with
  | O => (buf, count)
  | S fuel' =>
      if 4 <=? count
      then fill_loop fuel' (store buf ptr (word_bytes arg)) (ptr + 4) arg (count - 4)
      else (buf, count)
  end.

Inductive event :=
| Written (chunks : list chunk_list_type) (settings : image_settings_type)
| Warning (from to : Z).

(** The variables of [main] that matter, and the two files. [fresh] counts
    the indeterminate heap bytes handed out so far; [trace] records the
    calls of [write_image] and the warnings. *)
Record state := mk_state {
  input : list Z;
  output : list Z;
  chunk_list : list chunk_list_type;
  settings : image_settings_type;
  hdr : block_header_type;
  fresh : nat;
  trace : list event
}.

Definition set_input (st : state) (i : list Z) : state :=
  mk_state i (output st) (chunk_list st) (settings st) (hdr st) (fresh st) (trace st).
Definition set_chunk_list (st : state) (l : list chunk_list_type) : state :=
  mk_state (input st) (output st) l (settings st) (hdr st) (fresh st) (trace st).
Definition set_settings (st : state) (s : image_settings_type) : state :=
  mk_state (input st) (output st) (chunk_list st) s (hdr st) (fresh st) (trace st).
Definition set_hdr (st : state) (h : block_header_type) : state :=
  mk_state (input st) (output st) (chunk_list st) (settings st) h (fresh st) (trace st).
Definition set_fresh (st : state) (n : nat) : state :=
  mk_state (input st) (output st) (chunk_list st) (settings st) (hdr st) n (trace st).
Definition log (st : state) (e : event) : state :=
  mk_state (input st) (output st) (chunk_list st) (settings st) (hdr st) (fresh st)
           (trace st ++ [e]).

Definition set_byte_count (h : block_header_type) (count : Z) : block_header_type :=
  {| bcode := bcode h; flags := flags h; hdrchk := hdrchk h; hdrsign := hdrsign h;
     target_address := target_address h; byte_count := count; argument := argument h |}.

Definition grow (c : chunk_list_type) (buf : option (list Z)) (additional_bytes : Z)
  : chunk_list_type :=
  {| c_address := c_address c; c_argument := c_argument c; c_data := buf;
     c_length := wrap32 (c_length c + additional_bytes); c_flags := c_flags c |}.

Section Program.

(** The content of the heap bytes [realloc] hands out. *)
Variable junk : nat -> Z.

(** [realloc(data, size)]: the old content, then indeterminate bytes. *)
Definition realloc (st : state) (data : option (list Z)) (size : Z) : list Z * state :=
  let old := match data with Some buf => buf | None => [] end in
  let n := Z.to_nat size in
  let added := (n - length old)%nat in
  (firstn n old ++ map junk (seq (fresh st) added), set_fresh st (fresh st + added)).

(** The write into [additional] (the [if] that follows the insertion). *)
Definition extend (st : state) (additional : chunk_list_type) : state * chunk_list_type :=
  let h := hdr st in
  let new_end := wrap32 (target_address h + byte_count h) in
  let old_end := wrap32 (c_address additional + c_length additional) in
  if old_end <? new_end then
    let additional_bytes := wrap32 (new_end - old_end) in
    let size := wrap32 (c_length additional + additional_bytes) in
    let offset := Z.to_nat (wrap32 (target_address h - c_address additional)) in
    if has (flags h) BFLAG_FILL then
      if negb (has (c_flags additional) BFLAG_FILL) then
        let (buf, st) := realloc st (c_data additional) size in
        let (buf, count) :=
          fill_loop (Z.to_nat (byte_count h)) buf offset (argument h) (byte_count h) in
        (set_hdr st (set_byte_count h count), grow additional (Some buf) additional_bytes)
      else (st, grow additional (c_data additional) additional_bytes)
    else
      let (buf, st) := realloc st (c_data additional) size in
      let (got, rest) := fread (input st) additional_bytes in
      (set_input st rest, grow additional (Some (store buf offset got)) additional_bytes)
  else
    (if byte_count h =? 0 then st
     else log st (Warning (target_address h) (wrap32 (target_address h + byte_count h))),
     additional).

(** A Normal or Fill block: find or create the chunk and write into it. *)
Definition merge (st : state) : state :=
  let '(before, additional, after) := find_or_create (hdr st) (chunk_list st) in
  let (st, additional) := extend st additional in
  set_chunk_list st (before ++ additional :: after).

(** [if (list) { write_image(output, list, &settings); list = NULL; }] *)
Definition flush (st : state) : state :=
  match chunk_list st with
  | [] => st
  | _ :: _ =>
      mk_state (input st) (write_image (output st) (chunk_list st) (settings st))
               [] (settings st) (hdr st) (fresh st)
               (trace st ++ [Written (chunk_list st) (settings st)])
  end.

Definition capture (h : block_header_type) : image_settings_type :=
  {| s_hdrsign := hdrsign h; s_bcode := bcode h; entry_point := target_address h |}.

Inductive outcome :=
| Next (st : state)      (* the loop goes round again *)
| Leave (st : state)     (* the loop is left: Final block or end of file *)
| Fail (st : state).     (* [return -1]: the checksum failed *)

(** The body of the loop once the checksum has passed, on the header in
    [hdr st]. *)
Definition process (st : state) : outcome :=
  let fl := flags (hdr st) in
  let st := if has fl (Z.lor BFLAG_FIRST BFLAG_FINAL) then flush st else st in
  if has fl BFLAG_FINAL then Leave st
  else if has fl BFLAG_FIRST then Next (set_settings st (capture (hdr st)))
  else if has fl BFLAG_IGNORE
  then Next (set_input st (skipn (Z.to_nat (byte_count (hdr st))) (input st)))
  else
    let st := merge st in
    Next (if has fl BFLAG_INIT then flush st else st).

(** [fread(&hdr, sizeof(struct block_header_type), 1, input)] when the
    file has 16 bytes left. *)
Definition read_header (st : state) : state :=
  set_hdr (set_input st (skipn 16 (input st))) (header_of_bytes (firstn 16 (input st))).

(** One iteration of the [while] loop of [main]. A short read leaves the
    bytes obtained in the front of [hdr]. *)
Definition step (st : state) : outcome :=
  if (16 <=? length (input st))%nat then
    let st := read_header st in
    if calc_header_checksum (hdr st) =? 0 then process st else Fail st
  else
    Leave (set_hdr (set_input st [])
             (header_of_bytes
                (input st ++ skipn (length (input st)) (header_bytes (hdr st))))).

Record result := mk_result {
  exit_status : Z;
  out_file : list Z;
  events : list event
}.

(** After the loop: the Final block, [return 0]. *)
Definition finish (st : state) : result :=
  let h := set_block (hdr st) BFLAG_FINAL 0 0 (entry_point (settings st)) in
  let (out, _) := write_header (output st) h in
  mk_result 0 out (trace st).

Fixpoint loop (fuel : nat) (st : state) : option result :=
  match fuel with
  | O => None
  | S fuel' =>
      match step st with
      | Next st' => loop fuel' st'
      | Leave st' => Some (finish st')
      | Fail st' => Some (mk_result (-1) (output st') (trace st'))
      end
  end.

Definition initial (settings0 : image_settings_type) (hdr0 : block_header_type)
    (input : list Z) : state :=
  mk_state input [] [] settings0 hdr0 0 [].

(** [main], from the first [fread] on, on the content of the input file;
    [settings0] and [hdr0] are the indeterminate initial values of the
    local variables. Every iteration that goes round again has read a
    header, so the fuel is never used up ([main_returns]). *)
Definition main (settings0 : image_settings_type) (hdr0 : block_header_type)
    (input : list Z) : option result :=
  loop (S (length input)) (initial settings0 hdr0 input).

End Program.

(** ** Predicates of the statements *)

(** A header whose fields fit their widths. *)
Record header_ok (h : block_header_type) : Prop := {
  bcode_ok : 0 <= bcode h < 16;
  flags_ok : 0 <= flags h < 4096;
  hdrchk_ok : byte_ok (hdrchk h);
  hdrsign_ok : byte_ok (hdrsign h);
  target_ok : word_ok (target_address h);
  count_ok : word_ok (byte_count h);
  argument_ok : word_ok (argument h)
}.

(** Settings whose fields fit their C types. *)
Record settings_ok (s : image_settings_type) : Prop := {
  s_hdrsign_ok : byte_ok (s_hdrsign s);
  s_bcode_ok : byte_ok (s_bcode s);
  entry_point_ok : word_ok (entry_point s)
}.

(** The state at the head of the loop of [main] after [n] iterations
    that went round again. *)
Fixpoint steps (junk : nat -> Z) (n : nat) (st : state) : option state :=
  match n with
  | O => Some st
  | S n' =>
      match step junk st with
      | Next st' => steps junk n' st'
      | _ => None
      end
  end.

(** Bit [k] of byte [i] of [raw] inverted. *)
Definition flip_bit (raw : list Z) (i : nat) (k : Z) : list Z :=
  firstn i raw ++ Z.lxor (nth i raw 0) (2 ^ k) :: skipn (S i) raw.

(** A chunk as the merge rule builds them: the fields fit their widths,
    the range does not wrap, no flag that keeps a block out of the list,
    and a data buffer exactly when the chunk is not a Fill chunk and is
    not empty, of [length] bytes. *)
Record chunk_ok (c : chunk_list_type) : Prop := {
  c_address_ok : word_ok (c_address c);
  c_argument_ok : word_ok (c_argument c);
  c_length_ok : 0 <= c_length c;
  c_end_ok : c_address c + c_length c < 2 ^ 32;
  c_flags_ok : 0 <= c_flags c < 4096;
  c_not_first : has (c_flags c) BFLAG_FIRST = false;
  c_not_final : has (c_flags c) BFLAG_FINAL = false;
  c_not_ignore : has (c_flags c) BFLAG_IGNORE = false;
  c_data_ok : match c_data c with
              | Some buf => length buf = Z.to_nat (c_length c)
                            /\ 0 < c_length c
                            /\ has (c_flags c) BFLAG_FILL = false
              | None => has (c_flags c) BFLAG_FILL = true \/ c_length c = 0
              end
}.

(** The closed interval of the merge rule, as an interval of integers. *)
Definition in_closed_range (c : chunk_list_type) (a : Z) : Prop :=
  c_address c <= a <= c_address c + c_length c.

(** The header as [write_header] leaves it. *)
Definition with_checksum (h : block_header_type) : block_header_type :=
  snd (write_header [] h).

Definition no_init (c : chunk_list_type) : Prop := has (c_flags c) BFLAG_INIT = false.

(** A chunk list as [write_image] receives it: not empty, made of
    well-formed chunks, an Init chunk only in the last place. *)
Definition event_ok (e : event) : Prop :=
  match e with
  | Written chunks s =>
      chunks <> [] /\ Forall chunk_ok chunks /\ Forall no_init (removelast chunks)
      /\ settings_ok s
  | Warning _ _ => True
  end.

(** The bytes the traced calls of [write_image] put on the output file. *)
Fixpoint trace_bytes (evs : list event) : list Z :=
  match evs with
  | [] => []
  | Written chunks s :: evs => write_image [] chunks s ++ trace_bytes evs
  | Warning _ _ :: evs => trace_bytes evs
  end.

(** The chunk lists written, in order. *)
Fixpoint written (evs : list event) : list (list chunk_list_type) :=
  match evs with
  | [] => []
  | Written chunks _ :: evs => chunks :: written evs
  | Warning _ _ :: evs => written evs
  end.

(** What holds of the state at the head of the loop of [main]. *)
Record state_ok (st : state) : Prop := {
  input_ok : bytes_ok (input st);
  settings_st_ok : settings_ok (settings st);
  hdr_st_ok : header_ok (hdr st);
  chunks_ok : Forall chunk_ok (chunk_list st);
  chunks_no_init : Forall no_init (chunk_list st);
  trace_ok : Forall event_ok (trace st);
  output_trace : output st = trace_bytes (trace st)
}.

(** The 16 bytes of a block header with its checksum, for the examples:
    bcode 10, signature 0xAD. *)
Definition block (fl target count arg : Z) : list Z :=
  header_bytes (with_checksum (mk_header 10 fl 0 0xAD target count arg)).

(** A run for the examples: every indeterminate heap byte is 0xEE, the
    indeterminate fields of [settings] and [hdr] are 0. *)
Definition example_main (file : list Z) : option result :=
  main (fun _ => 0xEE) (mk_settings 0 0 0) (mk_header 0 0 0 0 0 0 0) file.

(** The exit status and the chunk lists written. *)
Definition example_run (file : list Z) : option (Z * list (list chunk_list_type)) :=
  option_map (fun r => (exit_status r, written (events r))) (example_main file).

(** The total image size in the words of the spec: one header size plus,
    for each chunk, the header size plus the chunk length when the chunk
    owns a data buffer, the header size only otherwise. *)
Definition chunk_size (c : chunk_list_type) : Z :=
  match c_data c with
  | Some _ => sizeof_header + c_length c
  | None => sizeof_header
  end.

Definition image_size (chunks : list chunk_list_type) : Z :=
  sizeof_header + fold_right Z.add 0 (map chunk_size chunks).

(** The block [write_image] writes for a chunk: the header, then the data
    buffer when there is one. *)
Definition chunk_header (s : image_settings_type) (c : chunk_list_type)
  : block_header_type :=
  {| bcode := s_bcode s mod 16;
     flags := c_flags c mod 4096;
     hdrchk := 0;
     hdrsign := s_hdrsign s mod 256;
     target_address := c_address c;
     byte_count := c_length c;
     argument := c_argument c |}.

Definition chunk_block (s : image_settings_type) (c : chunk_list_type) : list Z :=
  header_bytes (with_checksum (chunk_header s c))
  ++ match c_data c with Some buf => buf | None => [] end.

(** The data buffer, when there is one, has [c_length] bytes. *)
Definition chunk_sized (c : chunk_list_type) : Prop :=
  forall buf, c_data c = Some buf -> length buf = Z.to_nat (c_length c).

(** What the merge rule knows of [additional] when it writes into it. *)
Definition extend_pre (h : block_header_type) (c : chunk_list_type) : Prop :=
  header_ok h /\ chunk_ok c /\ in_closed_range c (target_address h)
  /\ (has (c_flags c) BFLAG_FILL = true -> has (flags h) BFLAG_FILL = true).

(** The provisos of the merge rule on the incoming block: no flag other
    than FILL, and at most 256 bytes when FILL is set. *)
Definition mergeable (h : block_header_type) : Prop :=
  (flags h = 0 \/ flags h = BFLAG_FILL)
  /\ (has (flags h) BFLAG_FILL = true -> byte_count h <= CUSTOMIZE_SMALLEST_FILL_BLOCK).

(** The chunk is not a Fill chunk and its closed interval contains the
    target address of the block. *)
Definition accepts (c : chunk_list_type) (h : block_header_type) : Prop :=
  has (c_flags c) BFLAG_FILL = false /\ in_closed_range c (target_address h).

(** The bytes of the data buffer ([[]] for the NULL pointer). *)
Definition buffer (c : chunk_list_type) : list Z :=
  match c_data c with Some buf => buf | None => [] end.

(** The byte a chunk holds for the address [a], if it holds one. *)
Definition chunk_byte (c : chunk_list_type) (a : Z) : option Z :=
  match c_data c with
  | Some buf =>
      if (c_address c <=? a) && (a <? c_address c + c_length c)
      then nth_error buf (Z.to_nat (a - c_address c))
      else None
  | None => None
  end.

(** The header of the block [write_image] writes for a chunk, as far as
    the merge rule looks at it. *)
Definition replayed (c : chunk_list_type) : block_header_type :=
  mk_header 0 (c_flags c) 0 0 (c_address c) (c_length c) (c_argument c).

(** No chunk of the list, taken as a block, would be merged by the merge
    rule into a chunk that precedes it in the list: a chunk that
    satisfies the provisos of the rule has its address in the closed
    interval of no earlier chunk that is not a Fill chunk. *)
Definition stable (chunks : list chunk_list_type) : Prop :=
  forall before c after,
    chunks = before ++ c :: after ->
    mergeable (replayed c) ->
    Forall (fun c' => ~ accepts c' (replayed c)) before.

(** The same on the scan of the code, for the chunks [chunks] that follow
    the chunks [before]. *)
Fixpoint stable_after (before chunks : list chunk_list_type) : Prop :=
  match chunks with
  | [] => True
  | c :: rest =>
      Forall (fun c' => chunk_matches (replayed c) c' = false) before
      /\ stable_after (before ++ [c]) rest
  end.

(** The chunk lists a state has seen in full: those written, and the one
    in the list when there is one. *)
Definition pending (st : state) : list (list chunk_list_type) :=
  match chunk_list st with
  | [] => []
  | _ :: _ => [chunk_list st]
  end.

Definition seen (st : state) : list (list chunk_list_type) :=
  written (trace st) ++ pending st.

(** A block that goes to the merge rule: not a First, Final or Ignore
    block. *)
Definition merge_block (h : block_header_type) : Prop :=
  header_ok h /\ has (flags h) BFLAG_FIRST = false
  /\ has (flags h) BFLAG_FINAL = false /\ has (flags h) BFLAG_IGNORE = false.

(** The byte a block of the merge rule (the header in [hdr st], the
    payload at the front of [input st]) writes at the address [x] of the
    chunk [c] it is written into, [None] when it writes none there: a
    block that the chunk covers writes nothing; a block that is not a
    Fill block writes payload byte [i] at [targetAddress + i]; a Fill
    block writes the bytes of its argument over the first
    [4 * (byteCount / 4)] addresses from [targetAddress], unless the
    chunk is a Fill chunk, which holds no data. *)
Definition written_byte (st : state) (c : chunk_list_type) (x : Z) : option Z :=
  let h := hdr st in
  let t := target_address h in
  let n := byte_count h in
  if t + n <=? c_address c + c_length c then None
  else if has (flags h) BFLAG_FILL then
    if has (c_flags c) BFLAG_FILL then None
    else if (t <=? x) && (x <? t + 4 * (n / 4))
         then nth_error (word_bytes (argument h)) (Z.to_nat ((x - t) mod 4))
         else None
  else if (t <=? x) && (x <? t + n)
       then nth_error (input st) (Z.to_nat (x - t))
       else None.

(** The range of the block does not pass 2^32 and, when the block is not
    a Fill block, it does not overlap the end of the chunk it is written
    into: the chunk covers it, or it starts exactly where the chunk ends
    (a new chunk ends where it starts). A Fill block may overlap. *)
Definition no_payload_overlap (st : state) (h : block_header_type) : Prop :=
  target_address h + byte_count h < 2 ^ 32
  /\ let '(_, c, _) := find_or_create h (chunk_list st) in
     has (flags h) BFLAG_FILL = false ->
     target_address h + byte_count h <= c_address c + c_length c
     \/ target_address h = c_address c + c_length c.

(** States of the merge rule in a sequence of such blocks none of which
    writes the address [x] of the chunk in place [k] of the list: from
    one call of [merge] to the next the program reads the header of the
    next block, so [hdr] and [input] change; the chunk list changes in
    [merge] only. *)
Inductive fed (junk : nat -> Z) (k : nat) (x : Z) : state -> state -> Prop :=
| fed_done (st : state) : fed junk k x st st
| fed_block (st st' : state) (h : block_header_type) (rest : list Z) :
    merge_block h -> no_payload_overlap (set_input st rest) h ->
    (let '(before, c, _) := find_or_create h (chunk_list st) in
     length before = k -> written_byte (set_hdr (set_input st rest) h) c x = None) ->
    fed junk k x (merge junk (set_hdr (set_input st rest) h)) st' ->
    fed junk k x st st'.

(** ** The counters of [main] *)

(** [position] is printed when a checksum fails; the two block counts
    make the last line [main] prints. None of them is read by the rest
    of the program. *)
Record counters := mk_counters {
  position : Z;
  input_block_count : Z;
  output_block_count : Z
}.

(** What one iteration of the loop does to the counters, from the state
    at the head of the iteration: nothing on a short read or a failed
    checksum; [position += sizeof(header)] once the checksum has passed;
    [input_block_count++] for a block that is neither First nor Final;
    [position += byte_count] for a block of the merge rule that is not a
    Fill block; [output_block_count++] when the scan found no chunk. *)
Definition count (st : state) (k : counters) : counters :=
  if (16 <=? length (input st))%nat then
    let st := read_header st in
    if calc_header_checksum (hdr st) =? 0 then
      let fl := flags (hdr st) in
      let k := mk_counters (wrap32 (position k + sizeof_header))
                           (input_block_count k) (output_block_count k) in
      if has fl BFLAG_FINAL then k
      else if has fl BFLAG_FIRST then k
      else
        let k := mk_counters (position k) (wrap32 (input_block_count k + 1))
                             (output_block_count k) in
        if has fl BFLAG_IGNORE then k
        else
          let k := if has fl BFLAG_FILL then k
                   else mk_counters (wrap32 (position k + byte_count (hdr st)))
                                    (input_block_count k) (output_block_count k) in
          match snd (scan (hdr st) (chunk_list st)) with
          | [] => mk_counters (position k) (input_block_count k)
                              (wrap32 (output_block_count k + 1))
          | _ :: _ => k
          end
    else k
  else k.

Section Counted.

Variable junk : nat -> Z.

(** The loop of [main] with its counters. *)
Fixpoint counted_loop (fuel : nat) (st : state) (k : counters)
  : option (result * counters) :=
  match fuel with
  | O => None
  | S fuel' =>
      match step junk st with
      | Next st' => counted_loop fuel' st' (count st k)
      | Leave st' => Some (finish st', count st k)
      | Fail st' => Some (mk_result (-1) (output st') (trace st'), count st k)
      end
  end.

(** [main] with the counters it holds when it returns. *)
Definition counted_main (settings0 : image_settings_type) (hdr0 : block_header_type)
    (file : list Z) : option (result * counters) :=
  counted_loop (S (length file)) (initial settings0 hdr0 file) (mk_counters 0 0 0).

End Counted.

(** ** Streams for the statements *)

(** Blocks without flags laid end to end from the address [t]: for each
    pair of an argument and a payload, the header with its checksum, then
    the payload; the next block starts where this one ends. *)
Fixpoint contiguous (bc sg t : Z) (blocks : list (Z * list Z)) : list Z :=
  match blocks with
  | [] => []
  | (arg, payload) :: more =>
      header_bytes (with_checksum (mk_header bc 0 0 sg t (Z.of_nat (length payload)) arg))
      ++ payload
      ++ contiguous bc sg (t + Z.of_nat (length payload)) more
  end.

(** The number of chunks in the lists. *)
Definition chunk_total (lists : list (list chunk_list_type)) : Z :=
  Z.of_nat (length (concat lists)).

(** The end of the range of a chunk, and of the block in a header. *)
Definition chunk_end (c : chunk_list_type) : Z := c_address c + c_length c.
Definition block_end (h : block_header_type) : Z := target_address h + byte_count h.

(** What holds of the block counts at the head of the loop of [main], on
    a file of [size] bytes: every chunk created so far has been counted
    once, and every block counted as read took at least 16 bytes of the
    file. *)
Definition counts_ok (size : Z) (st : state) (k : counters) : Prop :=
  output_block_count k = chunk_total (seen st)
  /\ output_block_count k <= input_block_count k
  /\ 16 * input_block_count k + Z.of_nat (length (input st)) <= size.

(** ** The output file as a sequence of blocks *)

(** The payload a block carries in the file: [byte_count] bytes, none
    for a Fill block. *)
Definition payload_size (h : block_header_type) : Z :=
  if has (flags h) BFLAG_FILL then 0 else byte_count h.

(** A file made of whole blocks: each a 16-byte header whose bytes XOR to
    zero, followed by exactly the payload its header announces. *)
Inductive block_stream : list Z -> Prop :=
| stream_end : block_stream []
| stream_block (raw payload rest : list Z) :
    length raw = 16%nat -> xor_bytes raw = 0 ->
    Z.of_nat (length payload) = payload_size (header_of_bytes raw) ->
    block_stream rest ->
    block_stream (raw ++ payload ++ rest).

(** * Properties *)

(** ** Tactics *)

(** Projections of a state built with the setters. *)
Ltac simpl_state :=
  cbn [input output chunk_list settings hdr fresh trace
       set_input set_chunk_list set_settings set_hdr set_fresh log fst snd] in *.

(** Side conditions on concrete bytes, headers, settings and chunks. *)
Ltac solve_bytes_ok := unfold bytes_ok, byte_ok; repeat constructor; lia.
Ltac solve_fields_ok :=
  constructor; unfold byte_ok, word_ok; cbn;
  unfold BFLAG_FILL, BFLAG_INIT, BFLAG_IGNORE, BFLAG_FIRST, BFLAG_FINAL; lia.
Ltac solve_chunk_ok :=
  constructor; unfold word_ok; cbn [c_address c_argument c_data c_length c_flags];
  try reflexivity;
  unfold BFLAG_FILL, BFLAG_INIT, BFLAG_IGNORE, BFLAG_FIRST, BFLAG_FINAL;
  try lia;
  try (repeat apply conj; (reflexivity || lia));
  try (left; reflexivity); try (right; reflexivity).
Ltac solve_chunks_ok := repeat (apply Forall_cons; [solve_chunk_ok|]); apply Forall_nil.

(** ** Bytes and words *)

Lemma wrap32_small (z : Z) : 0 <= z < 2 ^ 32 -> wrap32 z = z.
Proof. intros H. unfold wrap32. apply Z.mod_small. exact H. Qed.

Lemma wrap32_range (z : Z) : 0 <= wrap32 z < 2 ^ 32.
Proof. unfold wrap32. apply Z.mod_pos_bound. lia. Qed.

Lemma word_bytes_of_bytes (a b c d : Z) :
  byte_ok a -> byte_ok b -> byte_ok c -> byte_ok d ->
  word_bytes (bytes_word a b c d) = [a; b; c; d].
Proof.
  unfold byte_ok, word_bytes, bytes_word. intros Ha Hb Hc Hd.
  repeat f_equal; Z.div_mod_to_equations; lia.
Qed.

Lemma bytes_word_of_bytes (w : Z) :
  word_ok w ->
  bytes_word (w mod 256) ((w / 256) mod 256) ((w / 65536) mod 256)
             ((w / 16777216) mod 256) = w.
Proof.
  unfold word_ok, bytes_word. change (2 ^ 32) with 4294967296. intros Hw.
  Z.div_mod_to_equations. lia.
Qed.

Lemma word_bytes_ok (w : Z) : bytes_ok (word_bytes w).
Proof.
  unfold bytes_ok, word_bytes, byte_ok.
  repeat constructor; apply Z.mod_pos_bound; lia.
Qed.

Lemma bytes_word_ok (a b c d : Z) :
  byte_ok a -> byte_ok b -> byte_ok c -> byte_ok d -> word_ok (bytes_word a b c d).
Proof.
  unfold byte_ok, word_ok, bytes_word. change (2 ^ 32) with 4294967296. lia.
Qed.

Lemma length_word_bytes (w : Z) : length (word_bytes w) = 4%nat.
Proof. reflexivity. Qed.

Lemma length_header_bytes (h : block_header_type) : length (header_bytes h) = 16%nat.
Proof. reflexivity. Qed.

Lemma header_bytes_ok (h : block_header_type) : bytes_ok (header_bytes h).
Proof.
  unfold header_bytes, bytes_ok.
  repeat (apply Forall_app; split); try apply word_bytes_ok.
  unfold byte_ok. repeat constructor; Z.div_mod_to_equations; lia.
Qed.

(** The 16 bytes of a list, named. *)
Lemma sixteen (l : list Z) :
  length l = 16%nat ->
  exists b0 b1 b2 b3 b4 b5 b6 b7 b8 b9 b10 b11 b12 b13 b14 b15,
    l = [b0; b1; b2; b3; b4; b5; b6; b7; b8; b9; b10; b11; b12; b13; b14; b15].
Proof.
  intros H.
  do 16 (destruct l as [|? l]; [discriminate H|]).
  destruct l; [|discriminate H].
  repeat eexists.
Qed.

Ltac name_bytes l H :=
  let E := fresh "E" in
  destruct (sixteen l H) as (?b & ?b & ?b & ?b & ?b & ?b & ?b & ?b & ?b & ?b & ?b
                             & ?b & ?b & ?b & ?b & ?b & E);
  subst l.

Ltac split_bytes H :=
  unfold bytes_ok in H;
  repeat match type of H with
         | Forall _ (_ :: _) =>
             let H1 := fresh "Hb" in
             let H2 := fresh "H" in
             apply Forall_cons_iff in H; destruct H as [H1 H2]; rename H2 into H
         end.

(** Reading a header and taking its bytes again gives the bytes read. *)
Lemma header_bytes_of_bytes (l : list Z) :
  length l = 16%nat -> bytes_ok l -> header_bytes (header_of_bytes l) = l.
Proof.
  intros Hlen Hok. name_bytes l Hlen. split_bytes Hok.
  unfold header_bytes, header_of_bytes, byte_at; cbn [nth bcode flags hdrchk hdrsign
    target_address byte_count argument].
  rewrite !word_bytes_of_bytes by assumption.
  cbn [app]. unfold byte_ok in *.
  repeat f_equal; Z.div_mod_to_equations; lia.
Qed.

Lemma header_of_bytes_ok (l : list Z) :
  length l = 16%nat -> bytes_ok l -> header_ok (header_of_bytes l).
Proof.
  intros Hlen Hok. name_bytes l Hlen. split_bytes Hok.
  unfold header_of_bytes, byte_at; cbn [nth].
  constructor; cbn [bcode flags hdrchk hdrsign target_address byte_count argument];
    try assumption; try (apply bytes_word_ok; assumption);
    unfold byte_ok in *; Z.div_mod_to_equations; lia.
Qed.

(** Taking the bytes of a header and reading them gives the header. *)
Lemma header_of_bytes_of_header (h : block_header_type) :
  header_ok h -> header_of_bytes (header_bytes h) = h.
Proof.
  intros [Hb Hf Hc Hs Ht Hn Ha]. destruct h as [bc fl ck sg ta cn ar].
  cbn [bcode flags hdrchk hdrsign target_address byte_count argument] in *.
  unfold header_of_bytes, header_bytes, word_bytes, byte_at;
    cbn [app nth bcode flags hdrchk hdrsign target_address byte_count argument].
  rewrite !bytes_word_of_bytes by assumption.
  unfold byte_ok in *. clear Ht Hn Ha.
  f_equal; Z.div_mod_to_equations; lia.
Qed.

(** ** The XOR checksum *)

Lemma fold_lxor (l : list Z) (a : Z) :
  fold_left Z.lxor l a = Z.lxor a (xor_bytes l).
Proof.
  unfold xor_bytes. revert a.
  induction l as [|x l IH]; intros a; cbn [fold_left].
  - now rewrite Z.lxor_0_r.
  - change (Z.lxor 0 x) with x. rewrite IH, (IH x), Z.lxor_assoc. reflexivity.
Qed.

Lemma xor_bytes_cons (x : Z) (l : list Z) :
  xor_bytes (x :: l) = Z.lxor x (xor_bytes l).
Proof.
  unfold xor_bytes at 1. cbn [fold_left]. change (Z.lxor 0 x) with x.
  apply fold_lxor.
Qed.

Lemma xor_bytes_app (l1 l2 : list Z) :
  xor_bytes (l1 ++ l2) = Z.lxor (xor_bytes l1) (xor_bytes l2).
Proof.
  induction l1 as [|x l1 IH]; cbn [app].
  - unfold xor_bytes at 2. cbn [fold_left]. reflexivity.
  - rewrite !xor_bytes_cons, IH, Z.lxor_assoc. reflexivity.
Qed.

Lemma lxor_byte_ok (a b : Z) : byte_ok a -> byte_ok b -> byte_ok (Z.lxor a b).
Proof.
  unfold byte_ok. change 256 with (2 ^ 8). intros Ha Hb.
  assert (Hn : 0 <= Z.lxor a b) by (apply Z.lxor_nonneg; lia).
  split; [exact Hn|].
  destruct (Z.eq_dec (Z.lxor a b) 0) as [->|Hne]; [lia|].
  apply Z.log2_lt_pow2; [lia|].
  eapply Z.le_lt_trans; [apply Z.log2_lxor; lia|].
  apply Z.max_lub_lt.
  - destruct (Z.eq_dec a 0) as [->|]; [cbn; lia|apply Z.log2_lt_pow2; lia].
  - destruct (Z.eq_dec b 0) as [->|]; [cbn; lia|apply Z.log2_lt_pow2; lia].
Qed.

Lemma xor_bytes_range (l : list Z) : bytes_ok l -> byte_ok (xor_bytes l).
Proof.
  unfold bytes_ok.
  induction 1 as [|x l Hx _ IH].
  - unfold byte_ok. cbn. lia.
  - rewrite xor_bytes_cons. apply lxor_byte_ok; assumption.
Qed.

(** The checksum a header must carry is the XOR of its other bytes. *)
Lemma xor_bytes_third (a b c : Z) (l : list Z) :
  xor_bytes (a :: b :: c :: l) = Z.lxor c (xor_bytes (a :: b :: 0 :: l)).
Proof.
  rewrite !xor_bytes_cons, Z.lxor_0_l.
  rewrite (Z.lxor_comm c), <- !Z.lxor_assoc, (Z.lxor_comm _ c), !Z.lxor_assoc.
  reflexivity.
Qed.

Lemma calc_header_checksum_of_bytes (l : list Z) :
  length l = 16%nat -> bytes_ok l ->
  calc_header_checksum (header_of_bytes l) = xor_bytes l.
Proof.
  intros Hlen Hok. unfold calc_header_checksum.
  now rewrite header_bytes_of_bytes.
Qed.

Lemma header_bytes_set_hdrchk (h : block_header_type) (v : Z) :
  header_bytes (set_hdrchk h v)
  = firstn 2 (header_bytes h) ++ (v mod 256) :: skipn 3 (header_bytes h).
Proof.
  unfold header_bytes, set_hdrchk; cbn [bcode flags hdrchk hdrsign target_address
    byte_count argument app firstn skipn].
  now rewrite Z.mod_mod by lia.
Qed.

(** [write_header] writes the header with the checksum byte that makes
    the XOR of the 16 bytes zero. *)
Lemma write_header_checksum (handle : list Z) (h : block_header_type) :
  exists raw, fst (write_header handle h) = handle ++ raw
              /\ length raw = 16%nat /\ bytes_ok raw /\ xor_bytes raw = 0.
Proof.
  unfold write_header; cbn [fst]. eexists; split; [reflexivity|].
  split; [reflexivity|]. split; [apply header_bytes_ok|].
  rewrite header_bytes_set_hdrchk.
  set (h0 := set_hdrchk h 0).
  assert (Hr := xor_bytes_range _ (header_bytes_ok h0)).
  unfold calc_header_checksum.
  rewrite (Z.mod_small (xor_bytes (header_bytes h0))) by exact Hr.
  destruct (sixteen (header_bytes h0) eq_refl)
    as (b0 & b1 & b2 & b3 & b4 & b5 & b6 & b7 & b8 & b9 & b10 & b11 & b12 & b13
        & b14 & b15 & E).
  assert (E2 : b2 = 0).
  { unfold h0, header_bytes, set_hdrchk in E; cbn in E. now inversion E. }
  rewrite E. subst b2. cbn [firstn skipn app].
  rewrite xor_bytes_third. apply Z.lxor_nilpotent.
Qed.

(** C5. For every 16-byte header whose bytes XOR to zero, reading it into
    the structure and writing the structure with [write_header] (checksum
    field zeroed, recomputed as the XOR of the 16 bytes, stored) puts the
    same 16 bytes on the file. *)
Theorem header_checksum_round_trip (raw handle : list Z) :
  length raw = 16%nat -> bytes_ok raw -> xor_bytes raw = 0 ->
  fst (write_header handle (header_of_bytes raw)) = handle ++ raw.
Proof.
  intros Hlen Hok Hxor. unfold write_header; cbn [fst]. f_equal.
  rewrite header_bytes_set_hdrchk.
  set (h0 := set_hdrchk (header_of_bytes raw) 0).
  assert (Hr := xor_bytes_range _ (header_bytes_ok h0)).
  unfold calc_header_checksum. rewrite Z.mod_small by exact Hr.
  unfold h0. rewrite header_bytes_set_hdrchk, header_bytes_of_bytes by assumption.
  name_bytes raw Hlen. cbn [firstn skipn app]. change (0 mod 256) with 0.
  rewrite xor_bytes_third in Hxor. apply Z.lxor_eq in Hxor.
  rewrite <- Hxor. reflexivity.
Qed.

Lemma header_checksum_round_trip_witness :
  fst (write_header [7] (header_of_bytes
         [10; 64; 193; 173; 52; 18; 0; 0; 0; 0; 0; 0; 0; 0; 0; 0]))
  = [7] ++ [10; 64; 193; 173; 52; 18; 0; 0; 0; 0; 0; 0; 0; 0; 0; 0].
Proof.
  apply header_checksum_round_trip.
  - reflexivity.
  - solve_bytes_ok.
  - reflexivity.
Defined.

(** ** The loop of [main] *)

Section Loop.

Variable junk : nat -> Z.

Lemma input_flush (st : state) : input (flush st) = input st.
Proof. unfold flush. destruct (chunk_list st); reflexivity. Qed.

Lemma input_extend (st : state) (c : chunk_list_type) :
  (length (input (fst (extend junk st c))) <= length (input st))%nat.
Proof.
  unfold extend.
  destruct (_ <? _); [|destruct (_ =? _); simpl_state; lia].
  destruct (has (flags (hdr st)) BFLAG_FILL).
  - destruct (negb _); [|simpl_state; lia].
    cbn [realloc]. destruct (fill_loop _ _ _ _ _). simpl_state. lia.
  - cbn [realloc fread]. simpl_state. rewrite length_skipn. lia.
Qed.

Lemma input_merge (st : state) :
  (length (input (merge junk st)) <= length (input st))%nat.
Proof.
  unfold merge. destruct (find_or_create _ _) as [[before additional] after].
  pose proof (input_extend st additional) as H.
  destruct (extend junk st additional) as [st' c']. simpl_state. exact H.
Qed.

(** An iteration that goes round again has read a header. *)
Lemma step_consumes (st st' : state) :
  step junk st = Next st' -> (length (input st') + 16 <= length (input st))%nat.
Proof.
  unfold step. destruct (16 <=? length (input st))%nat eqn:Hlen; [|discriminate].
  apply Nat.leb_le in Hlen.
  set (st1 := read_header st).
  assert (H1 : (length (input st1) + 16 <= length (input st))%nat).
  { unfold st1, read_header. simpl_state. rewrite length_skipn. lia. }
  destruct (_ =? 0); [|discriminate].
  unfold process.
  set (st2 := if has _ (Z.lor _ _) then flush st1 else st1).
  assert (H2 : input st2 = input st1).
  { unfold st2. destruct (has _ _); [apply input_flush|reflexivity]. }
  destruct (has _ BFLAG_FINAL); [discriminate|].
  destruct (has _ BFLAG_FIRST).
  { intros [= <-]. simpl_state. rewrite H2. exact H1. }
  destruct (has _ BFLAG_IGNORE).
  { intros [= <-]. simpl_state. rewrite length_skipn, H2. lia. }
  intros [= <-].
  pose proof (input_merge st2) as H3. rewrite H2 in H3.
  destruct (has _ BFLAG_INIT); [rewrite input_flush|]; lia.
Qed.

(** Any fuel above the length of the input left gives the same result. *)
Lemma loop_fuel_eq (fuel1 fuel2 : nat) (st : state) :
  (length (input st) < fuel1)%nat -> (length (input st) < fuel2)%nat ->
  loop junk fuel1 st = loop junk fuel2 st.
Proof.
  revert fuel2 st. induction fuel1 as [|fuel1 IH]; intros fuel2 st H1 H2; [lia|].
  destruct fuel2 as [|fuel2]; [lia|].
  cbn [loop]. destruct (step junk st) as [st'|st'|st'] eqn:Hs; try reflexivity.
  apply step_consumes in Hs. apply IH; lia.
Qed.

Lemma loop_fuel (fuel : nat) (st : state) :
  (length (input st) < fuel)%nat ->
  loop junk fuel st = loop junk (S (length (input st))) st.
Proof. intros H. apply loop_fuel_eq; lia. Qed.

Lemma loop_returns (st : state) :
  exists r, loop junk (S (length (input st))) st = Some r.
Proof.
  remember (length (input st)) as n eqn:Hn.
  revert st Hn. induction n as [n IH] using lt_wf_ind. intros st Hn.
  cbn [loop]. destruct (step junk st) as [st'|st'|st'] eqn:Hs; eauto.
  apply step_consumes in Hs.
  destruct (IH (length (input st')) ltac:(lia) st' eq_refl) as [r Hr].
  exists r. rewrite <- Hr. apply loop_fuel. lia.
Qed.

(** [main] returns on every input file. *)
Lemma main_returns (settings0 : image_settings_type) (hdr0 : block_header_type)
    (file : list Z) :
  exists r, main junk settings0 hdr0 file = Some r.
Proof. apply loop_returns. Qed.

Lemma steps_loop (n : nat) (st st' : state) :
  steps junk n st = Some st' ->
  loop junk (S (length (input st))) st = loop junk (S (length (input st'))) st'.
Proof.
  revert st. induction n as [|n IH]; intros st; cbn [steps].
  - now intros [= ->].
  - destruct (step junk st) as [st1| |] eqn:Hs; try discriminate.
    intros H. rewrite <- (IH _ H). cbn [loop]. rewrite Hs.
    apply step_consumes in Hs. apply loop_fuel. lia.
Qed.

(** What [main] returns is what the loop returns from any state it
    reaches at the head of the loop. *)
Lemma main_steps (settings0 : image_settings_type) (hdr0 : block_header_type)
    (file : list Z) (n : nat) (st : state) :
  steps junk n (initial settings0 hdr0 file) = Some st ->
  main junk settings0 hdr0 file = loop junk (S (length (input st))) st.
Proof. intros H. unfold main. now rewrite <- (steps_loop _ _ _ H). Qed.

End Loop.

(** ** Flags *)

Lemma has_lor (x a b : Z) : has x (Z.lor a b) = has x a || has x b.
Proof.
  unfold has. rewrite Z.land_lor_distr_r.
  destruct (Z.land x a =? 0) eqn:Ha, (Z.land x b =? 0) eqn:Hb;
    rewrite ?Z.eqb_eq, ?Z.eqb_neq in *; cbn.
  - rewrite Ha, Hb. reflexivity.
  - apply negb_true_iff, Z.eqb_neq. rewrite Z.lor_eq_0_iff. tauto.
  - apply negb_true_iff, Z.eqb_neq. rewrite Z.lor_eq_0_iff. tauto.
  - apply negb_true_iff, Z.eqb_neq. rewrite Z.lor_eq_0_iff. tauto.
Qed.

(** ** Arithmetic of the write into a chunk *)

Lemma extend_arith (a l t n : Z) :
  word_ok a -> 0 <= l -> a + l < 2 ^ 32 -> word_ok t -> word_ok n ->
  a <= t <= a + l ->
  wrap32 (a + l) < wrap32 (t + n) ->
  t + n < 2 ^ 32
  /\ wrap32 (a + l) = a + l
  /\ wrap32 (t + n) = t + n
  /\ wrap32 (t + n - (a + l)) = t + n - (a + l)
  /\ wrap32 (l + (t + n - (a + l))) = t + n - a
  /\ wrap32 (t - a) = t - a.
Proof.
  unfold word_ok, wrap32. change (2 ^ 32) with 4294967296.
  intros Ha Hl Hal Ht Hn Hin Hlt.
  assert (E1 : (a + l) mod 4294967296 = a + l) by (apply Z.mod_small; lia).
  rewrite E1 in *.
  assert (Hs : t + n < 4294967296).
  { destruct (Z_lt_ge_dec (t + n) 4294967296) as [|Hge]; [assumption|].
    exfalso. revert Hlt. Z.div_mod_to_equations. lia. }
  assert (E2 : (t + n) mod 4294967296 = t + n) by (apply Z.mod_small; lia).
  rewrite E2 in *.
  repeat split; try lia; try (apply Z.mod_small; lia).
  replace (l + (t + n - (a + l))) with (t + n - a) by lia.
  apply Z.mod_small; lia.
Qed.

(** ** Buffers *)

Lemma length_store (buf : list Z) (off : nat) (bytes : list Z) :
  (off + length bytes <= length buf)%nat ->
  length (store buf off bytes) = length buf.
Proof.
  intros H. unfold store. rewrite !length_app, length_firstn, length_skipn. lia.
Qed.

Lemma length_fill_loop (fuel : nat) (buf : list Z) (ptr : nat) (arg count : Z) :
  (Z.of_nat ptr + count <= Z.of_nat (length buf)) ->
  length (fst (fill_loop fuel buf ptr arg count)) = length buf.
Proof.
  revert buf ptr count. induction fuel as [|fuel IH]; intros buf ptr count H; [reflexivity|].
  cbn [fill_loop]. destruct (4 <=? count) eqn:E; [|reflexivity].
  apply Z.leb_le in E.
  assert (Hs : length (store buf ptr (word_bytes arg)) = length buf).
  { apply length_store. rewrite length_word_bytes. lia. }
  rewrite IH; [exact Hs|]. rewrite Hs. lia.
Qed.

Lemma length_realloc (junk : nat -> Z) (st : state) (d : option (list Z)) (size : Z) :
  length (fst (realloc junk st d size)) = Z.to_nat size.
Proof.
  unfold realloc; cbn [fst].
  rewrite length_app, length_firstn, length_map, length_seq. lia.
Qed.

Lemma fill_loop_count (fuel : nat) (buf : list Z) (ptr : nat) (arg count : Z) :
  0 <= count -> 0 <= snd (fill_loop fuel buf ptr arg count) <= count.
Proof.
  revert buf ptr count. induction fuel as [|fuel IH]; intros buf ptr count H;
    cbn [fill_loop]; [cbn; lia|].
  destruct (4 <=? count) eqn:E; [|cbn; lia].
  apply Z.leb_le in E.
  specialize (IH (store buf ptr (word_bytes arg)) (ptr + 4)%nat (count - 4)). lia.
Qed.

(** ** The write into a chunk keeps it well formed *)

Section Extend.

Variable junk : nat -> Z.

Lemma extend_chunk_ok (st : state) (c : chunk_list_type) :
  extend_pre (hdr st) c -> chunk_ok (snd (extend junk st c)).
Proof.
  intros (Hh & Hc & Hin & Hfill). unfold extend.
  destruct (_ <? _) eqn:E; [|exact Hc].
  apply Z.ltb_lt in E.
  destruct Hh as [_ _ _ _ Ht Hn _]. destruct Hc as [Ha Harg Hl He Hf Hn1 Hn2 Hn3 Hd].
  destruct (extend_arith _ _ _ _ Ha Hl He Ht Hn Hin E) as (Hs & E1 & E2 & E3 & E4 & E5).
  rewrite E1, E2, E3, E4, E5.
  assert (Hlen : wrap32 (c_length c + (target_address (hdr st) + byte_count (hdr st)
                                       - (c_address c + c_length c)))
                 = target_address (hdr st) + byte_count (hdr st) - c_address c)
    by exact E4.
  rewrite E1, E2 in E. unfold in_closed_range in Hin. unfold word_ok in *.
  destruct (has (flags (hdr st)) BFLAG_FILL) eqn:Hfl.
  - destruct (has (c_flags c) BFLAG_FILL) eqn:Hcf; cbn [negb].
    + (* a Fill chunk: no buffer *)
      cbn [snd]. constructor; cbn [grow c_address c_argument c_data c_length c_flags];
        rewrite ?Hlen; try assumption; try lia.
      destruct (c_data c) as [buf|]; [destruct Hd as (_ & _ & Hd); congruence|].
      left. exact Hcf.
    + pose proof (length_realloc junk st (c_data c)
                    (target_address (hdr st) + byte_count (hdr st) - c_address c)) as Hr.
      destruct (realloc junk st (c_data c) _) as [buf st1]. cbn [fst] in Hr.
      pose proof (length_fill_loop (Z.to_nat (byte_count (hdr st))) buf
                    (Z.to_nat (target_address (hdr st) - c_address c))
                    (argument (hdr st)) (byte_count (hdr st))) as Hfl2.
      destruct (fill_loop _ _ _ _ _) as [buf' count']. cbn [fst snd] in *.
      constructor; cbn [grow c_address c_argument c_data c_length c_flags];
        rewrite ?Hlen; try assumption; try lia.
      split; [|split; [lia|exact Hcf]].
      rewrite Hfl2; [exact Hr|]. rewrite Hr. lia.
  - assert (Hcf : has (c_flags c) BFLAG_FILL = false).
    { destruct (has (c_flags c) BFLAG_FILL); [discriminate (Hfill eq_refl)|reflexivity]. }
    pose proof (length_realloc junk st (c_data c)
                  (target_address (hdr st) + byte_count (hdr st) - c_address c)) as Hr.
    destruct (realloc junk st (c_data c) _) as [buf st1]. cbn [fst] in Hr.
    unfold fread. cbn [snd].
    constructor; cbn [grow c_address c_argument c_data c_length c_flags];
      rewrite ?Hlen; try assumption; try lia.
    split; [|split; [lia|exact Hcf]].
    rewrite length_store; [exact Hr|].
    rewrite length_firstn, Hr. lia.
Qed.

End Extend.

(** ** The scan *)

Lemma scan_spec (h : block_header_type) (l : list chunk_list_type) :
  l = fst (scan h l) ++ snd (scan h l)
  /\ Forall (fun c => chunk_matches h c = false) (fst (scan h l))
  /\ match snd (scan h l) with
     | c :: _ => chunk_matches h c = true
     | [] => True
     end.
Proof.
  induction l as [|c l IH]; cbn [scan].
  - cbn. auto.
  - destruct (chunk_matches h c) eqn:E.
    + cbn [fst snd app]. rewrite E. auto.
    + destruct (scan h l) as [passed rest]. cbn [fst snd] in *.
      destruct IH as (IH1 & IH2 & IH3). cbn [app]. rewrite <- IH1. auto.
Qed.

Lemma chunk_matches_true (h : block_header_type) (c : chunk_list_type) :
  chunk_matches h c = true ->
  has (flags h) (Z.lnot BFLAG_FILL) = false
  /\ (has (flags h) BFLAG_FILL = true -> byte_count h <= CUSTOMIZE_SMALLEST_FILL_BLOCK)
  /\ has (c_flags c) BFLAG_FILL = false
  /\ c_address c <= target_address h <= wrap32 (c_address c + c_length c).
Proof.
  unfold chunk_matches.
  destruct (has (flags h) (Z.lnot BFLAG_FILL)); [discriminate|].
  destruct (has (flags h) BFLAG_FILL); cbn [andb].
  - destruct (_ <? _) eqn:E; [discriminate|]. apply Z.ltb_ge in E.
    destruct (has (c_flags c) BFLAG_FILL); [discriminate|].
    intros H. apply andb_prop in H. rewrite !Z.leb_le in H. auto.
  - destruct (has (c_flags c) BFLAG_FILL); [discriminate|].
    intros H. apply andb_prop in H. rewrite !Z.leb_le in H.
    repeat split; try tauto. discriminate.
Qed.

(** What [find_or_create] returns, in both cases. *)
Lemma find_or_create_spec (h : block_header_type) (l : list chunk_list_type) :
  forall before c after, find_or_create h l = (before, c, after) ->
  Forall (fun c' => chunk_matches h c' = false) before
  /\ ((l = before ++ c :: after /\ chunk_matches h c = true)
      \/ (l = before /\ c = new_chunk h /\ after = [])).
Proof.
  intros before c after. unfold find_or_create.
  destruct (scan_spec h l) as (H1 & H2 & H3).
  destruct (scan h l) as [passed rest]. cbn [fst snd] in *.
  destruct rest as [|c0 next]; intros [= <- <- <-]; split; try assumption.
  - right. rewrite app_nil_r in H1. auto.
  - left. auto.
Qed.

(** ** The write leaves the rest of the state alone *)

Section Frame.

Variable junk : nat -> Z.

Lemma extend_frame (st : state) (c : chunk_list_type) :
  let st' := fst (extend junk st c) in
  output st' = output st /\ chunk_list st' = chunk_list st
  /\ settings st' = settings st
  /\ (exists k, input st' = skipn k (input st))
  /\ (exists w, trace st' = trace st ++ w /\ written w = [] /\ Forall event_ok w)
  /\ hdr st' = set_byte_count (hdr st) (byte_count (hdr st'))
  /\ (0 <= byte_count (hdr st) -> 0 <= byte_count (hdr st') <= byte_count (hdr st)).
Proof.
  assert (Hh : forall h : block_header_type, h = set_byte_count h (byte_count h))
    by (intros []; reflexivity).
  assert (Hnil : exists w : list event,
             trace st = trace st ++ w /\ written w = [] /\ Forall event_ok w)
    by (exists []; rewrite app_nil_r; auto).
  assert (Hin : exists k, input st = skipn k (input st)) by (exists 0%nat; reflexivity).
  unfold extend.
  destruct (_ <? _).
  - destruct (has (flags (hdr st)) BFLAG_FILL).
    + destruct (negb _).
      * cbn [realloc].
        match goal with
        | |- context [fill_loop ?f ?b ?p ?a ?n] =>
            pose proof (fill_loop_count f b p a n) as Hc;
            destruct (fill_loop f b p a n) as [buf count]
        end.
        cbn [snd] in Hc. simpl_state.
        cbn [set_byte_count byte_count bcode flags hdrchk hdrsign target_address argument].
        repeat apply conj; auto; try lia.
      * simpl_state. repeat apply conj; auto; lia.
    + cbn [realloc fread]. simpl_state. repeat apply conj; auto; try lia.
      eexists; reflexivity.
  - destruct (_ =? 0); simpl_state; repeat apply conj; auto; try lia.
    eexists; split; [reflexivity|]. split; [reflexivity|repeat constructor].
Qed.

Lemma extend_chunk_fields (st : state) (c : chunk_list_type) :
  let c' := snd (extend junk st c) in
  c_address c' = c_address c /\ c_argument c' = c_argument c /\ c_flags c' = c_flags c.
Proof.
  unfold extend.
  destruct (_ <? _); [|cbn; auto].
  destruct (has (flags (hdr st)) BFLAG_FILL).
  - destruct (negb _); [|cbn; auto].
    destruct (realloc _ _ _ _). destruct (fill_loop _ _ _ _ _). cbn; auto.
  - destruct (realloc _ _ _ _). destruct (fread _ _). cbn; auto.
Qed.

End Frame.

(** ** The output file is appended to *)

Lemma write_header_app (handle : list Z) (h : block_header_type) :
  write_header handle h = (handle ++ header_bytes (with_checksum h), with_checksum h).
Proof. reflexivity. Qed.

Lemma write_chunks_app (handle : list Z) (h : block_header_type)
    (l : list chunk_list_type) :
  write_chunks handle h l = handle ++ write_chunks [] h l.
Proof.
  revert handle h. induction l as [|c l IH]; intros handle h; cbn [write_chunks].
  - now rewrite app_nil_r.
  - rewrite !write_header_app. cbn [app].
    set (hb := header_bytes _). set (hc := with_checksum _).
    destruct (c_data c) as [buf|]; unfold fwrite.
    + rewrite IH, (IH (hb ++ _)), !app_assoc. reflexivity.
    + rewrite IH, (IH hb), !app_assoc. reflexivity.
Qed.

Lemma write_image_app (handle : list Z) (l : list chunk_list_type)
    (s : image_settings_type) :
  write_image handle l s = handle ++ write_image [] l s.
Proof.
  unfold write_image. rewrite !write_header_app. cbn [app].
  set (hb := header_bytes _).
  rewrite write_chunks_app, (write_chunks_app hb), app_assoc.
  reflexivity.
Qed.

Lemma trace_bytes_app (t w : list event) :
  trace_bytes (t ++ w) = trace_bytes t ++ trace_bytes w.
Proof.
  induction t as [|[chunks s|a b] t IH]; cbn [app trace_bytes]; [reflexivity| |exact IH].
  now rewrite IH, app_assoc.
Qed.

Lemma written_app (t w : list event) : written (t ++ w) = written t ++ written w.
Proof.
  induction t as [|[chunks s|a b] t IH]; cbn [app written]; [reflexivity| |exact IH].
  now rewrite IH.
Qed.

Lemma trace_bytes_warnings (w : list event) : written w = [] -> trace_bytes w = [].
Proof.
  induction w as [|[chunks s|a b] w IH]; cbn [written trace_bytes];
    [reflexivity|discriminate|exact IH].
Qed.

(** ** The invariant of the loop *)

Lemma has_mono (x m m' : Z) :
  Z.land m m' = m' -> has x m' = true -> has x m = true.
Proof.
  unfold has. intros Hm H. apply negb_true_iff, Z.eqb_neq in H.
  apply negb_true_iff, Z.eqb_neq. intros E. apply H.
  rewrite <- Hm, Z.land_assoc, E. reflexivity.
Qed.

Lemma bytes_ok_skipn (k : nat) (l : list Z) : bytes_ok l -> bytes_ok (skipn k l).
Proof.
  unfold bytes_ok. intros H. rewrite <- (firstn_skipn k l) in H.
  apply Forall_app in H. tauto.
Qed.

Lemma bytes_ok_firstn (k : nat) (l : list Z) : bytes_ok l -> bytes_ok (firstn k l).
Proof.
  unfold bytes_ok. intros H. rewrite <- (firstn_skipn k l) in H.
  apply Forall_app in H. tauto.
Qed.

Lemma header_ok_set_byte_count (h : block_header_type) (n : Z) :
  header_ok h -> word_ok n -> header_ok (set_byte_count h n).
Proof. intros [] Hn. constructor; assumption. Qed.

Lemma new_chunk_ok (h : block_header_type) :
  header_ok h ->
  has (flags h) BFLAG_FIRST = false -> has (flags h) BFLAG_FINAL = false ->
  has (flags h) BFLAG_IGNORE = false ->
  chunk_ok (new_chunk h).
Proof.
  intros [] H1 H2 H3. unfold word_ok in *.
  constructor; cbn [new_chunk c_address c_argument c_data c_length c_flags];
    try assumption; try lia.
Qed.

Lemma removelast_snoc {A : Type} (l : list A) (x : A) : removelast (l ++ [x]) = l.
Proof. apply removelast_last. Qed.

Lemma Forall_removelast {A : Type} (P : A -> Prop) (l : list A) :
  Forall P l -> Forall P (removelast l).
Proof.
  induction 1 as [|x l Hx Hl IH]; cbn [removelast]; [constructor|].
  destruct l; [constructor|]. constructor; assumption.
Qed.

Section Invariant.

Variable junk : nat -> Z.

Lemma merge_ok (st : state) :
  state_ok st ->
  has (flags (hdr st)) BFLAG_FIRST = false ->
  has (flags (hdr st)) BFLAG_FINAL = false ->
  has (flags (hdr st)) BFLAG_IGNORE = false ->
  let st' := merge junk st in
  bytes_ok (input st') /\ settings st' = settings st
  /\ header_ok (hdr st') /\ flags (hdr st') = flags (hdr st)
  /\ Forall chunk_ok (chunk_list st') /\ chunk_list st' <> []
  /\ Forall no_init (removelast (chunk_list st'))
  /\ (has (flags (hdr st)) BFLAG_INIT = false -> Forall no_init (chunk_list st'))
  /\ output st' = output st
  /\ (exists w, trace st' = trace st ++ w /\ written w = [] /\ Forall event_ok w).
Proof.
  intros [Hi Hs Hh Hc Hn Ht Ho] F1 F2 F3. unfold merge.
  destruct (find_or_create (hdr st) (chunk_list st)) as [[before c] after] eqn:Hf.
  apply find_or_create_spec in Hf. destruct Hf as (Hb & Hcase).
  assert (Hpre : extend_pre (hdr st) c
                 /\ Forall chunk_ok before /\ Forall chunk_ok after
                 /\ Forall no_init before
                 /\ (has (flags (hdr st)) BFLAG_INIT = false ->
                     no_init c /\ Forall no_init after)
                 /\ (has (flags (hdr st)) BFLAG_INIT = true -> after = [])).
  { destruct Hcase as [(Hl & Hm) | (Hl & Hc0 & Ha)].
    - rewrite Hl in Hc, Hn.
      apply Forall_app in Hc. destruct Hc as (Hc1 & Hc2).
      apply Forall_cons_iff in Hc2. destruct Hc2 as (Hc2 & Hc3).
      apply Forall_app in Hn. destruct Hn as (Hn1 & Hn2).
      apply Forall_cons_iff in Hn2. destruct Hn2 as (Hn2 & Hn3).
      apply chunk_matches_true in Hm. destruct Hm as (M1 & M2 & M3 & M4).
      assert (M5 : has (flags (hdr st)) BFLAG_INIT = true -> after = []).
      { intros E. apply (has_mono _ (Z.lnot BFLAG_FILL)) in E; [congruence|reflexivity]. }
      assert (M6 : in_closed_range c (target_address (hdr st))).
      { unfold in_closed_range. destruct Hc2 as [Ha _ Hlen He _ _ _ _ _].
        unfold word_ok in Ha. rewrite wrap32_small in M4 by lia. exact M4. }
      unfold extend_pre. intuition congruence.
    - subst before c after.
      assert (M6 : in_closed_range (new_chunk (hdr st)) (target_address (hdr st))).
      { unfold in_closed_range. cbn. lia. }
      pose proof (new_chunk_ok _ Hh F1 F2 F3).
      unfold extend_pre, no_init. cbn [new_chunk c_flags]. intuition. }
  destruct Hpre as (Hpre & Hcb & Hca & Hnb & Hni & Hia).
  pose proof (extend_chunk_ok junk st c Hpre) as Hc1.
  pose proof (extend_frame junk st c) as Hfr.
  pose proof (extend_chunk_fields junk st c) as Hcf.
  destruct (extend junk st c) as [st1 c1]. cbn [fst snd] in *.
  destruct Hfr as (Fo & Fl & Fs & (k & Fi) & Fw & Fh & Fc).
  destruct Hcf as (_ & _ & Hflags).
  destruct Hh as [Hh1 Hh2 Hh3 Hh4 Hh5 Hh6 Hh7].
  simpl_state. repeat apply conj; try assumption.
  - rewrite Fi. apply bytes_ok_skipn. exact Hi.
  - rewrite Fh. apply header_ok_set_byte_count; [constructor; assumption|].
    unfold word_ok in *. lia.
  - rewrite Fh. reflexivity.
  - apply Forall_app. split; [assumption|]. constructor; assumption.
  - destruct before; discriminate.
  - destruct (has (flags (hdr st)) BFLAG_INIT) eqn:Ei.
    + rewrite (Hia eq_refl). rewrite removelast_snoc. exact Hnb.
    + apply Forall_removelast, Forall_app. split; [assumption|].
      destruct (Hni eq_refl) as (N1 & N2). constructor; [|assumption].
      unfold no_init in *. congruence.
  - intros Ei. apply Forall_app. split; [assumption|].
    destruct (Hni Ei) as (N1 & N2). constructor; [|assumption].
    unfold no_init in *. congruence.
Qed.

Lemma flush_ok (st : state) :
  bytes_ok (input st) -> settings_ok (settings st) -> header_ok (hdr st) ->
  Forall chunk_ok (chunk_list st) ->
  Forall no_init (removelast (chunk_list st)) ->
  Forall event_ok (trace st) ->
  output st = trace_bytes (trace st) ->
  state_ok (flush st).
Proof.
  intros Hi Hs Hh Hc Hn Ht Ho. unfold flush.
  destruct (chunk_list st) as [|c l] eqn:El.
  - constructor; try assumption; rewrite El; constructor.
  - constructor; simpl_state; try assumption; try constructor.
    + apply Forall_app. split; [assumption|]. constructor; [|constructor].
      cbn [event_ok]. repeat apply conj; try assumption. discriminate.
    + rewrite write_image_app, trace_bytes_app, Ho. cbn [trace_bytes].
      now rewrite app_nil_r.
Qed.

Lemma flush_fields (st : state) :
  input (flush st) = input st /\ settings (flush st) = settings st
  /\ hdr (flush st) = hdr st /\ fresh (flush st) = fresh st.
Proof. unfold flush. destruct (chunk_list st); auto. Qed.

Lemma state_ok_flush (st : state) : state_ok st -> state_ok (flush st).
Proof.
  intros []. apply flush_ok; try assumption. now apply Forall_removelast.
Qed.

(** One iteration keeps the invariant, however the iteration ends. *)
Lemma step_ok (st : state) :
  state_ok st ->
  match step junk st with
  | Next st' | Leave st' | Fail st' => state_ok st'
  end.
Proof.
  intros Hst. pose proof Hst as [Hi Hs Hh Hc Hn Ht Ho]. unfold step.
  destruct (16 <=? length (input st))%nat eqn:Hlen.
  - apply Nat.leb_le in Hlen.
    set (st1 := read_header st).
    assert (H1 : state_ok st1).
    { constructor; unfold st1, read_header; simpl_state; try assumption.
      - apply bytes_ok_skipn. exact Hi.
      - apply header_of_bytes_ok.
        + rewrite length_firstn. lia.
        + apply bytes_ok_firstn. exact Hi. }
    destruct (calc_header_checksum (hdr st1) =? 0); [|exact H1].
    unfold process.
    set (st2 := if has _ (Z.lor _ _) then flush st1 else st1).
    assert (H2 : state_ok st2).
    { unfold st2. destruct (has _ _); [apply state_ok_flush|]; exact H1. }
    assert (E2 : hdr st2 = hdr st1).
    { unfold st2. destruct (has _ _); [apply flush_fields|reflexivity]. }
    destruct (has (flags (hdr st1)) BFLAG_FINAL) eqn:F2; [exact H2|].
    destruct (has (flags (hdr st1)) BFLAG_FIRST) eqn:F1.
    { destruct H2 as [Hi2 Hs2 Hh2 Hc2 Hn2 Ht2 Ho2].
      constructor; simpl_state; try assumption.
      destruct Hh2 as [B1 B2 B3 B4 B5 B6 B7].
      constructor; cbn [capture s_hdrsign s_bcode entry_point]; try assumption.
      unfold byte_ok. lia. }
    destruct (has (flags (hdr st1)) BFLAG_IGNORE) eqn:F3.
    { destruct H2 as [Hi2 Hs2 Hh2 Hc2 Hn2 Ht2 Ho2].
      constructor; simpl_state; try assumption.
      apply bytes_ok_skipn. exact Hi2. }
    rewrite <- E2 in F1, F2, F3.
    pose proof (merge_ok st2 H2 F1 F2 F3) as Hm. cbn zeta in Hm.
    destruct H2 as [Hi2 Hs2 Hh2 Hc2 Hn2 Ht2 Ho2].
    destruct Hm as (M1 & M2 & M3 & M4 & M5 & M6 & M7 & M8 & M9 & (w & M10 & M11 & M12)).
    assert (Ht3 : Forall event_ok (trace (merge junk st2))).
    { rewrite M10. apply Forall_app. split; assumption. }
    assert (Ho3 : output (merge junk st2) = trace_bytes (trace (merge junk st2))).
    { rewrite M9, M10, trace_bytes_app, (trace_bytes_warnings w M11), app_nil_r.
      exact Ho2. }
    rewrite <- E2.
    destruct (has (flags (hdr st2)) BFLAG_INIT) eqn:F4.
    + apply flush_ok; try assumption. rewrite M2. exact Hs2.
    + constructor; try assumption; [rewrite M2; exact Hs2|auto].
  - apply Nat.leb_gt in Hlen.
    constructor; simpl_state; try assumption; [constructor|].
    apply header_of_bytes_ok.
    + rewrite length_app, length_skipn, length_header_bytes. lia.
    + apply Forall_app. split; [exact Hi|].
      apply bytes_ok_skipn, header_bytes_ok.
Qed.

Lemma initial_ok (settings0 : image_settings_type) (hdr0 : block_header_type)
    (file : list Z) :
  bytes_ok file -> settings_ok settings0 -> header_ok hdr0 ->
  state_ok (initial settings0 hdr0 file).
Proof. intros. constructor; cbn; auto. Qed.

Lemma steps_ok (n : nat) (st st' : state) :
  state_ok st -> steps junk n st = Some st' -> state_ok st'.
Proof.
  revert st. induction n as [|n IH]; intros st Hst; cbn [steps].
  - now intros [= <-].
  - pose proof (step_ok st Hst) as Hs.
    destruct (step junk st); try discriminate. apply IH. exact Hs.
Qed.

End Invariant.

(** ** Reading a header *)

Lemma skipn_nth {A : Type} (d : A) (i : nat) (l : list A) :
  (i < length l)%nat -> skipn i l = nth i l d :: skipn (S i) l.
Proof.
  revert l. induction i as [|i IH]; intros [|x l] H; cbn [length] in H; try lia.
  - reflexivity.
  - cbn [skipn nth]. rewrite IH by lia. reflexivity.
Qed.

Lemma firstn_exact {A : Type} (l1 l2 : list A) (n : nat) :
  length l1 = n -> firstn n (l1 ++ l2) = l1.
Proof.
  intros <-. rewrite firstn_app, Nat.sub_diag, firstn_all. cbn. apply app_nil_r.
Qed.

Lemma skipn_exact {A : Type} (l1 l2 : list A) (n : nat) :
  length l1 = n -> skipn n (l1 ++ l2) = l2.
Proof.
  intros <-. rewrite skipn_app, Nat.sub_diag, skipn_all. reflexivity.
Qed.

Section Reading.

Variable junk : nat -> Z.

Lemma read_header_eq (st : state) (raw rest : list Z) :
  input st = raw ++ rest -> length raw = 16%nat ->
  read_header st = set_hdr (set_input st rest) (header_of_bytes raw).
Proof.
  intros Hin Hlen. unfold read_header.
  now rewrite Hin, firstn_exact, skipn_exact.
Qed.

Lemma step_header (st : state) (raw rest : list Z) :
  input st = raw ++ rest -> length raw = 16%nat -> bytes_ok raw ->
  step junk st
  = if xor_bytes raw =? 0 then process junk (read_header st) else Fail (read_header st).
Proof.
  intros Hin Hlen Hok. unfold step.
  assert (Hl : (16 <=? length (input st))%nat = true).
  { apply Nat.leb_le. rewrite Hin, length_app. lia. }
  rewrite Hl. cbv zeta.
  rewrite (read_header_eq st raw rest Hin Hlen) at 1.
  simpl_state. rewrite calc_header_checksum_of_bytes by assumption. reflexivity.
Qed.

End Reading.

(** ** One flipped bit *)

Lemma lxor_flip (a x p b : Z) :
  Z.lxor a (Z.lxor (Z.lxor x p) b) = Z.lxor p (Z.lxor a (Z.lxor x b)).
Proof.
  apply Z.bits_inj'. intros n _. rewrite !Z.lxor_spec.
  destruct (Z.testbit a n), (Z.testbit x n), (Z.testbit p n), (Z.testbit b n);
    reflexivity.
Qed.

Lemma xor_bytes_flip_bit (raw : list Z) (i : nat) (k : Z) :
  (i < length raw)%nat ->
  xor_bytes (flip_bit raw i k) = Z.lxor (2 ^ k) (xor_bytes raw).
Proof.
  intros Hi. unfold flip_bit.
  rewrite <- (firstn_skipn i raw) at 4.
  rewrite (skipn_nth 0 i raw Hi).
  rewrite !xor_bytes_app, !xor_bytes_cons. apply lxor_flip.
Qed.

Lemma flip_bit_ok (raw : list Z) (i : nat) (k : Z) :
  (i < length raw)%nat -> 0 <= k < 8 -> bytes_ok raw ->
  length (flip_bit raw i k) = length raw /\ bytes_ok (flip_bit raw i k).
Proof.
  intros Hi Hk Hok. unfold flip_bit. split.
  - rewrite length_app, length_firstn. cbn [length]. rewrite length_skipn. lia.
  - apply Forall_app. split; [apply bytes_ok_firstn; exact Hok|].
    constructor; [|apply bytes_ok_skipn; exact Hok].
    apply lxor_byte_ok.
    + unfold bytes_ok in Hok. rewrite Forall_forall in Hok. apply Hok, nth_In, Hi.
    + unfold byte_ok. split; [apply Z.pow_nonneg; lia|].
      change 256 with (2 ^ 8). apply Z.pow_lt_mono_r; lia.
Qed.

Lemma bad_checksum_aborts
    (junk : nat -> Z) (settings0 : image_settings_type) (hdr0 : block_header_type)
    (file : list Z) (n : nat) (st : state) (raw rest : list Z) :
  steps junk n (initial settings0 hdr0 file) = Some st ->
  input st = raw ++ rest -> length raw = 16%nat -> bytes_ok raw ->
  xor_bytes raw <> 0 ->
  main junk settings0 hdr0 file = Some (mk_result (-1) (output st) (trace st)).
Proof.
  intros Hsteps Hin Hlen Hok Hxor.
  rewrite (main_steps junk _ _ _ _ _ Hsteps). cbn [loop].
  rewrite (step_header junk st raw rest Hin Hlen Hok).
  apply Z.eqb_neq in Hxor. rewrite Hxor.
  rewrite (read_header_eq st raw rest Hin Hlen). reflexivity.
Qed.

(** C6. When the loop of [main] reads a header whose 16 bytes XOR to a
    nonzero value, [main] returns -1 and the output file is what it was
    before the header was read; this is what happens when the header is
    a header whose bytes XOR to zero with any one bit of any of its 16
    bytes inverted. *)
Theorem checksum_failure_aborts
    (junk : nat -> Z) (settings0 : image_settings_type) (hdr0 : block_header_type)
    (file : list Z) (n : nat) (st : state) (raw rest : list Z) :
  steps junk n (initial settings0 hdr0 file) = Some st ->
  length raw = 16%nat -> bytes_ok raw ->
  (input st = raw ++ rest -> xor_bytes raw <> 0 ->
   main junk settings0 hdr0 file = Some (mk_result (-1) (output st) (trace st)))
  /\ (forall (i : nat) (k : Z),
        xor_bytes raw = 0 -> (i < 16)%nat -> 0 <= k < 8 ->
        input st = flip_bit raw i k ++ rest ->
        main junk settings0 hdr0 file = Some (mk_result (-1) (output st) (trace st))).
Proof.
  intros Hsteps Hlen Hok. split.
  - intros Hin Hxor. eapply bad_checksum_aborts; eassumption.
  - intros i k Hxor Hi Hk Hin.
    destruct (flip_bit_ok raw i k) as (H1 & H2); try assumption; try lia.
    eapply bad_checksum_aborts; try eassumption; [lia|].
    rewrite xor_bytes_flip_bit, Hxor, Z.lxor_0_r by lia.
    apply Z.pow_nonzero; lia.
Qed.

Lemma checksum_failure_aborts_witness :
  main (fun _ => 0) (mk_settings 0 0 0) (mk_header 0 0 0 0 0 0 0)
       (block BFLAG_FIRST 0x1234 0 0
        ++ flip_bit (block BFLAG_FILL 0x2000 64 0xFFFFFFFF) 2 7 ++ [1; 2; 3])
  = Some (mk_result (-1) [] []).
Proof.
  destruct (checksum_failure_aborts (fun _ => 0) (mk_settings 0 0 0)
              (mk_header 0 0 0 0 0 0 0)
              (block BFLAG_FIRST 0x1234 0 0
               ++ flip_bit (block BFLAG_FILL 0x2000 64 0xFFFFFFFF) 2 7 ++ [1; 2; 3])
              1%nat
              (mk_state (flip_bit (block BFLAG_FILL 0x2000 64 0xFFFFFFFF) 2 7
                         ++ [1; 2; 3])
                        [] [] (mk_settings 0xAD 10 0x1234)
                        (header_of_bytes (block BFLAG_FIRST 0x1234 0 0)) 0 [])
              (block BFLAG_FILL 0x2000 64 0xFFFFFFFF) [1; 2; 3])
    as [_ H].
  - reflexivity.
  - reflexivity.
  - vm_compute. repeat constructor; discriminate.
  - apply (H 2%nat 7).
    + reflexivity.
    + lia.
    + lia.
    + reflexivity.
Defined.

Section Termination.

Variable junk : nat -> Z.

Lemma step_short (st : state) :
  (length (input st) < 16)%nat ->
  step junk st
  = Leave (set_hdr (set_input st [])
             (header_of_bytes
                (input st ++ skipn (length (input st)) (header_bytes (hdr st))))).
Proof.
  intros H. unfold step. apply Nat.leb_gt in H. now rewrite H.
Qed.

End Termination.

Lemma header_of_with_checksum (h : block_header_type) :
  header_ok h ->
  let h' := header_of_bytes (header_bytes (with_checksum h)) in
  bcode h' = bcode h /\ flags h' = flags h /\ hdrsign h' = hdrsign h
  /\ target_address h' = target_address h /\ byte_count h' = byte_count h
  /\ argument h' = argument h.
Proof.
  intros Hh. cbv zeta. rewrite header_of_bytes_of_header.
  - unfold with_checksum, write_header.
    cbn [snd set_hdrchk bcode flags hdrchk hdrsign target_address byte_count argument].
    repeat apply conj; reflexivity.
  - destruct Hh. unfold with_checksum, write_header.
    constructor; cbn [snd set_hdrchk bcode flags hdrchk hdrsign target_address
                      byte_count argument]; try assumption.
    apply Z.mod_pos_bound. lia.
Qed.

(** C10. When the input file ends (fewer than 16 bytes are left when a
    header is to be read) the loop is left without a call of
    [write_image]: [main] returns 0, its trace is the trace so far, and
    the output file is the output so far followed by one 16-byte header
    with a zero XOR, flags = FINAL, target address = the entry point in
    [settings], byte count 0 and argument 0. The chunks in the list are
    not written. *)
Theorem end_of_file_drops_pending_chunks
    (junk : nat -> Z) (settings0 : image_settings_type) (hdr0 : block_header_type)
    (file : list Z) (n : nat) (st : state) :
  bytes_ok file -> settings_ok settings0 -> header_ok hdr0 ->
  steps junk n (initial settings0 hdr0 file) = Some st ->
  (length (input st) < 16)%nat ->
  exists raw,
    main junk settings0 hdr0 file
    = Some (mk_result 0 (output st ++ raw) (trace st))
    /\ length raw = 16%nat /\ xor_bytes raw = 0
    /\ flags (header_of_bytes raw) = BFLAG_FINAL
    /\ target_address (header_of_bytes raw) = entry_point (settings st)
    /\ byte_count (header_of_bytes raw) = 0
    /\ argument (header_of_bytes raw) = 0.
Proof.
  intros Hfile Hs0 Hh0 Hsteps Hshort.
  pose proof (steps_ok junk n _ _ (initial_ok _ _ _ Hfile Hs0 Hh0) Hsteps) as Hst.
  pose proof (step_ok junk st Hst) as Hst'.
  rewrite (main_steps junk _ _ _ _ _ Hsteps). cbn [loop].
  rewrite (step_short junk st Hshort) in *.
  set (st' := set_hdr _ _) in *.
  unfold finish. rewrite write_header_app.
  set (h := set_block _ _ _ _ _).
  assert (Hh : header_ok h).
  { destruct Hst' as [_ [_ _ He] [B1 B2 B3 B4 B5 B6 B7] _ _ _ _].
    unfold h, word_ok in *.
    constructor; cbn [set_block bcode flags hdrchk hdrsign target_address
                      byte_count argument]; unfold word_ok; try assumption; try lia.
    apply Z.mod_pos_bound. lia. }
  destruct (header_of_with_checksum h Hh) as (_ & H2 & _ & H4 & H5 & H6).
  destruct (write_header_checksum [] h) as (raw & Hraw & Hl & _ & Hx).
  exists (header_bytes (with_checksum h)).
  rewrite write_header_app in Hraw. cbn [fst app] in Hraw. rewrite <- Hraw in Hl, Hx.
  repeat apply conj; try assumption; reflexivity.
Qed.

Lemma end_of_file_drops_pending_chunks_witness :
  exists raw,
    main (fun _ => 0) (mk_settings 0 0 0) (mk_header 0 0 0 0 0 0 0)
         (block BFLAG_FIRST 0x1234 0 0 ++ block 0 0x1000 4 0 ++ [1; 2; 3; 4])
    = Some (mk_result 0 ([] ++ raw) [])
    /\ length raw = 16%nat /\ xor_bytes raw = 0
    /\ flags (header_of_bytes raw) = BFLAG_FINAL
    /\ target_address (header_of_bytes raw) = 0x1234
    /\ byte_count (header_of_bytes raw) = 0
    /\ argument (header_of_bytes raw) = 0.
Proof.
  apply (end_of_file_drops_pending_chunks (fun _ => 0) (mk_settings 0 0 0)
           (mk_header 0 0 0 0 0 0 0)
           (block BFLAG_FIRST 0x1234 0 0 ++ block 0 0x1000 4 0 ++ [1; 2; 3; 4]) 2%nat
           (mk_state [] [] [mk_chunk 0x1000 0 (Some [1; 2; 3; 4]) 4 0]
              (mk_settings 0xAD 10 0x1234) (mk_header 10 0 179 0xAD 0x1000 4 0) 4 [])).
  - vm_compute. repeat constructor; discriminate.
  - solve_fields_ok.
  - solve_fields_ok.
  - reflexivity.
  - cbn. lia.
Defined.

(** C7, as the code has it. A header with FIRST set and FINAL clear,
    whatever its other flags: the chunk list, when it is not empty, is
    written with the settings held until then; the entry point, the
    signature and the bcode of the header become the settings; nothing
    but the 16 bytes of the header is consumed; the loop goes round
    again. *)
Theorem first_block_captures_settings
    (junk : nat -> Z) (st : state) (raw rest : list Z) :
  input st = raw ++ rest -> length raw = 16%nat -> bytes_ok raw ->
  xor_bytes raw = 0 ->
  has (flags (header_of_bytes raw)) BFLAG_FIRST = true ->
  has (flags (header_of_bytes raw)) BFLAG_FINAL = false ->
  exists st',
    step junk st = Next st'
    /\ input st' = rest
    /\ settings st' = capture (header_of_bytes raw)
    /\ entry_point (settings st') = target_address (header_of_bytes raw)
    /\ chunk_list st' = []
    /\ output st' = match chunk_list st with
                    | [] => output st
                    | _ :: _ => write_image (output st) (chunk_list st) (settings st)
                    end
    /\ trace st' = match chunk_list st with
                   | [] => trace st
                   | _ :: _ => trace st ++ [Written (chunk_list st) (settings st)]
                   end.
Proof.
  intros Hin Hlen Hok Hxor Hfirst Hfinal.
  rewrite (step_header junk st raw rest Hin Hlen Hok), Hxor. cbn [Z.eqb].
  rewrite (read_header_eq st raw rest Hin Hlen).
  unfold process. simpl_state.
  rewrite has_lor, Hfirst, Hfinal. cbn [orb].
  eexists. split; [reflexivity|].
  unfold flush. simpl_state.
  destruct (chunk_list st) eqn:El; simpl_state; rewrite ?El; repeat apply conj; reflexivity.
Qed.

Lemma first_block_captures_settings_witness :
  exists st',
    step (fun _ => 0)
         (initial (mk_settings 0 0 0) (mk_header 0 0 0 0 0 0 0)
                  (block (Z.lor BFLAG_FIRST BFLAG_IGNORE) 0x1234 0 48 ++ [1; 2]))
    = Next st'
    /\ input st' = [1; 2]
    /\ settings st' = mk_settings 0xAD 10 0x1234.
Proof.
  destruct (first_block_captures_settings (fun _ => 0)
              (initial (mk_settings 0 0 0) (mk_header 0 0 0 0 0 0 0)
                       (block (Z.lor BFLAG_FIRST BFLAG_IGNORE) 0x1234 0 48 ++ [1; 2]))
              (block (Z.lor BFLAG_FIRST BFLAG_IGNORE) 0x1234 0 48) [1; 2])
    as (st' & H1 & H2 & H3 & _).
  - reflexivity.
  - reflexivity.
  - vm_compute. repeat constructor; discriminate.
  - reflexivity.
  - reflexivity.
  - reflexivity.
  - exists st'. repeat apply conj; assumption.
Defined.

(** C7 as the spec states it fails: a header with FIRST and FINAL set
    ends the loop, and the settings are not taken from it. *)
Lemma first_with_final_ends_the_loop :
  let st := initial (mk_settings 0 0 0) (mk_header 0 0 0 0 0 0 0)
                    (block (Z.lor BFLAG_FIRST BFLAG_FINAL) 0x1234 0 0
                     ++ block 0 0x1000 4 0 ++ [1; 2; 3; 4]) in
  let h := header_of_bytes (firstn 16 (input st)) in
  xor_bytes (firstn 16 (input st)) = 0
  /\ has (flags h) BFLAG_FIRST = true
  /\ ~ (exists st', step (fun _ => 0) st = Next st' /\ settings st' = capture h).
Proof.
  cbv zeta. repeat apply conj; try reflexivity.
  intros (st' & H & _). vm_compute in H. discriminate H.
Qed.

(** ** [write_image] *)

Lemma wrap32_add_l (a b : Z) : wrap32 (wrap32 a + b) = wrap32 (a + b).
Proof. unfold wrap32. apply Z.add_mod_idemp_l. lia. Qed.

Lemma image_position_sum (l : list chunk_list_type) (p : Z) :
  image_position l (wrap32 p) = wrap32 (p + fold_right Z.add 0 (map chunk_size l)).
Proof.
  revert p. induction l as [|c l IH]; intros p; cbn [image_position map fold_right].
  - now rewrite Z.add_0_r.
  - unfold chunk_size at 1. destruct (c_data c) as [buf|].
    + rewrite !wrap32_add_l, IH. unfold sizeof_header.
      rewrite <- (wrap32_add_l p). f_equal. lia.
    + rewrite IH. unfold sizeof_header.
      rewrite <- (wrap32_add_l p). f_equal. lia.
Qed.

Lemma with_checksum_hdrchk (h h' : block_header_type) :
  set_hdrchk h 0 = set_hdrchk h' 0 -> with_checksum h = with_checksum h'.
Proof.
  unfold with_checksum, write_header; cbn [snd]. now intros ->.
Qed.

Lemma write_chunks_blocks (s : image_settings_type) (l : list chunk_list_type)
    (h : block_header_type) :
  Forall chunk_sized l ->
  bcode h = s_bcode s mod 16 -> hdrsign h = s_hdrsign s mod 256 ->
  write_chunks [] h l = concat (map (chunk_block s) l).
Proof.
  revert h. induction l as [|c l IH]; intros h Hl Hb Hs; [reflexivity|].
  apply Forall_cons_iff in Hl. destruct Hl as (Hc & Hl).
  cbn [write_chunks map concat]. rewrite write_header_app. cbn [app].
  assert (E : with_checksum (set_block h (c_flags c) (c_argument c) (c_length c)
                                       (c_address c))
              = with_checksum (chunk_header s c)).
  { apply with_checksum_hdrchk. unfold set_hdrchk, set_block, chunk_header.
    cbn [bcode flags hdrchk hdrsign target_address byte_count argument].
    now rewrite Hb, Hs. }
  rewrite E. unfold chunk_block, chunk_sized in *.
  destruct (c_data c) as [buf|].
  - unfold fwrite. rewrite <- (Hc buf eq_refl), firstn_all.
    rewrite write_chunks_app, IH; try assumption.
    + reflexivity.
    + reflexivity.
    + reflexivity.
  - rewrite write_chunks_app, IH; try assumption.
    + now rewrite app_nil_r.
    + reflexivity.
    + reflexivity.
Qed.

Lemma write_image_blocks
    (handle : list Z) (chunks : list chunk_list_type) (s : image_settings_type) :
  Forall chunk_sized chunks ->
  write_image handle chunks s
  = handle
    ++ header_bytes
         (with_checksum
            (mk_header (s_bcode s mod 16) (Z.lor BFLAG_IGNORE BFLAG_FIRST) 0
                       (s_hdrsign s mod 256) (entry_point s) 0
                       (wrap32 (image_size chunks))))
    ++ concat (map (chunk_block s) chunks).
Proof.
  intros Hl. rewrite write_image_app. f_equal.
  unfold write_image. rewrite write_header_app. cbn [app].
  rewrite write_chunks_app. f_equal.
  - unfold image_header, image_size.
    change sizeof_header with (wrap32 16) at 1. rewrite image_position_sum.
    reflexivity.
  - apply write_chunks_blocks; [exact Hl|reflexivity|reflexivity].
Qed.

Lemma image_size_nonneg (chunks : list chunk_list_type) :
  Forall (fun c => 0 <= c_length c) chunks -> 0 <= image_size chunks.
Proof.
  unfold image_size, sizeof_header.
  induction 1 as [|c l Hc _ IH]; cbn [map fold_right]; [lia|].
  unfold chunk_size at 1, sizeof_header. destruct (c_data c); lia.
Qed.

(** C9. [write_image] appends to the output file: first a header with
    flags = IGNORE|FIRST, the signature and the bcode of the settings,
    target address = the entry point, byte count 0 (no payload follows)
    and argument = the total image size, computed in 32 bits; then, for
    each chunk in list order, a header with the flags, argument, length
    and address of the chunk, followed by the data buffer exactly when
    the chunk has one. Every header carries its checksum. The 32-bit size
    is the total image size of the spec whenever that is below 2^32. *)
Theorem write_image_layout
    (handle : list Z) (chunks : list chunk_list_type) (s : image_settings_type) :
  Forall chunk_sized chunks ->
  write_image handle chunks s
  = handle
    ++ header_bytes
         (with_checksum
            (mk_header (s_bcode s mod 16) (Z.lor BFLAG_IGNORE BFLAG_FIRST) 0
                       (s_hdrsign s mod 256) (entry_point s) 0
                       (wrap32 (image_size chunks))))
    ++ concat (map (chunk_block s) chunks)
  /\ (Forall (fun c => 0 <= c_length c) chunks -> image_size chunks < 2 ^ 32 ->
      wrap32 (image_size chunks) = image_size chunks).
Proof.
  intros Hl. split; [now apply write_image_blocks|].
  intros Hpos Hlt. apply wrap32_small. split; [now apply image_size_nonneg|exact Hlt].
Qed.

Lemma write_image_layout_witness :
  write_image [9] [mk_chunk 0x1000 0 (Some [1; 2; 3; 4]) 4 0;
                   mk_chunk 0x2000 0xFFFFFFFF None 1024 BFLAG_FILL]
              (mk_settings 0xAD 10 0x1234)
  = [9] ++ block (Z.lor BFLAG_IGNORE BFLAG_FIRST) 0x1234 0 52
    ++ (block 0 0x1000 4 0 ++ [1; 2; 3; 4])
    ++ block BFLAG_FILL 0x2000 1024 0xFFFFFFFF.
Proof.
  apply (write_image_layout [9]
           [mk_chunk 0x1000 0 (Some [1; 2; 3; 4]) 4 0;
            mk_chunk 0x2000 0xFFFFFFFF None 1024 BFLAG_FILL]
           (mk_settings 0xAD 10 0x1234)).
  repeat constructor; intros buf [= <-]; reflexivity.
Defined.

(** ** The merge rule *)

Lemma has_false (x m : Z) : has x m = false <-> Z.land x m = 0.
Proof.
  unfold has. rewrite negb_false_iff. apply Z.eqb_eq.
Qed.

Lemma only_fill (fl : Z) :
  Z.land fl (Z.lnot BFLAG_FILL) = 0 <-> fl = 0 \/ fl = BFLAG_FILL.
Proof.
  split.
  - intros H.
    assert (Hb : forall n, 0 <= n -> n <> 4 -> Z.testbit fl n = false).
    { intros n Hn Hn4.
      assert (E : Z.testbit (Z.land fl (Z.lnot BFLAG_FILL)) n = false)
        by (rewrite H; apply Z.bits_0).
      rewrite Z.land_spec, Z.lnot_spec in E by exact Hn.
      change BFLAG_FILL with (2 ^ 4) in E.
      rewrite Z.pow2_bits_eqb in E by lia.
      destruct (Z.eqb_spec 4 n); [lia|].
      cbn [negb] in E. now rewrite andb_true_r in E. }
    destruct (Z.testbit fl 4) eqn:E4.
    + right. apply Z.bits_inj'. intros n Hn.
      change BFLAG_FILL with (2 ^ 4). rewrite Z.pow2_bits_eqb by lia.
      destruct (Z.eqb_spec 4 n) as [<-|Hne]; [exact E4|]. apply Hb; lia.
    + left. apply Z.bits_inj'. intros n Hn. rewrite Z.bits_0.
      destruct (Z.eq_dec n 4) as [->|Hne]; [exact E4|]. apply Hb; lia.
  - intros [->| ->]; reflexivity.
Qed.

Lemma chunk_matches_iff (h : block_header_type) (c : chunk_list_type) :
  chunk_ok c ->
  chunk_matches h c = true <-> mergeable h /\ accepts c h.
Proof.
  intros [Ha _ Hl He _ _ _ _ _].
  assert (Hw : wrap32 (c_address c + c_length c) = c_address c + c_length c).
  { unfold word_ok in Ha. apply wrap32_small. lia. }
  unfold mergeable, accepts, in_closed_range. split.
  - intros H. apply chunk_matches_true in H. destruct H as (H1 & H2 & H3 & H4).
    rewrite Hw in H4. apply has_false, only_fill in H1. tauto.
  - intros ((H1 & H2) & H3 & H4). unfold chunk_matches.
    apply only_fill, has_false in H1. rewrite H1, H3.
    destruct (has (flags h) BFLAG_FILL); cbn [andb].
    + specialize (H2 eq_refl). apply Z.ltb_ge in H2. rewrite H2, Hw.
      apply andb_true_intro. rewrite !Z.leb_le. exact H4.
    + rewrite Hw. apply andb_true_intro. rewrite !Z.leb_le. exact H4.
Qed.

Lemma scan_no_match (h : block_header_type) (l : list chunk_list_type) :
  Forall (fun c => chunk_matches h c = false) l -> scan h l = (l, []).
Proof.
  induction 1 as [|c l Hc _ IH]; cbn [scan]; [reflexivity|].
  now rewrite Hc, IH.
Qed.

Lemma scan_first_match (h : block_header_type) (before after : list chunk_list_type)
    (c : chunk_list_type) :
  Forall (fun c' => chunk_matches h c' = false) before ->
  chunk_matches h c = true ->
  scan h (before ++ c :: after) = (before, c :: after).
Proof.
  induction 1 as [|c0 l Hc0 _ IH]; intros Hc; cbn [scan app].
  - now rewrite Hc.
  - now rewrite Hc0, IH.
Qed.

Lemma find_or_create_merges (h : block_header_type) (before after : list chunk_list_type)
    (c : chunk_list_type) :
  Forall chunk_ok (before ++ c :: after) ->
  mergeable h -> accepts c h ->
  Forall (fun c' => ~ accepts c' h) before ->
  find_or_create h (before ++ c :: after) = (before, c, after).
Proof.
  intros Hok Hm Hc Hb.
  apply Forall_app in Hok. destruct Hok as (Hok1 & Hok2).
  apply Forall_cons_iff in Hok2. destruct Hok2 as (Hokc & _).
  unfold find_or_create. rewrite scan_first_match; [reflexivity| |].
  - rewrite Forall_forall in *. intros c' Hin.
    destruct (chunk_matches h c') eqn:E; [|reflexivity].
    apply chunk_matches_iff in E; [|auto]. exfalso. apply (Hb c' Hin). tauto.
  - apply chunk_matches_iff; auto.
Qed.

Lemma find_or_create_creates (h : block_header_type) (chunks : list chunk_list_type) :
  Forall chunk_ok chunks ->
  ~ mergeable h \/ Forall (fun c => ~ accepts c h) chunks ->
  find_or_create h chunks = (chunks, new_chunk h, []).
Proof.
  intros Hok H. unfold find_or_create. rewrite scan_no_match; [reflexivity|].
  rewrite Forall_forall in *. intros c Hin.
  destruct (chunk_matches h c) eqn:E; [|reflexivity].
  apply chunk_matches_iff in E; [|auto]. exfalso.
  destruct H as [H|H]; [tauto|]. apply (H c Hin). tauto.
Qed.

(** C4. On a list of chunks as the program builds them: a block that
    satisfies the provisos (no flag other than FILL; at most 256 bytes if
    FILL) merges into the first chunk, in list order, that is not a Fill
    chunk and whose closed interval [address, address + length] contains
    the target address; when a proviso fails or no chunk takes the block,
    a chunk with the address, argument and flags of the header, no data
    and length 0 is created after all the chunks of the list. In both
    cases the list after the block is the chunks before, the chunk
    written into, the chunks after, in this order. *)
Theorem merge_rule_find_or_create
    (h : block_header_type) (chunks : list chunk_list_type) :
  Forall chunk_ok chunks ->
  (forall before c after,
      chunks = before ++ c :: after ->
      mergeable h -> accepts c h ->
      Forall (fun c' => ~ accepts c' h) before ->
      find_or_create h chunks = (before, c, after))
  /\ (~ mergeable h \/ Forall (fun c => ~ accepts c h) chunks ->
      find_or_create h chunks
      = (chunks, mk_chunk (target_address h) (argument h) None 0 (flags h), []))
  /\ (forall junk st,
      hdr st = h -> chunk_list st = chunks ->
      forall before c after,
        find_or_create h chunks = (before, c, after) ->
        chunk_list (merge junk st) = before ++ snd (extend junk st c) :: after).
Proof.
  intros Hok. repeat apply conj.
  - intros before c after -> Hm Hc Hb. now apply find_or_create_merges.
  - intros H. now apply find_or_create_creates.
  - intros junk st <- <- before c after Hf. unfold merge. rewrite Hf.
    destruct (extend junk st c) as [st' c']. reflexivity.
Qed.

Lemma merge_rule_find_or_create_witness :
  let fill := mk_chunk 0x2000 0 None 16 BFLAG_FILL in
  let one := mk_chunk 0x2000 0 (Some [1; 2; 3; 4]) 4 0 in
  let two := mk_chunk 0x2004 0 (Some [5; 6]) 2 0 in
  find_or_create (mk_header 10 0 0 0xAD 0x2004 4 0) [fill; one; two] = ([fill], one, [two])
  /\ find_or_create (mk_header 10 BFLAG_INIT 0 0xAD 0x2004 4 7) [fill; one; two]
     = ([fill; one; two], mk_chunk 0x2004 7 None 0 BFLAG_INIT, []).
Proof.
  cbv zeta.
  assert (Hok : Forall chunk_ok [mk_chunk 0x2000 0 None 16 BFLAG_FILL;
                                 mk_chunk 0x2000 0 (Some [1; 2; 3; 4]) 4 0;
                                 mk_chunk 0x2004 0 (Some [5; 6]) 2 0])
    by solve_chunks_ok.
  split.
  - apply (proj1 (merge_rule_find_or_create (mk_header 10 0 0 0xAD 0x2004 4 0) _ Hok)
             [mk_chunk 0x2000 0 None 16 BFLAG_FILL]
             (mk_chunk 0x2000 0 (Some [1; 2; 3; 4]) 4 0)
             [mk_chunk 0x2004 0 (Some [5; 6]) 2 0]).
    + reflexivity.
    + split; [left; reflexivity|discriminate].
    + split; [reflexivity|unfold in_closed_range; cbn; lia].
    + repeat constructor. intros (H & _). discriminate H.
  - apply (proj1 (proj2 (merge_rule_find_or_create
                           (mk_header 10 BFLAG_INIT 0 0xAD 0x2004 4 7) _ Hok))).
    left. intros ([H|H] & _); discriminate H.
Defined.

(** ** A Fill block that starts a chunk *)

(** C1, as the code has it. A Fill-only block of at most 256 bytes that
    no chunk of the list takes (its address is in the closed interval of
    no chunk that is not a Fill chunk) and whose range does not wrap
    ([targetAddress + byteCount < 2^32]) adds,
    after the chunks of the list, a Fill chunk with the address and the
    argument of the header, length = byteCount (not rounded) and NO data
    buffer: the new chunk carries the FILL flag of the header, so the
    unrolling branch is not taken. Nothing else in the state changes. *)
Theorem small_fill_alone_stays_a_fill_chunk (junk : nat -> Z) (st : state) :
  header_ok (hdr st) -> Forall chunk_ok (chunk_list st) ->
  flags (hdr st) = BFLAG_FILL ->
  byte_count (hdr st) <= CUSTOMIZE_SMALLEST_FILL_BLOCK ->
  target_address (hdr st) + byte_count (hdr st) < 2 ^ 32 ->
  Forall (fun c => ~ accepts c (hdr st)) (chunk_list st) ->
  merge junk st
  = set_chunk_list st
      (chunk_list st
       ++ [mk_chunk (target_address (hdr st)) (argument (hdr st)) None
                    (byte_count (hdr st)) BFLAG_FILL]).
Proof.
  intros Hh Hok Hfl Hsmall Hwrap Hno. unfold merge.
  rewrite find_or_create_creates by auto.
  destruct Hh as [_ _ _ _ Ht Hn _]. unfold word_ok in *.
  unfold extend, new_chunk; cbn [c_address c_length c_flags c_data c_argument].
  rewrite Hfl. change (has BFLAG_FILL BFLAG_FILL) with true. cbn [negb].
  rewrite Z.add_0_r, !wrap32_small by lia.
  destruct (Z.ltb_spec (target_address (hdr st))
              (target_address (hdr st) + byte_count (hdr st))) as [Hlt|Hge].
  - unfold grow; cbn [c_address c_length c_flags c_data c_argument].
    replace (target_address (hdr st) + byte_count (hdr st) - target_address (hdr st))
      with (byte_count (hdr st)) by lia.
    rewrite Z.add_0_l, !wrap32_small by lia. reflexivity.
  - assert (E : byte_count (hdr st) = 0) by lia.
    rewrite E. cbn [Z.eqb]. reflexivity.
Qed.

Lemma small_fill_alone_stays_a_fill_chunk_witness :
  merge (fun _ => 0)
        (mk_state [] [] [mk_chunk 0x1000 0 (Some [1; 2; 3; 4]) 4 0]
                  (mk_settings 0xAD 10 0x1234)
                  (mk_header 10 BFLAG_FILL 0 0xAD 0x2000 64 0xFFFFFFFF) 4 [])
  = mk_state [] [] [mk_chunk 0x1000 0 (Some [1; 2; 3; 4]) 4 0;
                    mk_chunk 0x2000 0xFFFFFFFF None 64 BFLAG_FILL]
             (mk_settings 0xAD 10 0x1234)
             (mk_header 10 BFLAG_FILL 0 0xAD 0x2000 64 0xFFFFFFFF) 4 [].
Proof.
  apply (small_fill_alone_stays_a_fill_chunk (fun _ => 0)
           (mk_state [] [] [mk_chunk 0x1000 0 (Some [1; 2; 3; 4]) 4 0]
                     (mk_settings 0xAD 10 0x1234)
                     (mk_header 10 BFLAG_FILL 0 0xAD 0x2000 64 0xFFFFFFFF) 4 [])).
  - solve_fields_ok.
  - cbn [chunk_list]. solve_chunks_ok.
  - reflexivity.
  - vm_compute. discriminate.
  - reflexivity.
  - cbn [chunk_list]. repeat constructor.
    intros (_ & H). unfold in_closed_range in H. cbn in H. lia.
Defined.

(** C1 as the spec states it fails on Scenario B: a Fill block at address
    0x2000, length 64, argument 0xFFFFFFFF, alone between a First and a
    Final block. The one chunk written has no data buffer. *)
Lemma scenario_B_has_no_data_buffer :
  let file := block BFLAG_FIRST 0x1234 0 0
              ++ block BFLAG_FILL 0x2000 64 0xFFFFFFFF
              ++ block BFLAG_FINAL 0 0 0 in
  let r := main (fun _ => 0) (mk_settings 0 0 0) (mk_header 0 0 0 0 0 0 0) file in
  option_map (fun r => written (events r)) r
  = Some [[mk_chunk 0x2000 0xFFFFFFFF None 64 BFLAG_FILL]]
  /\ ~ (exists r' c buf,
          r = Some r' /\ written (events r') = [[c]] /\ c_data c = Some buf).
Proof.
  cbv zeta. split; [reflexivity|].
  intros (r' & c & buf & H1 & H2 & H3).
  vm_compute in H1. injection H1 as <-.
  cbn in H2. injection H2 as <-. discriminate H3.
Qed.

(** ** What the write puts in the buffer *)

Lemma store_at_end (pre fresh_bytes bytes : list Z) :
  (length bytes <= length fresh_bytes)%nat ->
  store (pre ++ fresh_bytes) (length pre) bytes
  = pre ++ bytes ++ skipn (length bytes) fresh_bytes.
Proof.
  intros H. unfold store.
  rewrite firstn_exact by reflexivity.
  rewrite skipn_app, skipn_all2 by lia.
  replace (length pre + length bytes - length pre)%nat with (length bytes) by lia.
  reflexivity.
Qed.

Lemma fill_loop_spec (fuel : nat) (pre fresh_bytes : list Z) (arg count : Z) :
  0 <= count -> (Z.to_nat (count / 4) <= fuel)%nat ->
  (4 * Z.to_nat (count / 4) <= length fresh_bytes)%nat ->
  fill_loop fuel (pre ++ fresh_bytes) (length pre) arg count
  = (pre ++ concat (repeat (word_bytes arg) (Z.to_nat (count / 4)))
         ++ skipn (4 * Z.to_nat (count / 4)) fresh_bytes,
     count mod 4).
Proof.
  revert pre fresh_bytes count.
  induction fuel as [|fuel IH]; intros pre J count Hc Hf HJ.
  - assert (Hq : 0 <= count / 4) by (apply Z.div_pos; lia).
    assert (E : count / 4 = 0) by lia.
    assert (Hlt : count < 4) by (revert E; Z.div_mod_to_equations; lia).
    rewrite E. cbn [fill_loop Z.to_nat Nat.mul repeat concat skipn app].
    rewrite Z.mod_small by lia. reflexivity.
  - cbn [fill_loop]. destruct (Z.leb_spec 4 count) as [Hge|Hlt].
    + assert (E : count / 4 = (count - 4) / 4 + 1).
      { Z.div_mod_to_equations. lia. }
      assert (Hk : 0 <= (count - 4) / 4) by (apply Z.div_pos; lia).
      rewrite E in HJ, Hf. rewrite Z2Nat.inj_add in HJ, Hf by lia.
      change (Z.to_nat 1) with 1%nat in *.
      rewrite store_at_end by (rewrite length_word_bytes; lia).
      rewrite length_word_bytes.
      replace (length pre + 4)%nat with (length (pre ++ word_bytes arg))
        by (rewrite length_app, length_word_bytes; reflexivity).
      rewrite app_assoc.
      rewrite IH; try lia; [|rewrite length_skipn; lia].
      rewrite E, Z2Nat.inj_add by lia. change (Z.to_nat 1) with 1%nat.
      rewrite Nat.add_1_r. cbn [repeat concat].
      rewrite skipn_skipn, <- !app_assoc.
      f_equal; [|Z.div_mod_to_equations; lia].
      do 3 f_equal. f_equal. lia.
    + assert (E : count / 4 = 0) by (apply Z.div_small; lia).
      rewrite E. cbn [Z.to_nat Nat.mul repeat concat skipn app].
      rewrite Z.mod_small by lia. reflexivity.
Qed.

Lemma buffer_length (c : chunk_list_type) :
  chunk_ok c -> has (c_flags c) BFLAG_FILL = false ->
  length (buffer c) = Z.to_nat (c_length c).
Proof.
  intros [_ _ _ _ _ _ _ _ Hd] Hf. unfold buffer.
  destruct (c_data c) as [buf|]; [tauto|].
  destruct Hd as [Hd| ->]; [congruence|reflexivity].
Qed.

Section Writes.

Variable junk : nat -> Z.

(** The range of the block is already in the chunk: nothing is written,
    nothing is read. *)
Lemma extend_covered (st : state) (c : chunk_list_type) :
  header_ok (hdr st) -> chunk_ok c ->
  target_address (hdr st) + byte_count (hdr st) <= c_address c + c_length c ->
  extend junk st c
  = (if byte_count (hdr st) =? 0 then st
     else log st (Warning (target_address (hdr st))
                          (wrap32 (target_address (hdr st) + byte_count (hdr st)))),
     c).
Proof.
  intros [_ _ _ _ Ht Hn _] [Ha _ Hl He _ _ _ _ _] Hle. unfold word_ok in *.
  unfold extend. rewrite !wrap32_small by lia.
  destruct (Z.ltb_spec (c_address c + c_length c)
              (target_address (hdr st) + byte_count (hdr st))); [lia|reflexivity].
Qed.

(** A block that is not a Fill block and starts where the chunk ends:
    its payload is read and appended. *)
Lemma extend_append_payload (st : state) (c : chunk_list_type) :
  header_ok (hdr st) -> chunk_ok c ->
  has (flags (hdr st)) BFLAG_FILL = false -> has (c_flags c) BFLAG_FILL = false ->
  target_address (hdr st) = c_address c + c_length c ->
  0 < byte_count (hdr st) ->
  target_address (hdr st) + byte_count (hdr st) < 2 ^ 32 ->
  (Z.to_nat (byte_count (hdr st)) <= length (input st))%nat ->
  extend junk st c
  = (set_input (set_fresh st (fresh st + Z.to_nat (byte_count (hdr st))))
               (skipn (Z.to_nat (byte_count (hdr st))) (input st)),
     mk_chunk (c_address c) (c_argument c)
              (Some (buffer c ++ firstn (Z.to_nat (byte_count (hdr st))) (input st)))
              (c_length c + byte_count (hdr st)) (c_flags c)).
Proof.
  intros [_ _ _ _ Ht Hn _] Hc Hfl Hcf Hend Hpos Hwrap Hin.
  pose proof (buffer_length c Hc Hcf) as Hbuf.
  destruct Hc as [Ha _ Hl He _ _ _ _ _]. unfold word_ok in *.
  unfold extend. rewrite Hfl.
  rewrite (wrap32_small (target_address _ + _)), (wrap32_small (c_address c + _)) by lia.
  destruct (Z.ltb_spec (c_address c + c_length c)
              (target_address (hdr st) + byte_count (hdr st))); [|lia].
  replace (target_address (hdr st) + byte_count (hdr st) - (c_address c + c_length c))
    with (byte_count (hdr st)) by lia.
  replace (target_address (hdr st) - c_address c) with (c_length c) by lia.
  rewrite (wrap32_small (byte_count (hdr st))) by lia.
  rewrite !wrap32_small by lia.
  unfold realloc, fread, grow. fold (buffer c). simpl_state.
  rewrite firstn_all2 by lia.
  replace (Z.to_nat (c_length c + byte_count (hdr st)) - length (buffer c))%nat
    with (Z.to_nat (byte_count (hdr st))) by lia.
  rewrite <- Hbuf.
  rewrite store_at_end by (rewrite length_firstn, length_map, length_seq; lia).
  rewrite length_firstn, Nat.min_l by lia.
  rewrite (@skipn_all2 _ _ (map junk _)) by (rewrite length_map, length_seq; lia).
  rewrite app_nil_r, wrap32_small by lia. reflexivity.
Qed.

(** A Fill block that starts where a chunk that is not a Fill chunk ends:
    the argument is unrolled, word by word; the bytes after the last
    whole word are what [realloc] left there. *)
Lemma extend_append_fill (st : state) (c : chunk_list_type) :
  header_ok (hdr st) -> chunk_ok c ->
  has (flags (hdr st)) BFLAG_FILL = true -> has (c_flags c) BFLAG_FILL = false ->
  target_address (hdr st) = c_address c + c_length c ->
  0 < byte_count (hdr st) ->
  target_address (hdr st) + byte_count (hdr st) < 2 ^ 32 ->
  extend junk st c
  = (set_hdr (set_fresh st (fresh st + Z.to_nat (byte_count (hdr st))))
             (set_byte_count (hdr st) (byte_count (hdr st) mod 4)),
     mk_chunk (c_address c) (c_argument c)
              (Some (buffer c
                     ++ concat (repeat (word_bytes (argument (hdr st)))
                                       (Z.to_nat (byte_count (hdr st) / 4)))
                     ++ skipn (4 * Z.to_nat (byte_count (hdr st) / 4))
                          (map junk (seq (fresh st)
                                         (Z.to_nat (byte_count (hdr st)))))))
              (c_length c + byte_count (hdr st)) (c_flags c)).
Proof.
  intros [_ _ _ _ Ht Hn _] Hc Hfl Hcf Hend Hpos Hwrap.
  pose proof (buffer_length c Hc Hcf) as Hbuf.
  destruct Hc as [Ha _ Hl He _ _ _ _ _]. unfold word_ok in *.
  unfold extend. rewrite Hfl, Hcf. cbn [negb].
  rewrite (wrap32_small (target_address _ + _)), (wrap32_small (c_address c + _)) by lia.
  destruct (Z.ltb_spec (c_address c + c_length c)
              (target_address (hdr st) + byte_count (hdr st))); [|lia].
  replace (target_address (hdr st) + byte_count (hdr st) - (c_address c + c_length c))
    with (byte_count (hdr st)) by lia.
  replace (target_address (hdr st) - c_address c) with (c_length c) by lia.
  rewrite (wrap32_small (byte_count (hdr st))) by lia.
  rewrite !wrap32_small by lia.
  unfold realloc, grow. fold (buffer c). simpl_state.
  rewrite firstn_all2 by lia.
  replace (Z.to_nat (c_length c + byte_count (hdr st)) - length (buffer c))%nat
    with (Z.to_nat (byte_count (hdr st))) by lia.
  rewrite <- Hbuf.
  assert (Hq : 0 <= byte_count (hdr st) / 4 /\ 4 * (byte_count (hdr st) / 4)
                                              <= byte_count (hdr st)).
  { Z.div_mod_to_equations. lia. }
  rewrite fill_loop_spec; try lia; [|rewrite length_map, length_seq; lia].
  simpl_state. rewrite wrap32_small by lia. reflexivity.
Qed.

End Writes.

(** ** The bytes a chunk holds *)

Lemma nth_error_concat_repeat (w : list Z) (k i : nat) :
  (0 < length w)%nat -> (i < length w * k)%nat ->
  nth_error (concat (repeat w k)) i = nth_error w (i mod length w).
Proof.
  intros Hw. revert i. induction k as [|k IH]; intros i Hi; [lia|].
  cbn [repeat concat].
  destruct (Nat.lt_ge_cases i (length w)) as [Hlt|Hge].
  - rewrite nth_error_app1 by exact Hlt. now rewrite Nat.mod_small.
  - rewrite nth_error_app2 by exact Hge. rewrite IH by lia.
    f_equal. replace i with ((i - length w) + 1 * length w)%nat at 2 by lia.
    now rewrite Nat.Div0.mod_add.
Qed.

Lemma find_or_create_pre (h : block_header_type) (chunks before after : list chunk_list_type)
    (c : chunk_list_type) :
  header_ok h -> Forall chunk_ok chunks ->
  has (flags h) BFLAG_FIRST = false -> has (flags h) BFLAG_FINAL = false ->
  has (flags h) BFLAG_IGNORE = false ->
  find_or_create h chunks = (before, c, after) ->
  extend_pre h c.
Proof.
  intros Hh Hc F1 F2 F3 Hf.
  apply find_or_create_spec in Hf. destruct Hf as (_ & [(Hl & Hm) | (Hl & -> & Ha)]).
  - rewrite Hl in Hc. apply Forall_app in Hc. destruct Hc as (_ & Hc).
    apply Forall_cons_iff in Hc. destruct Hc as (Hc & _).
    apply (chunk_matches_iff h c Hc) in Hm. destruct Hm as (_ & M3 & M4).
    unfold extend_pre. intuition congruence.
  - pose proof (new_chunk_ok _ Hh F1 F2 F3).
    unfold extend_pre, in_closed_range. cbn [new_chunk c_flags c_address c_length].
    intuition lia.
Qed.

Section Merge.

Variable junk : nat -> Z.

Lemma merge_unfold (st : state) (before after : list chunk_list_type)
    (c : chunk_list_type) :
  find_or_create (hdr st) (chunk_list st) = (before, c, after) ->
  merge junk st
  = set_chunk_list (fst (extend junk st c))
                   (before ++ snd (extend junk st c) :: after).
Proof.
  intros Hf. unfold merge. rewrite Hf.
  destruct (extend junk st c) as [st' c']. reflexivity.
Qed.

End Merge.

(** ** Reading what [write_header] wrote *)

Lemma xor_with_checksum (h : block_header_type) :
  xor_bytes (header_bytes (with_checksum h)) = 0.
Proof.
  destruct (write_header_checksum [] h) as (raw & Hraw & _ & _ & Hx).
  rewrite write_header_app in Hraw. cbn [fst app] in Hraw. now rewrite Hraw.
Qed.

Lemma header_ok_with_checksum (h : block_header_type) :
  0 <= bcode h < 16 -> 0 <= flags h < 4096 -> byte_ok (hdrsign h) ->
  word_ok (target_address h) -> word_ok (byte_count h) -> word_ok (argument h) ->
  header_ok (with_checksum h).
Proof.
  intros. unfold with_checksum, write_header.
  constructor; cbn [snd set_hdrchk bcode flags hdrchk hdrsign target_address
                    byte_count argument]; try assumption.
  apply Z.mod_pos_bound. lia.
Qed.

Section ReadBack.

Variable junk : nat -> Z.

Lemma step_written_header (st : state) (h : block_header_type) (rest : list Z) :
  header_ok (with_checksum h) ->
  input st = header_bytes (with_checksum h) ++ rest ->
  step junk st = process junk (set_hdr (set_input st rest) (with_checksum h)).
Proof.
  intros Hh Hin.
  rewrite (step_header junk st _ rest Hin (length_header_bytes _) (header_bytes_ok _)).
  rewrite xor_with_checksum. cbn [Z.eqb].
  rewrite (read_header_eq st _ rest Hin (length_header_bytes _)).
  now rewrite header_of_bytes_of_header.
Qed.

(** A First block that is not a Final block. *)
Lemma process_first (st : state) :
  has (flags (hdr st)) BFLAG_FIRST = true ->
  has (flags (hdr st)) BFLAG_FINAL = false ->
  process junk st = Next (set_settings (flush st) (capture (hdr st))).
Proof.
  intros H1 H2. unfold process. rewrite has_lor, H1, H2. cbn [orb].
  destruct (flush_fields st) as (_ & _ & -> & _). reflexivity.
Qed.

(** A Final block. *)
Lemma process_final (st : state) :
  has (flags (hdr st)) BFLAG_FINAL = true ->
  process junk st = Leave (flush st).
Proof.
  intros H. unfold process. rewrite has_lor, H, orb_true_r. reflexivity.
Qed.

(** A block for the merge rule. *)
Lemma process_merge (st : state) :
  has (flags (hdr st)) BFLAG_FIRST = false ->
  has (flags (hdr st)) BFLAG_FINAL = false ->
  has (flags (hdr st)) BFLAG_IGNORE = false ->
  process junk st
  = Next (if has (flags (hdr st)) BFLAG_INIT then flush (merge junk st)
          else merge junk st).
Proof.
  intros H1 H2 H3. unfold process. rewrite has_lor, H1, H2, H3. reflexivity.
Qed.

End ReadBack.

(** ** Sequences of blocks *)

Section Sequences.

Variable junk : nat -> Z.

Lemma merge_chunks_ok (st : state) :
  merge_block (hdr st) -> Forall chunk_ok (chunk_list st) ->
  Forall chunk_ok (chunk_list (merge junk st)).
Proof.
  intros (Hh & F1 & F2 & F3) Hok.
  destruct (find_or_create (hdr st) (chunk_list st)) as [[before c] after] eqn:Hf.
  pose proof (find_or_create_pre _ _ _ _ _ Hh Hok F1 F2 F3 Hf) as Hpre.
  rewrite (merge_unfold junk st before after c Hf). simpl_state.
  pose proof (extend_chunk_ok junk st c Hpre) as Hc'.
  apply find_or_create_spec in Hf. destruct Hf as (_ & [(Hl & _) | (Hl & _ & ->)]).
  - rewrite Hl in Hok. apply Forall_app in Hok. destruct Hok as (H1 & H2).
    apply Forall_cons_iff in H2. destruct H2 as (_ & H2).
    apply Forall_app. split; [exact H1|]. constructor; assumption.
  - rewrite Hl in Hok. apply Forall_app. split; [exact Hok|]. constructor; auto.
Qed.

End Sequences.

(** ** What a write stores in a buffer *)

Lemma nth_error_store (buf : list Z) (off : nat) (bytes : list Z) (i : nat) :
  (off + length bytes <= length buf)%nat ->
  nth_error (store buf off bytes) i
  = if (i <? off)%nat then nth_error buf i
    else if (i <? off + length bytes)%nat then nth_error bytes (i - off)
         else nth_error buf i.
Proof.
  intros H. unfold store.
  destruct (Nat.ltb_spec i off) as [Hlt|Hge].
  - rewrite nth_error_app1 by (rewrite length_firstn; lia).
    rewrite nth_error_firstn.
    destruct (Nat.ltb_spec i off); [reflexivity|lia].
  - rewrite nth_error_app2 by (rewrite length_firstn; lia).
    rewrite length_firstn, Nat.min_l by lia.
    destruct (Nat.ltb_spec i (off + length bytes)).
    + rewrite nth_error_app1 by lia. reflexivity.
    + rewrite nth_error_app2 by lia. rewrite nth_error_skipn. f_equal. lia.
Qed.

Lemma length_unrolled (arg : Z) (q : nat) :
  length (concat (repeat (word_bytes arg) q)) = (4 * q)%nat.
Proof.
  induction q as [|q IH]; [reflexivity|].
  cbn [repeat concat]. rewrite length_app, length_word_bytes, IH. lia.
Qed.

(** The unrolling loop from any place of the buffer: the words of the
    argument are stored there, whatever the buffer held. *)
Lemma fill_loop_at (fuel : nat) (buf : list Z) (off : nat) (arg count : Z) :
  0 <= count -> (Z.to_nat (count / 4) <= fuel)%nat ->
  (off + 4 * Z.to_nat (count / 4) <= length buf)%nat ->
  fill_loop fuel buf off arg count
  = (store buf off (concat (repeat (word_bytes arg) (Z.to_nat (count / 4)))),
     count mod 4).
Proof.
  intros Hc Hf Hl.
  assert (Hoff : length (firstn off buf) = off) by (rewrite length_firstn; lia).
  pose proof (fill_loop_spec fuel (firstn off buf) (skipn off buf) arg count Hc Hf)
    as H.
  rewrite firstn_skipn, Hoff in H. rewrite H by (rewrite length_skipn; lia).
  unfold store. rewrite length_unrolled, skipn_skipn.
  do 4 f_equal. lia.
Qed.

Section Stores.

Variable junk : nat -> Z.

(** A block that passes the end of a chunk that is not a Fill chunk: the
    buffer grows to the end of the block, and the bytes of the block are
    stored from the offset of its target address on. *)
Lemma extend_stores (st : state) (c : chunk_list_type) :
  header_ok (hdr st) -> chunk_ok c -> has (c_flags c) BFLAG_FILL = false ->
  in_closed_range c (target_address (hdr st)) ->
  c_address c + c_length c < target_address (hdr st) + byte_count (hdr st) ->
  target_address (hdr st) + byte_count (hdr st) < 2 ^ 32 ->
  snd (extend junk st c)
  = mk_chunk (c_address c) (c_argument c)
      (Some (store (buffer c
                    ++ map junk
                         (seq (fresh st)
                              (Z.to_nat (target_address (hdr st) + byte_count (hdr st)
                                         - (c_address c + c_length c)))))
                   (Z.to_nat (target_address (hdr st) - c_address c))
                   (if has (flags (hdr st)) BFLAG_FILL
                    then concat (repeat (word_bytes (argument (hdr st)))
                                        (Z.to_nat (byte_count (hdr st) / 4)))
                    else firstn (Z.to_nat (target_address (hdr st) + byte_count (hdr st)
                                           - (c_address c + c_length c)))
                                (input st))))
      (target_address (hdr st) + byte_count (hdr st) - c_address c) (c_flags c).
Proof.
  intros [_ _ _ _ Ht Hn _] Hc Hcf Hin Hlt Hwrap.
  pose proof (buffer_length c Hc Hcf) as Hbuf.
  destruct Hc as [Ha _ Hl He _ _ _ _ _]. unfold in_closed_range, word_ok in *.
  unfold extend.
  rewrite (wrap32_small (target_address _ + _)), (wrap32_small (c_address c + _)) by lia.
  destruct (Z.ltb_spec (c_address c + c_length c)
              (target_address (hdr st) + byte_count (hdr st))); [|lia].
  rewrite (wrap32_small (target_address (hdr st) + byte_count (hdr st)
                         - (c_address c + c_length c))) by lia.
  rewrite (wrap32_small (target_address (hdr st) - c_address c)) by lia.
  rewrite (wrap32_small (c_length c + _)) by lia.
  assert (Hq : 0 <= byte_count (hdr st) / 4
               /\ 4 * (byte_count (hdr st) / 4) <= byte_count (hdr st)).
  { Z.div_mod_to_equations. lia. }
  assert (Hsize : (Z.to_nat (c_length c + (target_address (hdr st) + byte_count (hdr st)
                                            - (c_address c + c_length c)))
                   - length (buffer c))%nat
                  = Z.to_nat (target_address (hdr st) + byte_count (hdr st)
                              - (c_address c + c_length c))) by lia.
  destruct (has (flags (hdr st)) BFLAG_FILL).
  - rewrite Hcf. cbn [negb]. unfold realloc, grow. fold (buffer c). simpl_state.
    rewrite (@firstn_all2 _ (Z.to_nat (c_length c
                                        + (target_address (hdr st) + byte_count (hdr st)
                                           - (c_address c + c_length c))))
                          (buffer c)) by lia.
    rewrite Hsize.
    rewrite fill_loop_at;
      [|lia|lia|rewrite length_app, length_map, length_seq; lia].
    cbn [snd]. rewrite wrap32_small by lia. f_equal. lia.
  - unfold realloc, fread, grow. fold (buffer c). simpl_state.
    rewrite (@firstn_all2 _ (Z.to_nat (c_length c
                                        + (target_address (hdr st) + byte_count (hdr st)
                                           - (c_address c + c_length c))))
                          (buffer c)) by lia.
    rewrite Hsize, wrap32_small by lia. f_equal. lia.
Qed.

End Stores.

(** The bytes of a chunk after such a store: those stored, and around
    them those the chunk held. *)
Lemma chunk_byte_stored (c : chunk_list_type) (J bytes : list Z) (off : nat) (L x : Z) :
  chunk_ok c -> has (c_flags c) BFLAG_FILL = false ->
  (off + length bytes <= length (buffer c ++ J))%nat ->
  Z.of_nat (length (buffer c ++ J)) = L ->
  let c' := mk_chunk (c_address c) (c_argument c)
                     (Some (store (buffer c ++ J) off bytes)) L (c_flags c) in
  (forall i, (i < length bytes)%nat ->
             x = c_address c + Z.of_nat off + Z.of_nat i ->
             chunk_byte c' x = nth_error bytes i)
  /\ (forall v, chunk_byte c x = Some v ->
                x < c_address c + Z.of_nat off
                \/ c_address c + Z.of_nat (off + length bytes) <= x ->
                chunk_byte c' x = Some v).
Proof.
  intros Hc Hcf Hlen HL. pose proof (buffer_length c Hc Hcf) as Hbuf.
  destruct Hc as [_ _ Hl _ _ _ _ _ _]. cbv zeta.
  unfold chunk_byte. cbn [c_address c_data c_length].
  rewrite length_app in *.
  split.
  - intros i Hi ->.
    destruct (Z.leb_spec (c_address c) (c_address c + Z.of_nat off + Z.of_nat i));
      [|lia].
    destruct (Z.ltb_spec (c_address c + Z.of_nat off + Z.of_nat i) (c_address c + L));
      [|lia].
    cbn [andb]. rewrite nth_error_store by (rewrite length_app; lia).
    destruct (Nat.ltb_spec (Z.to_nat (c_address c + Z.of_nat off + Z.of_nat i
                                       - c_address c)) off); [lia|].
    destruct (Nat.ltb_spec (Z.to_nat (c_address c + Z.of_nat off + Z.of_nat i
                                       - c_address c)) (off + length bytes)); [|lia].
    f_equal. lia.
  - intros v Hv Hout. unfold buffer in *.
    destruct (c_data c) as [buf|]; [|discriminate].
    destruct (Z.leb_spec (c_address c) x); cbn [andb] in Hv; [|discriminate].
    destruct (Z.ltb_spec x (c_address c + c_length c)); [|discriminate].
    destruct (Z.ltb_spec x (c_address c + L)); [|lia].
    cbn [andb]. rewrite nth_error_store by (rewrite length_app; lia).
    destruct (Nat.ltb_spec (Z.to_nat (x - c_address c)) off).
    + rewrite nth_error_app1 by lia. exact Hv.
    + destruct (Nat.ltb_spec (Z.to_nat (x - c_address c)) (off + length bytes));
        [lia|].
      rewrite nth_error_app1 by lia. exact Hv.
Qed.

(** One block given to the merge rule, with [c] the chunk it is written
    into (found or created), at the address [x]: the chunk afterwards
    holds there the byte the block writes, if it writes one, and what it
    held otherwise. A block the chunk covers writes nothing; a Fill block
    that passes the end of the chunk overwrites what the chunk held from
    its target address on. *)
Lemma merge_step_writes
    (junk : nat -> Z) (st : state) (before after : list chunk_list_type)
    (c : chunk_list_type) (x : Z) :
  merge_block (hdr st) -> Forall chunk_ok (chunk_list st) ->
  find_or_create (hdr st) (chunk_list st) = (before, c, after) ->
  no_payload_overlap st (hdr st) ->
  exists c',
    chunk_list (merge junk st) = before ++ c' :: after
    /\ (forall v, written_byte st c x = Some v -> chunk_byte c' x = Some v)
    /\ (forall v, written_byte st c x = None -> chunk_byte c x = Some v ->
                  chunk_byte c' x = Some v).
Proof.
  intros (Hh & F1 & F2 & F3) Hok Hf (Hwrap & Hno). rewrite Hf in Hno.
  pose proof (find_or_create_pre _ _ _ _ _ Hh Hok F1 F2 F3 Hf) as (_ & Hc & Hin & Hfill).
  rewrite (merge_unfold junk st before after c Hf). simpl_state.
  exists (snd (extend junk st c)). split; [reflexivity|].
  unfold written_byte. cbv zeta.
  destruct (Z.leb_spec (target_address (hdr st) + byte_count (hdr st))
              (c_address c + c_length c)) as [Hcov|Hpast].
  { rewrite extend_covered by assumption. cbn [snd]. split; [discriminate|auto]. }
  pose proof Hh as [_ _ _ _ Ht Hn _]. pose proof Hc as [Ha _ Hl He _ _ _ _ Hd].
  unfold in_closed_range, word_ok in *.
  assert (Hq : 0 <= byte_count (hdr st) / 4
               /\ 4 * (byte_count (hdr st) / 4) <= byte_count (hdr st)).
  { Z.div_mod_to_equations. lia. }
  destruct (has (flags (hdr st)) BFLAG_FILL) eqn:Hfl.
  - destruct (has (c_flags c) BFLAG_FILL) eqn:Hcf.
    { split; [discriminate|]. intros v _ Hv. exfalso.
      unfold chunk_byte in Hv. destruct (c_data c); [|discriminate].
      destruct Hd as (_ & _ & Hd). discriminate Hd. }
    pose proof (buffer_length c Hc Hcf) as Hbuf.
    rewrite extend_stores by assumption. rewrite Hfl.
    match goal with
    | |- context [store (buffer c ++ ?J) ?off ?bytes] =>
        destruct (chunk_byte_stored c J bytes off
                    (target_address (hdr st) + byte_count (hdr st) - c_address c) x
                    Hc Hcf) as (Hw & Hk)
    end.
    { rewrite length_app, length_map, length_seq, length_unrolled. lia. }
    { rewrite length_app, length_map, length_seq. lia. }
    rewrite length_unrolled in Hw, Hk.
    destruct (Z.leb_spec (target_address (hdr st)) x) as [H1|H1]; cbn [andb].
    + destruct (Z.ltb_spec x (target_address (hdr st) + 4 * (byte_count (hdr st) / 4)))
        as [H2|H2].
      * assert (Hm : 0 <= (x - target_address (hdr st)) mod 4 < 4)
          by (apply Z.mod_pos_bound; lia).
        split.
        -- intros v Hv.
           rewrite (Hw (Z.to_nat (x - target_address (hdr st)))) by lia.
           rewrite nth_error_concat_repeat by (rewrite ?length_word_bytes; lia).
           rewrite length_word_bytes.
           change 4%nat with (Z.to_nat 4). rewrite <- Z2Nat.inj_mod by lia.
           exact Hv.
        -- intros v Hv _. exfalso.
           apply nth_error_None in Hv. rewrite length_word_bytes in Hv. lia.
      * split; [discriminate|]. intros v _ Hv. apply Hk; [exact Hv|]. right. lia.
    + split; [discriminate|]. intros v _ Hv. apply Hk; [exact Hv|]. left. lia.
  - specialize (Hno eq_refl). destruct Hno as [Hno|Hend]; [lia|].
    assert (Hcf : has (c_flags c) BFLAG_FILL = false).
    { destruct (has (c_flags c) BFLAG_FILL); [|reflexivity].
      specialize (Hfill eq_refl). discriminate Hfill. }
    pose proof (buffer_length c Hc Hcf) as Hbuf.
    rewrite extend_stores by assumption. rewrite Hfl.
    match goal with
    | |- context [store (buffer c ++ ?J) ?off ?bytes] =>
        destruct (chunk_byte_stored c J bytes off
                    (target_address (hdr st) + byte_count (hdr st) - c_address c) x
                    Hc Hcf) as (Hw & Hk)
    end.
    { rewrite length_app, length_map, length_seq, length_firstn. lia. }
    { rewrite length_app, length_map, length_seq. lia. }
    rewrite length_firstn in Hw, Hk.
    split.
    + intros v.
      destruct (Z.leb_spec (target_address (hdr st)) x) as [H1|H1]; cbn [andb];
        [|discriminate].
      destruct (Z.ltb_spec x (target_address (hdr st) + byte_count (hdr st)))
        as [H2|H2]; [|discriminate].
      intros Hv.
      assert (Hi : (Z.to_nat (x - target_address (hdr st)) < length (input st))%nat)
        by (apply nth_error_Some; congruence).
      rewrite (Hw (Z.to_nat (x - target_address (hdr st)))) by lia.
      rewrite nth_error_firstn.
      destruct (Nat.ltb_spec (Z.to_nat (x - target_address (hdr st)))
                  (Z.to_nat (target_address (hdr st) + byte_count (hdr st)
                             - (c_address c + c_length c)))); [exact Hv|lia].
    + intros v _ Hv. apply Hk; [exact Hv|]. left.
      unfold chunk_byte in Hv. destruct (c_data c); [|discriminate].
      destruct (Z.leb_spec (c_address c) x); cbn [andb] in Hv; [|discriminate].
      destruct (Z.ltb_spec x (c_address c + c_length c)); [lia|discriminate].
Qed.

(** A later block that does not write the address [x] of the chunk in
    place [k] leaves there what the chunk held, and the chunk in its
    place. *)
Lemma merge_keeps_byte (junk : nat -> Z) (st : state) (k : nat) (x : Z)
    (c : chunk_list_type) :
  merge_block (hdr st) -> Forall chunk_ok (chunk_list st) ->
  no_payload_overlap st (hdr st) ->
  (let '(before, c0, _) := find_or_create (hdr st) (chunk_list st) in
   length before = k -> written_byte st c0 x = None) ->
  nth_error (chunk_list st) k = Some c ->
  exists c', nth_error (chunk_list (merge junk st)) k = Some c'
             /\ forall v, chunk_byte c x = Some v -> chunk_byte c' x = Some v.
Proof.
  intros Hh Hok Hno Hnw Hk.
  destruct (find_or_create (hdr st) (chunk_list st)) as [[before c0] after] eqn:Hf.
  destruct (merge_step_writes junk st before after c0 x Hh Hok Hf Hno)
    as (c0' & Hlist & _ & Hkeep).
  rewrite Hlist.
  apply find_or_create_spec in Hf.
  destruct Hf as (_ & [(Hl & Hm) | (Hl & _ & ->)]).
  - rewrite Hl in Hk.
    destruct (Nat.lt_trichotomy k (length before)) as [Hlt|[->|Hgt]].
    + rewrite nth_error_app1 in Hk |- * by exact Hlt. eauto.
    + rewrite nth_error_app2, Nat.sub_diag in Hk |- * by lia.
      cbn [nth_error] in Hk |- *. injection Hk as <-.
      exists c0'. split; [reflexivity|]. intros v Hv. apply Hkeep; auto.
    + rewrite nth_error_app2 in Hk |- * by lia.
      destruct (k - length before)%nat as [|j] eqn:Ej; [lia|].
      cbn [nth_error] in Hk |- *. eauto.
  - rewrite Hl in Hk.
    assert (Hlt : (k < length before)%nat) by (apply nth_error_Some; congruence).
    rewrite nth_error_app1 by exact Hlt. eauto.
Qed.

Lemma fed_keeps_byte (junk : nat -> Z) (k : nat) (x : Z) (st st' : state) :
  fed junk k x st st' ->
  forall c : chunk_list_type,
    Forall chunk_ok (chunk_list st) ->
    nth_error (chunk_list st) k = Some c ->
    exists c', nth_error (chunk_list st') k = Some c'
               /\ forall v, chunk_byte c x = Some v -> chunk_byte c' x = Some v.
Proof.
  induction 1 as [st|st st' h rest Hh Hno Hnw _ IH]; intros c Hok Hk.
  - eauto.
  - destruct (merge_keeps_byte junk (set_hdr (set_input st rest) h) k x c
                Hh Hok Hno Hnw Hk) as (c1 & Hk1 & Hv1).
    destruct (IH c1 (merge_chunks_ok junk (set_hdr (set_input st rest) h) Hh Hok) Hk1)
      as (c2 & Hk2 & Hv2).
    exists c2. split; [exact Hk2|]. auto.
Qed.

(** An iteration of the loop of [main] on such a block, when it is not an
    Init block, is a step of [fed]. *)
Lemma step_fed (junk : nat -> Z) (st : state) (raw rest : list Z) (k : nat) (x : Z) :
  input st = raw ++ rest -> length raw = 16%nat -> bytes_ok raw ->
  xor_bytes raw = 0 ->
  merge_block (header_of_bytes raw) ->
  has (flags (header_of_bytes raw)) BFLAG_INIT = false ->
  no_payload_overlap (set_input st rest) (header_of_bytes raw) ->
  (let '(before, c, _) := find_or_create (header_of_bytes raw) (chunk_list st) in
   length before = k ->
   written_byte (set_hdr (set_input st rest) (header_of_bytes raw)) c x = None) ->
  exists st', step junk st = Next st' /\ fed junk k x st st'.
Proof.
  intros Hin Hlen Hok Hx (Hh & F1 & F2 & F3) Hni Hno Hnw.
  rewrite (step_header junk st raw rest Hin Hlen Hok), Hx. cbn [Z.eqb].
  rewrite (read_header_eq st raw rest Hin Hlen).
  rewrite process_merge by assumption. simpl_state. rewrite Hni.
  eexists. split; [reflexivity|].
  eapply fed_block; [split; [exact Hh|auto]|exact Hno|exact Hnw|apply fed_done].
Qed.

(** C3, as the code has it. In a sequence of blocks given to the merge
    rule in which no range passes 2^32
    ([targetAddress + byteCount < 2^32]) and no block that is not a Fill
    block overlaps the end of its chunk (its chunk covers it, or it
    starts exactly where its chunk ends, or it starts a new chunk), the
    byte a chunk holds at an address [x] in the end is the one written by
    the last block that wrote [x], where
    - a block that its chunk already covers writes nothing: it is
      dropped, and the chunk keeps what it held (the earlier value, not
      the last);
    - a block that is not a Fill block and starts where its chunk ends
      writes payload byte [i], for the payload bytes on the input, at
      [targetAddress + i];
    - a Fill block that passes the end of a chunk that is not a Fill
      chunk, from the end of the chunk or from inside it, writes the
      bytes of its argument over the first [4 * (byteCount / 4)]
      addresses from [targetAddress], over what the chunk held there.
    The statement is for a block of the sequence (the header in
    [hdr st], the payload at the front of [input st]), the chunk [c] it
    is written into and the chunk [c'] in the same place of the list
    after the rest of the sequence, none of whose blocks writes [x] in
    that chunk. *)
Theorem merged_bytes_hold_the_last_write
    (junk : nat -> Z) (st st' : state)
    (before after : list chunk_list_type) (c : chunk_list_type) (x : Z) :
  merge_block (hdr st) -> Forall chunk_ok (chunk_list st) ->
  no_payload_overlap st (hdr st) ->
  find_or_create (hdr st) (chunk_list st) = (before, c, after) ->
  fed junk (length before) x (merge junk st) st' ->
  let h := hdr st in
  exists c',
    nth_error (chunk_list st') (length before) = Some c'
    /\ (forall v, written_byte st c x = Some v -> chunk_byte c' x = Some v)
    /\ (forall v, written_byte st c x = None -> chunk_byte c x = Some v ->
                  chunk_byte c' x = Some v)
    /\ (target_address h + byte_count h <= c_address c + c_length c ->
        forall v, chunk_byte c x = Some v -> chunk_byte c' x = Some v)
    /\ (has (flags h) BFLAG_FILL = false ->
        target_address h = c_address c + c_length c ->
        forall i, 0 <= i < byte_count h ->
                  (Z.to_nat i < length (input st))%nat ->
                  x = target_address h + i ->
                  chunk_byte c' x = nth_error (input st) (Z.to_nat i))
    /\ (has (flags h) BFLAG_FILL = true -> has (c_flags c) BFLAG_FILL = false ->
        c_address c + c_length c < target_address h + byte_count h ->
        forall i, 0 <= i < 4 * (byte_count h / 4) ->
                  x = target_address h + i ->
                  chunk_byte c' x
                  = nth_error (word_bytes (argument h)) (Z.to_nat (i mod 4))).
Proof.
  intros Hh Hok Hno Hf Hfed h. subst h.
  destruct (merge_step_writes junk st before after c x Hh Hok Hf Hno)
    as (c1 & Hlist & Hw & Hkeep).
  assert (Hk1 : nth_error (chunk_list (merge junk st)) (length before) = Some c1).
  { rewrite Hlist, nth_error_app2, Nat.sub_diag by lia. reflexivity. }
  destruct (fed_keeps_byte junk _ x _ _ Hfed c1 (merge_chunks_ok junk st Hh Hok) Hk1)
    as (c' & Hk' & Hlater).
  exists c'. split; [exact Hk'|].
  assert (Hwritten : forall v, written_byte st c x = Some v -> chunk_byte c' x = Some v)
    by auto.
  assert (Hkept : forall v, written_byte st c x = None -> chunk_byte c x = Some v ->
                            chunk_byte c' x = Some v) by auto.
  split; [exact Hwritten|]. split; [exact Hkept|].
  repeat apply conj.
  - intros Hcov v Hv. apply Hkept; [|exact Hv].
    unfold written_byte. cbv zeta.
    destruct (Z.leb_spec (target_address (hdr st) + byte_count (hdr st))
                (c_address c + c_length c)); [reflexivity|lia].
  - intros Hfl Hend i Hi Hlen ->.
    destruct (nth_error (input st) (Z.to_nat i)) as [v|] eqn:E;
      [|apply nth_error_None in E; lia].
    apply Hwritten. unfold written_byte. cbv zeta. rewrite Hfl.
    destruct (Z.leb_spec (target_address (hdr st) + byte_count (hdr st))
                (c_address c + c_length c)); [lia|].
    destruct (Z.leb_spec (target_address (hdr st)) (target_address (hdr st) + i));
      [|lia].
    destruct (Z.ltb_spec (target_address (hdr st) + i)
                (target_address (hdr st) + byte_count (hdr st))); [|lia].
    cbn [andb].
    replace (target_address (hdr st) + i - target_address (hdr st)) with i by lia.
    exact E.
  - intros Hfl Hcf Hpast i Hi ->.
    assert (Hm : 0 <= i mod 4 < 4) by (apply Z.mod_pos_bound; lia).
    destruct (nth_error (word_bytes (argument (hdr st))) (Z.to_nat (i mod 4)))
      as [v|] eqn:E;
      [|apply nth_error_None in E; rewrite length_word_bytes in E; lia].
    apply Hwritten. unfold written_byte. cbv zeta. rewrite Hfl, Hcf.
    destruct (Z.leb_spec (target_address (hdr st) + byte_count (hdr st))
                (c_address c + c_length c)); [lia|].
    destruct (Z.leb_spec (target_address (hdr st)) (target_address (hdr st) + i));
      [|lia].
    destruct (Z.ltb_spec (target_address (hdr st) + i)
                (target_address (hdr st) + 4 * (byte_count (hdr st) / 4))); [|lia].
    cbn [andb].
    replace (target_address (hdr st) + i - target_address (hdr st)) with i by lia.
    exact E.
Qed.

Lemma merged_bytes_hold_the_last_write_witness :
  let j := fun _ : nat => 0xEE in
  let st := mk_state [] [] [mk_chunk 0x1000 0 (Some [1; 2; 3; 4; 5; 6; 7; 8]) 8 0]
                     (mk_settings 0xAD 10 0x1234)
                     (mk_header 10 BFLAG_FILL 0 0xAD 0x1004 8 0x0A0B0C0D) 8 [] in
  let h2 := mk_header 10 0 0 0xAD 0x1000 4 0 in
  let h3 := mk_header 10 0 0 0xAD 0x100C 2 0 in
  let st' := merge j (set_hdr (set_input
               (merge j (set_hdr (set_input (merge j st) [9; 9; 9; 9]) h2)) [7; 7])
               h3) in
  exists c',
    nth_error (chunk_list st') 0 = Some c'
    /\ chunk_byte c' 0x1005 = Some 0x0C.
Proof.
  cbv zeta.
  destruct (merged_bytes_hold_the_last_write (fun _ => 0xEE)
              (mk_state [] [] [mk_chunk 0x1000 0 (Some [1; 2; 3; 4; 5; 6; 7; 8]) 8 0]
                        (mk_settings 0xAD 10 0x1234)
                        (mk_header 10 BFLAG_FILL 0 0xAD 0x1004 8 0x0A0B0C0D) 8 [])
              (merge (fun _ => 0xEE) (set_hdr (set_input
                 (merge (fun _ => 0xEE) (set_hdr (set_input
                    (merge (fun _ => 0xEE)
                       (mk_state [] []
                          [mk_chunk 0x1000 0 (Some [1; 2; 3; 4; 5; 6; 7; 8]) 8 0]
                          (mk_settings 0xAD 10 0x1234)
                          (mk_header 10 BFLAG_FILL 0 0xAD 0x1004 8 0x0A0B0C0D) 8 []))
                    [9; 9; 9; 9]) (mk_header 10 0 0 0xAD 0x1000 4 0))) [7; 7])
                 (mk_header 10 0 0 0xAD 0x100C 2 0)))
              [] [] (mk_chunk 0x1000 0 (Some [1; 2; 3; 4; 5; 6; 7; 8]) 8 0) 0x1005)
    as (c' & H1 & H2 & _).
  - split; [solve_fields_ok|repeat split].
  - cbn [chunk_list]. solve_chunks_ok.
  - split; [reflexivity|]. vm_compute. discriminate.
  - reflexivity.
  - apply (fed_block _ _ _ _ _ (mk_header 10 0 0 0xAD 0x1000 4 0) [9; 9; 9; 9]);
      [split; [solve_fields_ok|repeat split]| | |].
    + split; [reflexivity|]. vm_compute. intros _. left. discriminate.
    + vm_compute. reflexivity.
    + apply (fed_block _ _ _ _ _ (mk_header 10 0 0 0xAD 0x100C 2 0) [7; 7]);
        [split; [solve_fields_ok|repeat split]| | |apply fed_done].
      * split; [reflexivity|]. vm_compute. intros _. right. reflexivity.
      * vm_compute. reflexivity.
  - exists c'. split; [exact H1|]. apply H2. reflexivity.
Defined.

(** C3 as the spec states it fails: a block at 0x1000 with the payload
    1..8, then a Fill-only block at 0x1000 of 4 bytes with argument
    0xFFFFFFFF. The Fill block is taken by the chunk of the first block
    (no segregation: that chunk is not a Fill chunk), its range is
    covered, and the chunk keeps the bytes of the first block: the last
    write to address 0x1000 is 0xFF, the chunk written holds 1 there. *)
Lemma covered_write_keeps_the_first_value :
  let file := block BFLAG_FIRST 0x1234 0 0
              ++ block 0 0x1000 8 0 ++ [1; 2; 3; 4; 5; 6; 7; 8]
              ++ block BFLAG_FILL 0x1000 4 0xFFFFFFFF
              ++ block BFLAG_FINAL 0 0 0 in
  let r := main (fun _ => 0) (mk_settings 0 0 0) (mk_header 0 0 0 0 0 0 0) file in
  option_map (fun r => written (events r)) r
  = Some [[mk_chunk 0x1000 0 (Some [1; 2; 3; 4; 5; 6; 7; 8]) 8 0]]
  /\ ~ (exists r' c,
          r = Some r' /\ In c (concat (written (events r')))
          /\ chunk_byte c 0x1000 = Some 0xFF).
Proof.
  cbv zeta. split; [reflexivity|].
  intros (r' & c & H1 & H2 & H3).
  vm_compute in H1. injection H1 as <-.
  cbn in H2. destruct H2 as [<-|[]]. discriminate H3.
Qed.

(** C2 fails on the code for a block that is not a Fill block. The input
    holds a block at 0x1000 with 8 bytes, a block at 0x1000 with 4
    bytes (covered), a block at 0x1008 with 4 bytes and a Final block.
    The 4 payload bytes of the covered block are not skipped: the next
    header is read from them, its checksum fails and [main] returns -1
    without writing anything. Without the covered block the same input
    gives one chunk of 12 bytes and [main] returns 0. *)
Lemma covered_payload_is_read_as_a_header :
  let s0 := mk_settings 0 0 0 in
  let h0 := mk_header 0 0 0 0 0 0 0 in
  let front := block BFLAG_FIRST 0x1234 0 0
               ++ block 0 0x1000 8 0 ++ [1; 2; 3; 4; 5; 6; 7; 8] in
  let covered := block 0 0x1000 4 0 ++ [9; 9; 9; 8] in
  let back := block 0 0x1008 4 0 ++ [5; 6; 7; 8] ++ block BFLAG_FINAL 0 0 0 in
  main (fun _ => 0) s0 h0 (front ++ covered ++ back)
  = Some (mk_result (-1) [] [Warning 0x1000 0x1004])
  /\ option_map (fun r => (exit_status r, written (events r)))
                (main (fun _ => 0) s0 h0 (front ++ back))
     = Some (0, [[mk_chunk 0x1000 0 (Some [1; 2; 3; 4; 5; 6; 7; 8; 5; 6; 7; 8]) 12 0]]).
Proof. split; reflexivity. Qed.

(** ** Reading back an image *)

Lemma chunk_matches_ext (h h' : block_header_type) (c : chunk_list_type) :
  flags h = flags h' -> byte_count h = byte_count h' ->
  target_address h = target_address h' ->
  chunk_matches h c = chunk_matches h' c.
Proof. intros H1 H2 H3. unfold chunk_matches. now rewrite H1, H2, H3. Qed.

Lemma chunk_header_ok (s : image_settings_type) (c : chunk_list_type) :
  chunk_ok c -> header_ok (with_checksum (chunk_header s c)).
Proof.
  intros [Ha Harg Hl He Hf _ _ _ _]. unfold word_ok in *.
  apply header_ok_with_checksum;
    cbn [chunk_header bcode flags hdrsign target_address byte_count argument];
    unfold byte_ok, word_ok; try lia; apply Z.mod_pos_bound; lia.
Qed.

Section Replay.

Variable junk : nat -> Z.

(** A Fill block written into a Fill chunk (the chunk just created for
    it): the length grows, no buffer is made. *)
Lemma extend_fill_chunk (st : state) (c : chunk_list_type) :
  header_ok (hdr st) -> chunk_ok c ->
  has (flags (hdr st)) BFLAG_FILL = true -> has (c_flags c) BFLAG_FILL = true ->
  target_address (hdr st) = c_address c + c_length c ->
  0 < byte_count (hdr st) ->
  target_address (hdr st) + byte_count (hdr st) < 2 ^ 32 ->
  extend junk st c
  = (st, mk_chunk (c_address c) (c_argument c) (c_data c)
                  (c_length c + byte_count (hdr st)) (c_flags c)).
Proof.
  intros [_ _ _ _ Ht Hn _] [Ha _ Hl He _ _ _ _ _] Hfl Hcf Hend Hpos Hwrap.
  unfold word_ok in *. unfold extend. rewrite Hfl, Hcf. cbn [negb].
  rewrite (wrap32_small (target_address _ + _)), (wrap32_small (c_address c + _)) by lia.
  destruct (Z.ltb_spec (c_address c + c_length c)
              (target_address (hdr st) + byte_count (hdr st))); [|lia].
  replace (target_address (hdr st) + byte_count (hdr st) - (c_address c + c_length c))
    with (byte_count (hdr st)) by lia.
  unfold grow. rewrite (wrap32_small (byte_count (hdr st))) by lia.
  rewrite wrap32_small by lia. reflexivity.
Qed.

(** Reading the block [write_image] wrote for the chunk [c], when no
    chunk of the list takes it: the chunk is rebuilt after the chunks of
    the list, and the list is written if the chunk is an Init chunk. *)
Lemma chunk_rebuilt (c : chunk_list_type) (d : option (list Z)) (l : Z) :
  c_data c = d -> c_length c = l ->
  mk_chunk (c_address c) (c_argument c) d l (c_flags c) = c.
Proof. intros <- <-. destruct c; reflexivity. Qed.

Lemma replay_chunk (st : state) (s : image_settings_type) (c : chunk_list_type)
    (rest : list Z) :
  chunk_ok c ->
  Forall (fun c' => chunk_matches (replayed c) c' = false) (chunk_list st) ->
  input st = chunk_block s c ++ rest ->
  exists st1,
    step junk st = Next (if has (c_flags c) BFLAG_INIT then flush st1 else st1)
    /\ input st1 = rest /\ output st1 = output st
    /\ chunk_list st1 = chunk_list st ++ [c]
    /\ settings st1 = settings st /\ trace st1 = trace st.
Proof.
  intros Hc Hno Hin.
  pose proof (chunk_header_ok s c Hc) as Hh.
  unfold chunk_block in Hin. rewrite <- app_assoc in Hin.
  rewrite (step_written_header junk st _ _ Hh Hin).
  set (h := with_checksum (chunk_header s c)) in *.
  set (st0 := set_hdr _ h).
  assert (Efl : flags h = c_flags c).
  { destruct Hc as [_ _ _ _ Hf _ _ _ _]. unfold h. cbn. apply Z.mod_small. exact Hf. }
  assert (Et : target_address h = c_address c) by reflexivity.
  assert (En : byte_count h = c_length c) by reflexivity.
  assert (Ea : argument h = c_argument c) by reflexivity.
  pose proof Hc as [Ha Harg Hl He Hf F1 F2 F3 Hd].
  rewrite process_merge by (unfold st0; simpl_state; rewrite Efl; assumption).
  replace (flags (hdr st0)) with (c_flags c) by (symmetry; exact Efl).
  assert (Hfind : find_or_create h (chunk_list st)
                  = (chunk_list st, mk_chunk (c_address c) (c_argument c) None 0
                                              (c_flags c), [])).
  { unfold find_or_create. rewrite scan_no_match.
    - unfold new_chunk. now rewrite Efl, Et, Ea.
    - eapply Forall_impl; [|exact Hno]. intros c' Hc'.
      rewrite <- Hc'. apply chunk_matches_ext; assumption. }
  set (c0 := mk_chunk (c_address c) (c_argument c) None 0 (c_flags c)) in *.
  assert (Hc0 : chunk_ok c0).
  { constructor; cbn [c0 c_address c_argument c_data c_length c_flags];
      try assumption; unfold word_ok in *; try lia. }
  rewrite (merge_unfold junk st0 (chunk_list st) [] c0) by exact Hfind.
  assert (Hext : exists st1,
             extend junk st0 c0 = (st1, c) /\ input st1 = rest
             /\ output st1 = output st /\ settings st1 = settings st
             /\ trace st1 = trace st).
  { unfold word_ok in *.
    destruct (Z.eq_dec (c_length c) 0) as [E0|Hpos].
    - (* an empty chunk *)
      rewrite extend_covered; try assumption;
        [|unfold st0; simpl_state; rewrite Et, En; cbn [c0 c_address c_length]; lia].
      unfold st0 at 1. simpl_state. rewrite En, E0. cbn [Z.eqb].
      destruct (c_data c) as [buf|] eqn:Ed; [lia|].
      exists st0. split.
      + f_equal. unfold c0. apply chunk_rebuilt; [exact Ed|lia].
      + unfold st0. simpl_state. cbn [app]. auto.
    - destruct (has (c_flags c) BFLAG_FILL) eqn:Hcf.
      + (* a Fill chunk *)
        rewrite extend_fill_chunk; try assumption;
          unfold st0; simpl_state; rewrite ?Efl, ?Et, ?En;
          cbn [c0 c_address c_length c_flags c_data c_argument]; try lia; try assumption.
        destruct (c_data c) as [buf|] eqn:Ed; [destruct Hd as (_ & _ & Hd); congruence|].
        exists st0. split.
        * f_equal. apply chunk_rebuilt; [exact Ed|lia].
        * unfold st0. simpl_state. cbn [app]. auto.
      + (* a chunk with data *)
        destruct (c_data c) as [buf|] eqn:Ed; [|destruct Hd; [congruence|lia]].
        destruct Hd as (Hlen & _ & _).
        rewrite extend_append_payload; try assumption;
          unfold st0; simpl_state; rewrite ?Efl, ?Et, ?En;
          cbn [c0 c_address c_length c_flags c_data c_argument]; try lia; try assumption.
        * eexists. split.
          -- apply f_equal2; [reflexivity|].
             unfold buffer. cbn [c_data app].
             rewrite <- Hlen. rewrite firstn_exact by reflexivity.
             apply chunk_rebuilt; [exact Ed|lia].
          -- simpl_state. repeat apply conj; try reflexivity.
             rewrite <- Hlen. now rewrite skipn_exact.
        * rewrite length_app. lia. }
  destruct Hext as (st1 & -> & H1 & H2 & H3 & H4). simpl_state.
  exists (set_chunk_list st1 (chunk_list st ++ [c])). simpl_state.
  repeat apply conj; auto.
Qed.

End Replay.

Lemma chunk_ok_sized (c : chunk_list_type) : chunk_ok c -> chunk_sized c.
Proof.
  intros [_ _ _ _ _ _ _ _ Hd] buf E. rewrite E in Hd. tauto.
Qed.

Lemma written_snoc (t : list event) (l : list chunk_list_type) (s : image_settings_type) :
  written (t ++ [Written l s]) = written t ++ [l].
Proof. now rewrite written_app. Qed.

Lemma seen_flush (st : state) :
  chunk_list (flush st) = [] /\ written (trace (flush st)) = seen st.
Proof.
  unfold flush, seen, pending. destruct (chunk_list st) as [|c l] eqn:E.
  - rewrite E, app_nil_r. auto.
  - simpl_state. rewrite written_snoc. auto.
Qed.

Section ReplayImage.

Variable junk : nat -> Z.

Lemma steps_app (n m : nat) (st st1 st2 : state) :
  steps junk n st = Some st1 -> steps junk m st1 = Some st2 ->
  steps junk (n + m) st = Some st2.
Proof.
  revert st. induction n as [|n IH]; intros st; cbn [steps Nat.add].
  - now intros [= ->].
  - destruct (step junk st); try discriminate. apply IH.
Qed.

(** Reading the blocks of the chunks [post], with the chunks [pre] in
    the list: the list becomes [pre ++ post], written at once when its
    last chunk is an Init chunk. *)
Lemma replay_chunks (s : image_settings_type) (post : list chunk_list_type) :
  forall (st : state) (rest : list Z),
    post <> [] ->
    Forall chunk_ok post -> Forall no_init (removelast post) ->
    stable_after (chunk_list st) post ->
    input st = concat (map (chunk_block s) post) ++ rest ->
    exists n st',
      steps junk n st = Some st' /\ input st' = rest
      /\ seen st' = written (trace st) ++ [chunk_list st ++ post].
Proof.
  induction post as [|c post IH]; intros st rest Hne Hok Hinit Hst Hin; [congruence|].
  apply Forall_cons_iff in Hok. destruct Hok as (Hc & Hok).
  cbn [stable_after] in Hst. destruct Hst as (Hno & Hst).
  cbn [map concat] in Hin. rewrite <- app_assoc in Hin.
  destruct (replay_chunk junk st s c _ Hc Hno Hin) as (st1 & Hs & H1 & H2 & H3 & H4 & H5).
  destruct post as [|c2 post].
  - (* the last chunk of the image *)
    exists 1%nat. cbn [steps]. rewrite Hs. eexists. split; [reflexivity|].
    cbn [map concat app] in H1.
    destruct (has (c_flags c) BFLAG_INIT).
    + destruct (seen_flush st1) as (E1 & E2).
      destruct (flush_fields st1) as (-> & _).
      split; [exact H1|].
      unfold seen at 1. unfold pending. rewrite E1, E2, app_nil_r.
      unfold seen, pending. rewrite H3, H5.
      destruct (chunk_list st ++ [c]) eqn:E; [destruct (chunk_list st); discriminate|].
      reflexivity.
    + split; [exact H1|].
      unfold seen, pending. rewrite H3, H5.
      destruct (chunk_list st ++ [c]) eqn:E; [destruct (chunk_list st); discriminate|].
      reflexivity.
  - (* more chunks follow: the chunk is not an Init chunk *)
    cbn [removelast] in Hinit. apply Forall_cons_iff in Hinit.
    destruct Hinit as (Hni & Hinit). unfold no_init in Hni. rewrite Hni in Hs.
    rewrite <- H3 in Hst.
    destruct (IH st1 rest ltac:(discriminate) Hok Hinit Hst H1) as (n & st' & S1 & S2 & S3).
    exists (S n), st'. cbn [steps]. rewrite Hs.
    repeat apply conj; try assumption.
    rewrite S3, H3, H5, <- app_assoc. reflexivity.
Qed.

End ReplayImage.

Lemma stable_after_of_stable (post : list chunk_list_type) :
  forall pre,
    Forall chunk_ok (pre ++ post) ->
    (forall before c after,
        pre ++ post = before ++ c :: after -> (length pre <= length before)%nat ->
        mergeable (replayed c) ->
        Forall (fun c' => ~ accepts c' (replayed c)) before) ->
    stable_after pre post.
Proof.
  induction post as [|c post IH]; intros pre Hok H; cbn [stable_after]; [exact I|].
  split.
  - rewrite Forall_forall. intros c' Hin.
    destruct (chunk_matches (replayed c) c') eqn:E; [|reflexivity].
    apply Forall_app in Hok. destruct Hok as (Hok & _).
    rewrite Forall_forall in Hok.
    apply (chunk_matches_iff _ _ (Hok c' Hin)) in E. destruct E as (Hm & Ha).
    specialize (H pre c post eq_refl (Nat.le_refl _) Hm).
    rewrite Forall_forall in H. destruct (H c' Hin Ha).
  - apply IH.
    + rewrite <- app_assoc. exact Hok.
    + intros before c0 after E Hlen. apply (H before c0 after).
      * rewrite <- app_assoc in E. exact E.
      * rewrite length_app in Hlen. lia.
Qed.

Lemma stable_stable_after (chunks : list chunk_list_type) :
  Forall chunk_ok chunks -> stable chunks -> stable_after [] chunks.
Proof.
  intros Hok Hst. apply stable_after_of_stable; [exact Hok|].
  intros before c after E _. apply (Hst before c after E).
Qed.

Section Idempotence.

Variable junk : nat -> Z.

(** Reading back one image: the chunk list it was written from is seen
    again, after the lists seen so far. *)
Lemma replay_image (st : state) (chunks : list chunk_list_type)
    (s : image_settings_type) (rest : list Z) :
  event_ok (Written chunks s) -> stable chunks ->
  input st = write_image [] chunks s ++ rest ->
  exists n st',
    steps junk n st = Some st' /\ input st' = rest
    /\ seen st' = seen st ++ [chunks].
Proof.
  intros (Hne & Hok & Hinit & [_ _ Hentry]) Hst Hin.
  apply (stable_stable_after chunks Hok) in Hst.
  rewrite write_image_blocks in Hin
    by (eapply Forall_impl; [|exact Hok]; apply chunk_ok_sized).
  cbn [app] in Hin. rewrite <- app_assoc in Hin.
  set (h := mk_header _ _ _ _ _ _ _) in Hin.
  assert (Hh : header_ok (with_checksum h)).
  { apply header_ok_with_checksum; unfold h;
      cbn [bcode flags hdrsign target_address byte_count argument];
      unfold byte_ok, word_ok; try (apply Z.mod_pos_bound; lia);
      try exact Hentry; try apply wrap32_range; try (cbn; lia). }
  pose proof (step_written_header junk st h _ Hh Hin) as Hs.
  set (st0 := set_hdr _ _) in Hs.
  rewrite process_first in Hs by reflexivity.
  set (st1 := set_settings _ _) in Hs.
  destruct (seen_flush st0) as (E1 & E2).
  destruct (flush_fields st0) as (E3 & _).
  assert (Hst1 : stable_after (chunk_list st1) chunks).
  { unfold st1. simpl_state. rewrite E1. exact Hst. }
  assert (Hin1 : input st1 = concat (map (chunk_block s) chunks) ++ rest).
  { unfold st1. simpl_state. rewrite E3. reflexivity. }
  destruct (replay_chunks junk s chunks st1 rest Hne Hok Hinit Hst1 Hin1)
    as (n & st' & S1 & S2 & S3).
  exists (S n), st'. cbn [steps]. rewrite Hs.
  repeat apply conj; try assumption.
  rewrite S3. unfold st1. simpl_state. rewrite E1, E2. reflexivity.
Qed.

(** Reading back the images of a trace. *)
Lemma replay_trace (evs : list event) :
  forall (st : state) (rest : list Z),
    Forall event_ok evs -> Forall stable (written evs) ->
    input st = trace_bytes evs ++ rest ->
    exists n st',
      steps junk n st = Some st' /\ input st' = rest
      /\ seen st' = seen st ++ written evs.
Proof.
  induction evs as [|[chunks s|a b] evs IH]; intros st rest Hok Hst Hin.
  - exists 0%nat, st. cbn [steps written]. rewrite app_nil_r. auto.
  - apply Forall_cons_iff in Hok. destruct Hok as (He & Hok).
    cbn [written] in Hst. apply Forall_cons_iff in Hst. destruct Hst as (Hs1 & Hst).
    cbn [trace_bytes] in Hin. rewrite <- app_assoc in Hin.
    destruct (replay_image st chunks s _ He Hs1 Hin) as (n & st1 & S1 & S2 & S3).
    destruct (IH st1 rest Hok Hst S2) as (m & st2 & T1 & T2 & T3).
    exists (n + m)%nat, st2. split; [eapply steps_app; eassumption|].
    split; [exact T2|]. rewrite T3, S3, <- app_assoc. reflexivity.
  - apply Forall_cons_iff in Hok. destruct Hok as (_ & Hok).
    apply (IH st rest Hok Hst Hin).
Qed.

(** Reading the Final block [main] ends its output with. *)
Lemma replay_final (st : state) (h : block_header_type) :
  header_ok (with_checksum h) -> flags h = BFLAG_FINAL ->
  input st = header_bytes (with_checksum h) ->
  exists r,
    loop junk (S (length (input st))) st = Some r
    /\ exit_status r = 0 /\ written (events r) = seen st.
Proof.
  intros Hh Hfl Hin.
  assert (Hin' : input st = header_bytes (with_checksum h) ++ [])
    by (now rewrite app_nil_r).
  cbn [loop]. rewrite (step_written_header junk st h [] Hh Hin').
  set (st0 := set_hdr _ _).
  rewrite process_final
    by (unfold st0; simpl_state;
        change (flags (with_checksum h)) with (flags h); rewrite Hfl; reflexivity).
  eexists. split; [reflexivity|].
  unfold finish. rewrite write_header_app. cbn [exit_status events].
  split; [reflexivity|]. destruct (seen_flush st0) as (_ & ->). reflexivity.
Qed.

(** A run that returns 0 left the loop in a state that keeps the
    invariant. *)
Lemma loop_exit_ok (fuel : nat) :
  forall (st : state) (r : result),
    state_ok st -> loop junk fuel st = Some r -> exit_status r = 0 ->
    exists st', state_ok st' /\ r = finish st'.
Proof.
  induction fuel as [|fuel IH]; intros st r Hst Hl Hx; [discriminate|].
  cbn [loop] in Hl. pose proof (step_ok junk st Hst) as Hs.
  destruct (step junk st) as [st'|st'|st'].
  - eapply IH; eassumption.
  - injection Hl as <-. eauto.
  - injection Hl as <-. discriminate Hx.
Qed.

End Idempotence.

Lemma finish_eq (st : state) :
  finish st
  = mk_result 0
      (output st
       ++ header_bytes
            (with_checksum
               (set_block (hdr st) BFLAG_FINAL 0 0 (entry_point (settings st)))))
      (trace st).
Proof. reflexivity. Qed.

(** C8, as the code has it. When a run on an input file returns 0 and no
    chunk of a list it wrote would itself be merged into an earlier chunk
    of that list (it is not a block without flags other than FILL, of at
    most 256 bytes if FILL, whose address is in the closed interval of an
    earlier chunk that is not a Fill chunk), a run on the output file
    returns 0 and writes the same chunk lists: same addresses, lengths,
    flags, arguments and data, in the same order. *)
Theorem second_run_writes_the_same_chunks
    (junk junk' : nat -> Z) (settings0 settings0' : image_settings_type)
    (hdr0 hdr0' : block_header_type) (file : list Z) (r : result) :
  bytes_ok file -> settings_ok settings0 -> header_ok hdr0 ->
  main junk settings0 hdr0 file = Some r ->
  exit_status r = 0 ->
  Forall stable (written (events r)) ->
  exists r',
    main junk' settings0' hdr0' (out_file r) = Some r'
    /\ exit_status r' = 0
    /\ written (events r') = written (events r).
Proof.
  intros Hfile Hs0 Hh0 Hmain Hexit Hstable.
  destruct (loop_exit_ok junk _ _ _ (initial_ok _ _ _ Hfile Hs0 Hh0) Hmain Hexit)
    as (st & Hst & ->).
  rewrite finish_eq in *. cbn [out_file events] in *.
  destruct Hst as [_ [_ _ Hentry] [Hb _ _ Hsg _ _ _] _ _ Htr Hout].
  set (h := set_block _ _ _ _ _).
  assert (Hh : header_ok (with_checksum h)).
  { apply header_ok_with_checksum; unfold h;
      cbn [set_block bcode flags hdrsign target_address byte_count argument];
      unfold word_ok; try assumption; try (cbn; lia). }
  rewrite Hout.
  destruct (replay_trace junk' (trace st)
              (initial settings0' hdr0' (trace_bytes (trace st)
                                         ++ header_bytes (with_checksum h)))
              (header_bytes (with_checksum h)) Htr Hstable eq_refl)
    as (n & st2 & S1 & S2 & S3).
  rewrite (main_steps junk' _ _ _ _ _ S1).
  destruct (replay_final junk' st2 h Hh eq_refl S2) as (r' & R1 & R2 & R3).
  exists r'. repeat apply conj; try assumption.
  rewrite R3, S3. reflexivity.
Qed.

Lemma second_run_writes_the_same_chunks_witness :
  let data := mk_chunk 0x1000 0 (Some [1; 2; 3; 4]) 4 0 in
  let fill := mk_chunk 0x2000 0xFFFFFFFF None 1024 BFLAG_FILL in
  let out := block (Z.lor BFLAG_IGNORE BFLAG_FIRST) 0x1234 0 52
             ++ block 0 0x1000 4 0 ++ [1; 2; 3; 4]
             ++ block BFLAG_FILL 0x2000 1024 0xFFFFFFFF
             ++ block BFLAG_FINAL 0x1234 0 0 in
  exists r',
    main (fun _ => 1) (mk_settings 7 7 7) (mk_header 0 0 0 0 0 0 0) out = Some r'
    /\ exit_status r' = 0
    /\ written (events r') = [[data; fill]].
Proof.
  cbv zeta.
  apply (second_run_writes_the_same_chunks (fun _ => 0) (fun _ => 1)
           (mk_settings 0 0 0) (mk_settings 7 7 7)
           (mk_header 0 0 0 0 0 0 0) (mk_header 0 0 0 0 0 0 0)
           (block BFLAG_FIRST 0x1234 0 0
            ++ block 0 0x1000 4 0 ++ [1; 2; 3; 4]
            ++ block BFLAG_FILL 0x2000 1024 0xFFFFFFFF
            ++ block BFLAG_FINAL 0 0 0)
           (mk_result 0
              (block (Z.lor BFLAG_IGNORE BFLAG_FIRST) 0x1234 0 52
               ++ block 0 0x1000 4 0 ++ [1; 2; 3; 4]
               ++ block BFLAG_FILL 0x2000 1024 0xFFFFFFFF
               ++ block BFLAG_FINAL 0x1234 0 0)
              [Written [mk_chunk 0x1000 0 (Some [1; 2; 3; 4]) 4 0;
                        mk_chunk 0x2000 0xFFFFFFFF None 1024 BFLAG_FILL]
                       (mk_settings 0xAD 10 0x1234)])).
  - vm_compute. repeat constructor; discriminate.
  - solve_fields_ok.
  - solve_fields_ok.
  - reflexivity.
  - reflexivity.
  - cbn [events written]. constructor; [|constructor].
    intros before c after E Hm.
    destruct before as [|c1 [|c2 [|c3 before]]]; cbn [app] in E.
    + constructor.
    + injection E as <- <- <-. destruct Hm as (_ & Hm).
      specialize (Hm eq_refl). vm_compute in Hm. congruence.
    + injection E as _ _ E. discriminate E.
    + injection E as _ _ E. destruct before; discriminate E.
Defined.

(** C8 as the spec states it fails: blocks at 0x1000, 0x1008 and 0x1004,
    4 bytes each. The first run merges the third block into the first
    and writes two chunks, 0x1000 (8 bytes) and 0x1008 (4 bytes); the run
    on its output merges the second chunk into the first and writes one
    chunk of 12 bytes. *)
Lemma second_run_merges_further :
  let s0 := mk_settings 0 0 0 in
  let h0 := mk_header 0 0 0 0 0 0 0 in
  let file := block BFLAG_FIRST 0x1234 0 0
              ++ block 0 0x1000 4 0 ++ [1; 2; 3; 4]
              ++ block 0 0x1008 4 0 ++ [9; 10; 11; 12]
              ++ block 0 0x1004 4 0 ++ [5; 6; 7; 8]
              ++ block BFLAG_FINAL 0 0 0 in
  option_map (fun r => (exit_status r, written (events r)))
             (main (fun _ => 0) s0 h0 file)
  = Some (0, [[mk_chunk 0x1000 0 (Some [1; 2; 3; 4; 5; 6; 7; 8]) 8 0;
               mk_chunk 0x1008 0 (Some [9; 10; 11; 12]) 4 0]])
  /\ ~ (exists r r',
          main (fun _ => 0) s0 h0 file = Some r
          /\ main (fun _ => 0) s0 h0 (out_file r) = Some r'
          /\ written (events r') = written (events r)).
Proof.
  cbv zeta. split; [reflexivity|].
  intros (r & r' & H1 & H2 & H3).
  vm_compute in H1. injection H1 as <-.
  vm_compute in H2. injection H2 as <-.
  discriminate H3.
Qed.

(** The proviso on the exit status is needed as well: a first run that
    stops on a checksum failure has written its images but no Final
    block, and the run on its output reaches the end of the file with
    the last chunk list still in memory. *)
Lemma second_run_after_a_failure_drops_the_last_list :
  let s0 := mk_settings 0 0 0 in
  let h0 := mk_header 0 0 0 0 0 0 0 in
  let file := block BFLAG_FIRST 0x1234 0 0
              ++ block 0 0x1000 4 0 ++ [1; 2; 3; 4]
              ++ block BFLAG_FIRST 0x5678 0 0
              ++ repeat 0x5A 15 ++ [1] in
  let out := block (Z.lor BFLAG_IGNORE BFLAG_FIRST) 0x1234 0 36
             ++ block 0 0x1000 4 0 ++ [1; 2; 3; 4] in
  option_map (fun r => (exit_status r, out_file r, written (events r)))
             (main (fun _ => 0) s0 h0 file)
  = Some (-1, out, [[mk_chunk 0x1000 0 (Some [1; 2; 3; 4]) 4 0]])
  /\ option_map (fun r => (exit_status r, written (events r)))
                (main (fun _ => 0) s0 h0 out)
     = Some (0, []).
Proof. split; reflexivity. Qed.

(** ** The scenarios of the spec, run on the model *)

(** Scenario A: two contiguous blocks become one chunk. *)
Example scenario_A :
  example_run (block BFLAG_FIRST 0x1234 0 0
       ++ block 0 0x1000 4 0 ++ [1; 2; 3; 4]
       ++ block 0 0x1004 4 0 ++ [5; 6; 7; 8]
       ++ block BFLAG_FINAL 0 0 0)
  = Some (0, [[mk_chunk 0x1000 0 (Some [1; 2; 3; 4; 5; 6; 7; 8]) 8 0]]).
Proof. reflexivity. Qed.

(** Scenario C: a Fill block of 1024 bytes keeps no data buffer. *)
Example scenario_C :
  example_run (block BFLAG_FIRST 0x1234 0 0
       ++ block BFLAG_FILL 0x2000 1024 0xFFFFFFFF
       ++ block BFLAG_FINAL 0 0 0)
  = Some (0, [[mk_chunk 0x2000 0xFFFFFFFF None 1024 BFLAG_FILL]]).
Proof. reflexivity. Qed.

(** Scenario D: an Init block has the list written right after it. *)
Example scenario_D :
  example_run (block BFLAG_FIRST 0x1234 0 0
       ++ block BFLAG_INIT 0x3000 2 0 ++ [1; 2]
       ++ block 0 0x3002 2 0 ++ [3; 4]
       ++ block BFLAG_FINAL 0 0 0)
  = Some (0, [[mk_chunk 0x3000 0 (Some [1; 2]) 2 BFLAG_INIT];
              [mk_chunk 0x3002 0 (Some [3; 4]) 2 0]]).
Proof. reflexivity. Qed.

(** A small Fill block that follows a data block is unrolled into its
    chunk; with a byte count of 6 the last two bytes of the buffer are
    the bytes [realloc] left there (0xEE in this run). *)
Example fill_unrolled_into_a_data_chunk :
  example_run (block BFLAG_FIRST 0x1234 0 0
       ++ block 0 0x1000 4 0 ++ [1; 2; 3; 4]
       ++ block BFLAG_FILL 0x1004 6 0x0D0C0B0A
       ++ block BFLAG_FINAL 0 0 0)
  = Some (0, [[mk_chunk 0x1000 0
                 (Some [1; 2; 3; 4; 0x0A; 0x0B; 0x0C; 0x0D; 0xEE; 0xEE]) 10 0]]).
Proof. reflexivity. Qed.

(** A block that overlaps the end of its chunk: only the overhang (4 of
    the 8 payload bytes) is read, at the offset of the block; the rest of
    the payload stays on the input and is read as the next header, whose
    checksum fails here. *)
Example partial_overlap_leaves_payload_on_the_input :
  example_main
       (block BFLAG_FIRST 0x1234 0 0
        ++ block 0 0x1000 8 0 ++ [1; 2; 3; 4; 5; 6; 7; 8]
        ++ block 0 0x1004 8 0 ++ [11; 12; 13; 14; 15; 16; 17; 18]
        ++ block BFLAG_FINAL 0 0 0)
  = Some (mk_result (-1) [] [])
  /\ option_map chunk_list
       (steps (fun _ => 0xEE) 3
          (initial (mk_settings 0 0 0) (mk_header 0 0 0 0 0 0 0)
             (block BFLAG_FIRST 0x1234 0 0
              ++ block 0 0x1000 8 0 ++ [1; 2; 3; 4; 5; 6; 7; 8]
              ++ block 0 0x1004 8 0 ++ [11; 12; 13; 14; 15; 16; 17; 18]
              ++ block BFLAG_FINAL 0 0 0)))
     = Some [mk_chunk 0x1000 0
               (Some [1; 2; 3; 4; 11; 12; 13; 14; 0xEE; 0xEE; 0xEE; 0xEE]) 12 0].
Proof. split; reflexivity. Qed.

(** * Further properties of the program *)

(** ** Headers *)

(** X1. A header whose fields fit their widths is laid out in 16 bytes
    and read back from them unchanged: every field, the 4-bit bcode and
    the 12-bit flags that share the first two bytes included, survives
    the way through the file. *)
Theorem header_fields_survive_the_file (h : block_header_type) :
  header_ok h ->
  length (header_bytes h) = 16%nat /\ bytes_ok (header_bytes h)
  /\ header_of_bytes (header_bytes h) = h.
Proof.
  intros Hh. split; [reflexivity|]. split; [apply header_bytes_ok|].
  apply header_of_bytes_of_header. exact Hh.
Qed.

Lemma header_fields_survive_the_file_witness :
  header_of_bytes (header_bytes (mk_header 10 0x810 0x37 0xAD 0xFFA00000 0x104 0xDEADBEEF))
  = mk_header 10 0x810 0x37 0xAD 0xFFA00000 0x104 0xDEADBEEF.
Proof.
  apply (header_fields_survive_the_file
           (mk_header 10 0x810 0x37 0xAD 0xFFA00000 0x104 0xDEADBEEF)).
  solve_fields_ok.
Defined.

(** X2. Whatever the header holds, its checksum field included,
    [write_header] appends exactly 16 bytes whose XOR is zero, so the
    header passes the checksum test of [main] when it is read again; of
    the structure it changes the checksum field only. *)
Theorem written_header_passes_the_checksum (handle : list Z) (h : block_header_type) :
  exists raw,
    fst (write_header handle h) = handle ++ raw
    /\ length raw = 16%nat /\ bytes_ok raw /\ xor_bytes raw = 0
    /\ calc_header_checksum (header_of_bytes raw) = 0
    /\ set_hdrchk (snd (write_header handle h)) 0 = set_hdrchk h 0.
Proof.
  destruct (write_header_checksum handle h) as (raw & H1 & H2 & H3 & H4).
  exists raw. repeat apply conj; try assumption.
  - rewrite calc_header_checksum_of_bytes; assumption.
  - unfold write_header, set_hdrchk;
      cbn [snd bcode flags hdrchk hdrsign target_address byte_count argument].
    reflexivity.
Qed.

(** ** The loop of [main] *)

Lemma steps_consume (junk : nat -> Z) (n : nat) (st st' : state) :
  steps junk n st = Some st' ->
  (16 * n + length (input st') <= length (input st))%nat.
Proof.
  revert st. induction n as [|n IH]; intros st; cbn [steps].
  - intros [= ->]. lia.
  - destruct (step junk st) as [st1| |] eqn:Hs; try discriminate.
    intros H. apply IH in H. apply step_consumes in Hs. lia.
Qed.

Lemma loop_exit_status (junk : nat -> Z) (fuel : nat) (st : state) (r : result) :
  loop junk fuel st = Some r -> exit_status r = 0 \/ exit_status r = -1.
Proof.
  revert st. induction fuel as [|fuel IH]; intros st; cbn [loop]; [discriminate|].
  destruct (step junk st) as [st'|st'|st'].
  - apply IH.
  - intros [= <-]. left. now rewrite finish_eq.
  - intros [= <-]. right. reflexivity.
Qed.

(** X3. [main] returns on every input file, with 0 or -1: an iteration
    that goes round again has consumed at least the 16 bytes of a header,
    so after [n] such iterations at least [16 * n] bytes of the file are
    gone and the loop ends within [length file / 16 + 1] iterations. *)
Theorem main_terminates
    (junk : nat -> Z) (settings0 : image_settings_type) (hdr0 : block_header_type)
    (file : list Z) :
  (exists r, main junk settings0 hdr0 file = Some r
             /\ (exit_status r = 0 \/ exit_status r = -1))
  /\ (forall n st, steps junk n (initial settings0 hdr0 file) = Some st ->
                   (16 * n + length (input st) <= length file)%nat).
Proof.
  split.
  - destruct (main_returns junk settings0 hdr0 file) as [r Hr].
    exists r. split; [exact Hr|]. exact (loop_exit_status _ _ _ _ Hr).
  - intros n st H. apply steps_consume in H. exact H.
Qed.

Lemma main_terminates_witness :
  exists r,
    main (fun _ => 0) (mk_settings 0 0 0) (mk_header 0 0 0 0 0 0 0)
         (block BFLAG_FIRST 0x1234 0 0 ++ repeat 0x5A 15 ++ [1; 2; 3])
    = Some r
    /\ (exit_status r = 0 \/ exit_status r = -1).
Proof.
  destruct (main_terminates (fun _ => 0) (mk_settings 0 0 0) (mk_header 0 0 0 0 0 0 0)
              (block BFLAG_FIRST 0x1234 0 0 ++ repeat 0x5A 15 ++ [1; 2; 3]))
    as (H & _).
  exact H.
Defined.

(** However the loop is left, it is left in a state that keeps the
    invariant. *)
Lemma loop_exit (junk : nat -> Z) (fuel : nat) :
  forall (st : state) (r : result),
    state_ok st -> loop junk fuel st = Some r ->
    exists st', state_ok st'
                /\ (r = finish st' \/ r = mk_result (-1) (output st') (trace st')).
Proof.
  induction fuel as [|fuel IH]; intros st r Hst Hl; [discriminate|].
  cbn [loop] in Hl. pose proof (step_ok junk st Hst) as Hs.
  destruct (step junk st) as [st'|st'|st'].
  - eapply IH; eassumption.
  - injection Hl as <-. eauto.
  - injection Hl as <-. eauto.
Qed.

(** The header that ends the output file. *)
Lemma final_header (st : state) :
  state_ok st ->
  let raw := header_bytes
               (with_checksum
                  (set_block (hdr st) BFLAG_FINAL 0 0 (entry_point (settings st)))) in
  length raw = 16%nat /\ xor_bytes raw = 0
  /\ flags (header_of_bytes raw) = BFLAG_FINAL
  /\ target_address (header_of_bytes raw) = entry_point (settings st)
  /\ byte_count (header_of_bytes raw) = 0
  /\ argument (header_of_bytes raw) = 0
  /\ bcode (header_of_bytes raw) = bcode (hdr st)
  /\ hdrsign (header_of_bytes raw) = hdrsign (hdr st).
Proof.
  intros [_ [_ _ He] [B1 B2 B3 B4 B5 B6 B7] _ _ _ _]. cbv zeta.
  set (h := set_block _ _ _ _ _).
  assert (Hh : header_ok h).
  { unfold h, word_ok in *.
    constructor; cbn [set_block bcode flags hdrchk hdrsign target_address
                      byte_count argument]; unfold word_ok; try assumption; try lia.
    apply Z.mod_pos_bound. lia. }
  destruct (header_of_with_checksum h Hh) as (H1 & H2 & H3 & H4 & H5 & H6).
  split; [reflexivity|]. split; [apply xor_with_checksum|].
  repeat apply conj; assumption.
Qed.

(** ** The output file is a sequence of whole blocks *)

Lemma stream_app (a b : list Z) :
  block_stream a -> block_stream b -> block_stream (a ++ b).
Proof.
  induction 1 as [|raw payload rest H1 H2 H3 _ IH]; intros Hb; [exact Hb|].
  rewrite <- !app_assoc. apply stream_block; auto.
Qed.

(** A header as [write_header] writes it, with the payload its fields
    announce. *)
Lemma stream_written_block (h : block_header_type) (payload : list Z) :
  header_ok h -> Z.of_nat (length payload) = payload_size h ->
  block_stream (header_bytes (with_checksum h) ++ payload).
Proof.
  intros Hh Hp.
  destruct (header_of_with_checksum h Hh) as (_ & H2 & _ & _ & H5 & _).
  rewrite <- (app_nil_r payload).
  apply stream_block; [reflexivity|apply xor_with_checksum| |constructor].
  unfold payload_size in *. rewrite H2, H5. exact Hp.
Qed.

Lemma stream_chunk (s : image_settings_type) (c : chunk_list_type) :
  chunk_ok c -> block_stream (chunk_block s c).
Proof.
  intros [Ha Harg Hl He Hf _ _ _ Hd]. unfold word_ok in *.
  unfold chunk_block. apply stream_written_block.
  - constructor; cbn [chunk_header bcode flags hdrchk hdrsign target_address
                      byte_count argument];
      unfold byte_ok, word_ok; try lia; apply Z.mod_pos_bound; lia.
  - unfold payload_size. cbn [chunk_header flags byte_count].
    rewrite (Z.mod_small (c_flags c)) by lia.
    destruct (c_data c) as [buf|].
    + destruct Hd as (Hlen & _ & ->). rewrite Hlen. lia.
    + destruct Hd as [-> | ->]; [reflexivity|].
      destruct (has (c_flags c) BFLAG_FILL); reflexivity.
Qed.

Lemma stream_image (chunks : list chunk_list_type) (s : image_settings_type) :
  Forall chunk_ok chunks -> settings_ok s ->
  block_stream (write_image [] chunks s).
Proof.
  intros Hok [_ _ He].
  rewrite write_image_blocks
    by (eapply Forall_impl; [|exact Hok]; intros c; apply chunk_ok_sized).
  cbn [app]. rewrite <- (app_nil_r (header_bytes _)), <- app_assoc. cbn [app].
  apply stream_app.
  - apply stream_written_block; [|reflexivity].
    constructor; cbn [bcode flags hdrchk hdrsign target_address byte_count argument];
      unfold byte_ok, word_ok; try (apply Z.mod_pos_bound; lia);
      try exact He; try apply wrap32_range; cbn; lia.
  - induction Hok as [|c l Hc _ IH]; [constructor|].
    cbn [map concat]. apply stream_app; [apply stream_chunk; exact Hc|exact IH].
Qed.

Lemma stream_trace (evs : list event) :
  Forall event_ok evs -> block_stream (trace_bytes evs).
Proof.
  induction 1 as [|e evs He _ IH]; [constructor|].
  destruct e as [chunks s|from to]; cbn [trace_bytes]; [|exact IH].
  destruct He as (_ & Hok & _ & Hs).
  apply stream_app; [apply stream_image; assumption|exact IH].
Qed.

Lemma stream_final (st : state) :
  state_ok st ->
  block_stream
    (header_bytes
       (with_checksum (set_block (hdr st) BFLAG_FINAL 0 0 (entry_point (settings st))))).
Proof.
  intros [_ [_ _ He] [B1 B2 B3 B4 B5 B6 B7] _ _ _ _].
  rewrite <- (app_nil_r (header_bytes _)).
  apply stream_written_block; [|reflexivity].
  unfold word_ok in *.
  constructor; cbn [set_block bcode flags hdrchk hdrsign target_address
                    byte_count argument]; unfold word_ok; try assumption; try lia.
  apply Z.mod_pos_bound. lia.
Qed.

(** X4. The output file of a run is made of whole blocks and whole
    images only. It splits into blocks, each a 16-byte header whose bytes
    XOR to zero followed by exactly the payload that header announces
    ([byte_count] bytes, none for a Fill block). When [main] returns -1
    it is exactly the bytes of the calls of [write_image] made so far, in
    order; when [main] returns 0 it is those bytes followed by one
    16-byte header with a zero XOR, flags = FINAL, byte count 0 and
    argument 0. No other byte is ever written. *)
Theorem output_is_whole_images
    (junk : nat -> Z) (settings0 : image_settings_type) (hdr0 : block_header_type)
    (file : list Z) (r : result) :
  bytes_ok file -> settings_ok settings0 -> header_ok hdr0 ->
  main junk settings0 hdr0 file = Some r ->
  block_stream (out_file r)
  /\ ((exit_status r = -1 /\ out_file r = trace_bytes (events r))
      \/ (exit_status r = 0
          /\ exists raw,
               out_file r = trace_bytes (events r) ++ raw
               /\ length raw = 16%nat /\ xor_bytes raw = 0
               /\ flags (header_of_bytes raw) = BFLAG_FINAL
               /\ byte_count (header_of_bytes raw) = 0
               /\ argument (header_of_bytes raw) = 0)).
Proof.
  intros Hfile Hs0 Hh0 Hr.
  destruct (loop_exit junk _ _ r (initial_ok _ _ _ Hfile Hs0 Hh0) Hr)
    as (st & Hst & [-> | ->]).
  - rewrite finish_eq. cbn [exit_status out_file events].
    rewrite (output_trace st Hst). split.
    + apply stream_app; [apply stream_trace, (trace_ok st Hst)|].
      apply stream_final. exact Hst.
    + right. split; [reflexivity|].
      destruct (final_header st Hst) as (F1 & F2 & F3 & _ & F5 & F6 & _).
      eexists. split; [reflexivity|].
      repeat apply conj; assumption.
  - cbn [exit_status out_file events]. rewrite (output_trace st Hst). split.
    + apply stream_trace, (trace_ok st Hst).
    + left. split; reflexivity.
Qed.

Lemma output_is_whole_images_witness :
  block_stream
    (write_image [] [mk_chunk 0x1000 0 (Some [1; 2; 3; 4]) 4 0;
                     mk_chunk 0x2000 0xFFFFFFFF None 1024 BFLAG_FILL]
                 (mk_settings 0xAD 10 0x1234)
     ++ block BFLAG_FINAL 0x1234 0 0)
  /\ exists raw,
       write_image [] [mk_chunk 0x1000 0 (Some [1; 2; 3; 4]) 4 0;
                       mk_chunk 0x2000 0xFFFFFFFF None 1024 BFLAG_FILL]
                   (mk_settings 0xAD 10 0x1234)
       ++ block BFLAG_FINAL 0x1234 0 0
       = trace_bytes [Written [mk_chunk 0x1000 0 (Some [1; 2; 3; 4]) 4 0;
                               mk_chunk 0x2000 0xFFFFFFFF None 1024 BFLAG_FILL]
                              (mk_settings 0xAD 10 0x1234)]
         ++ raw
       /\ length raw = 16%nat
       /\ flags (header_of_bytes raw) = BFLAG_FINAL.
Proof.
  destruct (output_is_whole_images (fun _ => 0) (mk_settings 0 0 0)
              (mk_header 0 0 0 0 0 0 0)
              (block BFLAG_FIRST 0x1234 0 0 ++ block 0 0x1000 4 0 ++ [1; 2; 3; 4]
               ++ block BFLAG_FILL 0x2000 1024 0xFFFFFFFF
               ++ block BFLAG_FINAL 0 0 0)
              (mk_result 0
                 (write_image []
                    [mk_chunk 0x1000 0 (Some [1; 2; 3; 4]) 4 0;
                     mk_chunk 0x2000 0xFFFFFFFF None 1024 BFLAG_FILL]
                    (mk_settings 0xAD 10 0x1234)
                  ++ block BFLAG_FINAL 0x1234 0 0)
                 [Written [mk_chunk 0x1000 0 (Some [1; 2; 3; 4]) 4 0;
                           mk_chunk 0x2000 0xFFFFFFFF None 1024 BFLAG_FILL]
                          (mk_settings 0xAD 10 0x1234)]))
    as (H1 & [(Hx & _) | (_ & raw & H2 & H3 & _ & H5 & _)]).
  - vm_compute. repeat constructor; discriminate.
  - solve_fields_ok.
  - solve_fields_ok.
  - reflexivity.
  - discriminate Hx.
  - split; [exact H1|]. exists raw. repeat apply conj; assumption.
Defined.

(** X5. Every chunk list [main] hands to [write_image] is not empty and
    made of well-formed chunks: the range [address, address + length)
    does not pass 2^32, no chunk carries FIRST, FINAL or IGNORE, a Fill
    chunk has no data buffer, any other chunk has a buffer of exactly
    [length] bytes unless it is empty; and a chunk with the INIT flag is
    the last of its list. *)
Theorem written_chunks_are_well_formed
    (junk : nat -> Z) (settings0 : image_settings_type) (hdr0 : block_header_type)
    (file : list Z) (r : result) :
  bytes_ok file -> settings_ok settings0 -> header_ok hdr0 ->
  main junk settings0 hdr0 file = Some r ->
  forall chunks s, In (Written chunks s) (events r) ->
    chunks <> [] /\ Forall chunk_ok chunks /\ Forall no_init (removelast chunks)
    /\ settings_ok s.
Proof.
  intros Hfile Hs0 Hh0 Hr chunks s Hin.
  destruct (loop_exit junk _ _ r (initial_ok _ _ _ Hfile Hs0 Hh0) Hr)
    as (st & Hst & Hcase).
  assert (Ht : Forall event_ok (events r)).
  { destruct Hcase as [-> | ->]; [rewrite finish_eq|]; cbn [events];
      apply (trace_ok st Hst). }
  rewrite Forall_forall in Ht. exact (Ht _ Hin).
Qed.

Lemma written_chunks_are_well_formed_witness :
  Forall chunk_ok [mk_chunk 0x1000 0 (Some [1; 2; 3; 4]) 4 0;
                   mk_chunk 0x2000 7 None 1024 (Z.lor BFLAG_FILL BFLAG_INIT)].
Proof.
  destruct (written_chunks_are_well_formed (fun _ => 0) (mk_settings 0 0 0)
              (mk_header 0 0 0 0 0 0 0)
              (block BFLAG_FIRST 0x1234 0 0 ++ block 0 0x1000 4 0 ++ [1; 2; 3; 4]
               ++ block (Z.lor BFLAG_FILL BFLAG_INIT) 0x2000 1024 7)
              (mk_result 0
                 (write_image []
                    [mk_chunk 0x1000 0 (Some [1; 2; 3; 4]) 4 0;
                     mk_chunk 0x2000 7 None 1024 (Z.lor BFLAG_FILL BFLAG_INIT)]
                    (mk_settings 0xAD 10 0x1234)
                  ++ block BFLAG_FINAL 0x1234 0 0)
                 [Written [mk_chunk 0x1000 0 (Some [1; 2; 3; 4]) 4 0;
                           mk_chunk 0x2000 7 None 1024 (Z.lor BFLAG_FILL BFLAG_INIT)]
                          (mk_settings 0xAD 10 0x1234)])
              ltac:(vm_compute; repeat constructor; discriminate)
              ltac:(solve_fields_ok) ltac:(solve_fields_ok) eq_refl
              [mk_chunk 0x1000 0 (Some [1; 2; 3; 4]) 4 0;
               mk_chunk 0x2000 7 None 1024 (Z.lor BFLAG_FILL BFLAG_INIT)]
              (mk_settings 0xAD 10 0x1234) (or_introl eq_refl))
    as (_ & H & _).
  exact H.
Defined.

(** ** The size of an image *)

Lemma length_chunk_blocks (s : image_settings_type) (l : list chunk_list_type) :
  Forall chunk_sized l -> Forall (fun c => 0 <= c_length c) l ->
  Z.of_nat (length (concat (map (chunk_block s) l)))
  = fold_right Z.add 0 (map chunk_size l).
Proof.
  induction 1 as [|c l Hc _ IH]; intros Hpos; [reflexivity|].
  apply Forall_cons_iff in Hpos. destruct Hpos as (Hp & Hpos).
  cbn [map concat fold_right]. rewrite length_app, Nat2Z.inj_add, (IH Hpos).
  f_equal. unfold chunk_block, chunk_size, chunk_sized, sizeof_header in *.
  rewrite length_app, length_header_bytes.
  destruct (c_data c) as [buf|]; [rewrite (Hc buf eq_refl)|]; cbn [length]; lia.
Qed.

(** X6. The size [write_image] announces is the size it writes: on
    chunks whose buffers hold [length] bytes, the call appends exactly
    [image_size] bytes (16 for the leading header, 16 for each chunk,
    plus the length of each chunk that owns a buffer), and the argument
    of the leading header is that number of bytes, in 32 bits. *)
Theorem image_size_is_the_bytes_written
    (handle : list Z) (chunks : list chunk_list_type) (s : image_settings_type) :
  Forall chunk_sized chunks -> Forall (fun c => 0 <= c_length c) chunks ->
  word_ok (entry_point s) ->
  Z.of_nat (length (write_image handle chunks s))
  = Z.of_nat (length handle) + image_size chunks
  /\ argument (header_of_bytes (firstn 16 (write_image [] chunks s)))
     = wrap32 (Z.of_nat (length (write_image [] chunks s))).
Proof.
  intros Hl Hpos He.
  assert (Hlen : forall hd, Z.of_nat (length (write_image hd chunks s))
                            = Z.of_nat (length hd) + image_size chunks).
  { intros hd. rewrite (write_image_blocks hd chunks s Hl).
    rewrite !length_app, !Nat2Z.inj_add, length_header_bytes.
    rewrite (length_chunk_blocks s chunks Hl Hpos).
    unfold image_size, sizeof_header. lia. }
  split; [apply Hlen|].
  rewrite Hlen. cbn [length]. rewrite Z.add_0_l.
  rewrite (write_image_blocks [] chunks s Hl). cbn [app].
  rewrite firstn_exact by apply length_header_bytes.
  set (h := mk_header _ _ _ _ _ _ _).
  assert (Hh : header_ok h).
  { unfold h. constructor;
      cbn [bcode flags hdrchk hdrsign target_address byte_count argument];
      unfold byte_ok, word_ok; try (apply Z.mod_pos_bound; lia);
      try exact He; try apply wrap32_range; try (cbn; lia). }
  destruct (header_of_with_checksum h Hh) as (_ & _ & _ & _ & _ & H6).
  exact H6.
Qed.

Lemma image_size_is_the_bytes_written_witness :
  Z.of_nat (length (write_image [9; 9]
                      [mk_chunk 0x1000 0 (Some [1; 2; 3; 4]) 4 0;
                       mk_chunk 0x2000 0xFFFFFFFF None 1024 BFLAG_FILL]
                      (mk_settings 0xAD 10 0x1234)))
  = 2 + 52.
Proof.
  destruct (image_size_is_the_bytes_written [9; 9]
              [mk_chunk 0x1000 0 (Some [1; 2; 3; 4]) 4 0;
               mk_chunk 0x2000 0xFFFFFFFF None 1024 BFLAG_FILL]
              (mk_settings 0xAD 10 0x1234)) as (H & _).
  - repeat constructor; intros buf [= <-]; reflexivity.
  - repeat constructor; cbn; lia.
  - unfold word_ok. cbn. lia.
  - exact H.
Defined.

(** ** Blocks that do not reach the merge rule *)

(** X7. An Ignore block that is neither First nor Final is dropped with
    its payload: the 16 bytes of the header and the next [byte_count]
    bytes of the input (all that is left when fewer are left) are
    consumed, and the chunk list, the settings and the output file stay
    as they are; nothing is written. *)
Theorem ignore_block_is_skipped
    (junk : nat -> Z) (st : state) (raw rest : list Z) :
  input st = raw ++ rest -> length raw = 16%nat -> bytes_ok raw ->
  xor_bytes raw = 0 ->
  has (flags (header_of_bytes raw)) BFLAG_IGNORE = true ->
  has (flags (header_of_bytes raw)) BFLAG_FIRST = false ->
  has (flags (header_of_bytes raw)) BFLAG_FINAL = false ->
  exists st',
    step junk st = Next st'
    /\ input st' = skipn (Z.to_nat (byte_count (header_of_bytes raw))) rest
    /\ chunk_list st' = chunk_list st
    /\ settings st' = settings st
    /\ output st' = output st
    /\ trace st' = trace st.
Proof.
  intros Hin Hlen Hok Hxor Hig Hfirst Hfinal.
  rewrite (step_header junk st raw rest Hin Hlen Hok), Hxor. cbn [Z.eqb].
  rewrite (read_header_eq st raw rest Hin Hlen).
  unfold process. simpl_state.
  rewrite has_lor, Hfirst, Hfinal, Hig. cbn [orb].
  eexists. split; [reflexivity|]. simpl_state. repeat apply conj; reflexivity.
Qed.

Lemma ignore_block_is_skipped_witness :
  exists st',
    step (fun _ => 0)
         (mk_state (block BFLAG_IGNORE 0 3 0 ++ [7; 8; 9; 1; 2]) [5]
                   [mk_chunk 0x1000 0 (Some [1; 2; 3; 4]) 4 0]
                   (mk_settings 0xAD 10 0x1234) (mk_header 0 0 0 0 0 0 0) 4 [])
    = Next st'
    /\ input st' = [1; 2]
    /\ chunk_list st' = [mk_chunk 0x1000 0 (Some [1; 2; 3; 4]) 4 0]
    /\ settings st' = mk_settings 0xAD 10 0x1234
    /\ output st' = [5]
    /\ trace st' = [].
Proof.
  apply (ignore_block_is_skipped (fun _ => 0)
           (mk_state (block BFLAG_IGNORE 0 3 0 ++ [7; 8; 9; 1; 2]) [5]
                     [mk_chunk 0x1000 0 (Some [1; 2; 3; 4]) 4 0]
                     (mk_settings 0xAD 10 0x1234) (mk_header 0 0 0 0 0 0 0) 4 [])
           (block BFLAG_IGNORE 0 3 0) [7; 8; 9; 1; 2]).
  - reflexivity.
  - reflexivity.
  - vm_compute. repeat constructor; discriminate.
  - reflexivity.
  - reflexivity.
  - reflexivity.
  - reflexivity.
Defined.

Lemma flush_writes (st : state) :
  output (flush st)
  = match chunk_list st with
    | [] => output st
    | _ :: _ => write_image (output st) (chunk_list st) (settings st)
    end
  /\ trace (flush st)
     = match chunk_list st with
       | [] => trace st
       | _ :: _ => trace st ++ [Written (chunk_list st) (settings st)]
       end
  /\ chunk_list (flush st) = [].
Proof.
  unfold flush. destruct (chunk_list st) eqn:E; simpl_state; rewrite ?E; auto.
Qed.

(** X8. A Final block ends the run: the chunk list, when it is not empty,
    is written as one last image, then one 16-byte header with a zero
    XOR, flags = FINAL, target address = the entry point of the settings,
    byte count 0, argument 0, and the bcode and the signature of the
    Final block read; [main] returns 0. What follows the Final block in
    the input file is never read and has no effect on the result. *)
Theorem final_block_ends_the_run
    (junk : nat -> Z) (settings0 : image_settings_type) (hdr0 : block_header_type)
    (file : list Z) (n : nat) (st : state) (raw rest : list Z) :
  bytes_ok file -> settings_ok settings0 -> header_ok hdr0 ->
  steps junk n (initial settings0 hdr0 file) = Some st ->
  input st = raw ++ rest -> length raw = 16%nat -> xor_bytes raw = 0 ->
  has (flags (header_of_bytes raw)) BFLAG_FINAL = true ->
  exists last,
    main junk settings0 hdr0 file
    = Some (mk_result 0
              (match chunk_list st with
               | [] => output st
               | _ :: _ => write_image (output st) (chunk_list st) (settings st)
               end ++ last)
              (match chunk_list st with
               | [] => trace st
               | _ :: _ => trace st ++ [Written (chunk_list st) (settings st)]
               end))
    /\ length last = 16%nat /\ xor_bytes last = 0
    /\ flags (header_of_bytes last) = BFLAG_FINAL
    /\ target_address (header_of_bytes last) = entry_point (settings st)
    /\ byte_count (header_of_bytes last) = 0
    /\ argument (header_of_bytes last) = 0
    /\ bcode (header_of_bytes last) = bcode (header_of_bytes raw)
    /\ hdrsign (header_of_bytes last) = hdrsign (header_of_bytes raw).
Proof.
  intros Hfile Hs0 Hh0 Hsteps Hin Hlen Hxor Hfinal.
  pose proof (steps_ok junk n _ _ (initial_ok _ _ _ Hfile Hs0 Hh0) Hsteps) as Hst.
  assert (Hok : bytes_ok raw).
  { pose proof (input_ok st Hst) as Hi. rewrite Hin in Hi.
    apply Forall_app in Hi. tauto. }
  pose proof (step_ok junk st Hst) as Hst'.
  rewrite (main_steps junk _ _ _ _ _ Hsteps). cbn [loop].
  rewrite (step_header junk st raw rest Hin Hlen Hok), Hxor in *. cbn [Z.eqb] in *.
  rewrite (read_header_eq st raw rest Hin Hlen) in *.
  rewrite process_final in * by (simpl_state; exact Hfinal).
  set (st1 := set_hdr _ _) in *.
  destruct (final_header (flush st1) Hst') as (F1 & F2 & F3 & F4 & F5 & F6 & F7 & F8).
  destruct (flush_fields st1) as (_ & Es & Eh & _). rewrite Es, Eh in *.
  destruct (flush_writes st1) as (Eo & Et & _).
  rewrite finish_eq, Eo, Et, Es, Eh.
  eexists. split; [reflexivity|].
  unfold st1 in *. simpl_state. repeat apply conj; assumption.
Qed.

Lemma final_block_ends_the_run_witness :
  exists last,
    main (fun _ => 0) (mk_settings 0 0 0) (mk_header 0 0 0 0 0 0 0)
         (block BFLAG_FIRST 0x1234 0 0 ++ block 0 0x1000 4 0 ++ [1; 2; 3; 4]
          ++ block BFLAG_FINAL 0 0 0 ++ [0x55; 0x66])
    = Some (mk_result 0
              (write_image [] [mk_chunk 0x1000 0 (Some [1; 2; 3; 4]) 4 0]
                           (mk_settings 0xAD 10 0x1234) ++ last)
              [Written [mk_chunk 0x1000 0 (Some [1; 2; 3; 4]) 4 0]
                       (mk_settings 0xAD 10 0x1234)])
    /\ length last = 16%nat
    /\ target_address (header_of_bytes last) = 0x1234.
Proof.
  destruct (final_block_ends_the_run (fun _ => 0) (mk_settings 0 0 0)
              (mk_header 0 0 0 0 0 0 0)
              (block BFLAG_FIRST 0x1234 0 0 ++ block 0 0x1000 4 0 ++ [1; 2; 3; 4]
               ++ block BFLAG_FINAL 0 0 0 ++ [0x55; 0x66]) 2%nat
              (mk_state (block BFLAG_FINAL 0 0 0 ++ [0x55; 0x66]) []
                 [mk_chunk 0x1000 0 (Some [1; 2; 3; 4]) 4 0]
                 (mk_settings 0xAD 10 0x1234) (mk_header 10 0 179 0xAD 0x1000 4 0) 4 [])
              (block BFLAG_FINAL 0 0 0) [0x55; 0x66])
    as (last & H1 & H2 & _ & _ & H5 & _).
  - vm_compute. repeat constructor; discriminate.
  - solve_fields_ok.
  - solve_fields_ok.
  - reflexivity.
  - reflexivity.
  - reflexivity.
  - reflexivity.
  - reflexivity.
  - exists last. repeat apply conj; assumption.
Defined.

(** ** What a block does to its chunk and to the input *)

Section Range.

Variable junk : nat -> Z.

(** The write into the chunk, in all its cases. *)
Lemma extend_range (st : state) (c : chunk_list_type) :
  extend_pre (hdr st) c ->
  let h := hdr st in
  chunk_end (snd (extend junk st c))
  = (if block_end h <? 2 ^ 32 then Z.max (chunk_end c) (block_end h) else chunk_end c)
  /\ input (fst (extend junk st c))
     = skipn (Z.to_nat (if has (flags h) BFLAG_FILL || (2 ^ 32 <=? block_end h) then 0
                        else block_end h - chunk_end c))
             (input st).
Proof.
  intros (Hh & Hc & Hin & _). cbv zeta. unfold chunk_end, block_end.
  destruct Hh as [_ _ _ _ Ht Hn _]. destruct Hc as [Ha _ Hl He _ _ _ _ _].
  unfold in_closed_range in Hin.
  unfold extend.
  destruct (Z.ltb_spec (wrap32 (c_address c + c_length c))
              (wrap32 (target_address (hdr st) + byte_count (hdr st)))) as [Hlt|Hge].
  - destruct (extend_arith _ _ _ _ Ha Hl He Ht Hn Hin Hlt)
      as (E0 & E1 & E2 & E3 & E4 & E5).
    rewrite E1, E2, E3 in *.
    assert (Hend : forall d, c_address (grow c d (target_address (hdr st)
                               + byte_count (hdr st) - (c_address c + c_length c)))
                             + c_length (grow c d (target_address (hdr st)
                                 + byte_count (hdr st) - (c_address c + c_length c)))
                             = target_address (hdr st) + byte_count (hdr st)).
    { intros d. unfold grow; cbn [c_address c_length]. rewrite E4. lia. }
    destruct (Z.ltb_spec (target_address (hdr st) + byte_count (hdr st)) (2 ^ 32));
      [|lia].
    destruct (Z.leb_spec (2 ^ 32) (target_address (hdr st) + byte_count (hdr st)));
      [lia|].
    rewrite orb_false_r.
    destruct (has (flags (hdr st)) BFLAG_FILL).
    + destruct (negb _).
      * cbn [realloc]. destruct (fill_loop _ _ _ _ _) as [buf count].
        simpl_state. rewrite Hend. split; [lia|reflexivity].
      * simpl_state. rewrite Hend. split; [lia|reflexivity].
    + cbn [realloc fread]. simpl_state. rewrite Hend. split; [lia|reflexivity].
  - rewrite (wrap32_small (c_address c + c_length c)) in Hge by (unfold word_ok in *; lia).
    assert (Hi : input (if byte_count (hdr st) =? 0 then st
                        else log st (Warning (target_address (hdr st))
                                       (wrap32 (target_address (hdr st)
                                                + byte_count (hdr st)))))
                 = input st) by (destruct (_ =? 0); reflexivity).
    cbn [fst snd]. rewrite Hi.
    destruct (Z.ltb_spec (target_address (hdr st) + byte_count (hdr st)) (2 ^ 32))
      as [Hs|Hs].
    + rewrite wrap32_small in Hge by (unfold word_ok in *; lia).
      split; [lia|].
      destruct (has (flags (hdr st)) BFLAG_FILL || _); [reflexivity|].
      replace (Z.to_nat _) with 0%nat by lia. reflexivity.
    + split; [reflexivity|].
      destruct (Z.leb_spec (2 ^ 32) (target_address (hdr st) + byte_count (hdr st)));
        [|lia].
      rewrite orb_true_r. reflexivity.
Qed.

(** The chunk list after [merge], around the chunk written into. *)
Lemma merge_around (st : state) (before after : list chunk_list_type)
    (c : chunk_list_type) :
  find_or_create (hdr st) (chunk_list st) = (before, c, after) ->
  chunk_list (merge junk st) = before ++ snd (extend junk st c) :: after
  /\ input (merge junk st) = input (fst (extend junk st c))
  /\ output (merge junk st) = output st
  /\ settings (merge junk st) = settings st.
Proof.
  intros Hf. rewrite (merge_unfold junk st before after c Hf). simpl_state.
  destruct (extend_frame junk st c) as (H1 & _ & H3 & _). auto.
Qed.

End Range.

(** X9. A block given to the merge rule changes one chunk and nothing
    else of the list: the chunk [find_or_create] returns (found, or
    created at the end) keeps its address, argument and flags, and its
    range afterwards ends at the larger of its old end and the end of
    the block, so a chunk never shrinks and never moves. A block whose
    range passes 2^32 ([targetAddress + byteCount >= 2^32]) leaves the
    chunk as it is. The output file and the settings are not touched. *)
Theorem block_extends_one_chunk
    (junk : nat -> Z) (st : state) (before after : list chunk_list_type)
    (c : chunk_list_type) :
  merge_block (hdr st) -> Forall chunk_ok (chunk_list st) ->
  find_or_create (hdr st) (chunk_list st) = (before, c, after) ->
  exists c',
    chunk_list (merge junk st) = before ++ c' :: after
    /\ c_address c' = c_address c /\ c_argument c' = c_argument c
    /\ c_flags c' = c_flags c
    /\ chunk_end c' = (if block_end (hdr st) <? 2 ^ 32
                       then Z.max (chunk_end c) (block_end (hdr st))
                       else chunk_end c)
    /\ output (merge junk st) = output st
    /\ settings (merge junk st) = settings st.
Proof.
  intros (Hh & F1 & F2 & F3) Hok Hf.
  pose proof (find_or_create_pre _ _ _ _ _ Hh Hok F1 F2 F3 Hf) as Hpre.
  destruct (merge_around junk st before after c Hf) as (M1 & _ & M3 & M4).
  destruct (extend_chunk_fields junk st c) as (C1 & C2 & C3).
  destruct (extend_range junk st c Hpre) as (R1 & _).
  exists (snd (extend junk st c)). repeat apply conj; assumption.
Qed.

(** X10. The bytes a block of the merge rule takes from the input: none
    for a Fill block; none for a block whose range passes 2^32
    ([targetAddress + byteCount >= 2^32]); otherwise
    the number of bytes by which the block passes the end of its chunk
    (all that is left when fewer are left), which is the whole payload
    only when the block starts where the chunk ends or starts a new
    chunk, and nothing when the chunk already covers the block. *)
Theorem payload_bytes_consumed
    (junk : nat -> Z) (st : state) (before after : list chunk_list_type)
    (c : chunk_list_type) :
  merge_block (hdr st) -> Forall chunk_ok (chunk_list st) ->
  find_or_create (hdr st) (chunk_list st) = (before, c, after) ->
  input (merge junk st)
  = skipn (Z.to_nat (if has (flags (hdr st)) BFLAG_FILL
                        || (2 ^ 32 <=? block_end (hdr st))
                     then 0
                     else block_end (hdr st) - chunk_end c))
          (input st).
Proof.
  intros (Hh & F1 & F2 & F3) Hok Hf.
  pose proof (find_or_create_pre _ _ _ _ _ Hh Hok F1 F2 F3 Hf) as Hpre.
  destruct (merge_around junk st before after c Hf) as (_ & M2 & _).
  destruct (extend_range junk st c Hpre) as (_ & R2).
  rewrite M2. exact R2.
Qed.

Lemma block_extends_one_chunk_witness :
  exists c',
    chunk_list
      (merge (fun _ => 0xEE)
         (mk_state [11; 12; 13; 14; 15; 16; 17; 18] []
            [mk_chunk 0x1000 0 (Some [1; 2; 3; 4; 5; 6; 7; 8]) 8 0]
            (mk_settings 0xAD 10 0x1234) (mk_header 10 0 0 0xAD 0x1004 8 0) 8 []))
    = [] ++ c' :: []
    /\ c_address c' = 0x1000
    /\ chunk_end c' = 0x100C.
Proof.
  destruct (block_extends_one_chunk (fun _ => 0xEE)
              (mk_state [11; 12; 13; 14; 15; 16; 17; 18] []
                 [mk_chunk 0x1000 0 (Some [1; 2; 3; 4; 5; 6; 7; 8]) 8 0]
                 (mk_settings 0xAD 10 0x1234) (mk_header 10 0 0 0xAD 0x1004 8 0) 8 [])
              [] [] (mk_chunk 0x1000 0 (Some [1; 2; 3; 4; 5; 6; 7; 8]) 8 0))
    as (c' & H1 & H2 & _ & _ & H5 & _).
  - repeat apply conj; try reflexivity. solve_fields_ok.
  - solve_chunks_ok.
  - reflexivity.
  - exists c'. repeat apply conj; assumption.
Defined.

Lemma payload_bytes_consumed_witness :
  input
    (merge (fun _ => 0xEE)
       (mk_state [11; 12; 13; 14; 15; 16; 17; 18] []
          [mk_chunk 0x1000 0 (Some [1; 2; 3; 4; 5; 6; 7; 8]) 8 0]
          (mk_settings 0xAD 10 0x1234) (mk_header 10 0 0 0xAD 0x1004 8 0) 8 []))
  = [15; 16; 17; 18].
Proof.
  apply (payload_bytes_consumed (fun _ => 0xEE)
           (mk_state [11; 12; 13; 14; 15; 16; 17; 18] []
              [mk_chunk 0x1000 0 (Some [1; 2; 3; 4; 5; 6; 7; 8]) 8 0]
              (mk_settings 0xAD 10 0x1234) (mk_header 10 0 0 0xAD 0x1004 8 0) 8 [])
           [] [] (mk_chunk 0x1000 0 (Some [1; 2; 3; 4; 5; 6; 7; 8]) 8 0)).
  - repeat apply conj; try reflexivity. solve_fields_ok.
  - solve_chunks_ok.
  - reflexivity.
Defined.

(** ** Blocks that always start a chunk *)




(** X12. A block with the INIT flag (and none of FIRST, FINAL, IGNORE)
    always starts a chunk of its own, placed last, with the address,
    argument and flags of the header, and the whole list, that chunk
    included, is written at once with the settings in force; the chunk
    list is empty afterwards. *)
Theorem init_block_is_written_at_once
    (junk : nat -> Z) (st : state) (raw rest : list Z) :
  Forall chunk_ok (chunk_list st) ->
  input st = raw ++ rest -> length raw = 16%nat -> bytes_ok raw ->
  xor_bytes raw = 0 ->
  has (flags (header_of_bytes raw)) BFLAG_INIT = true ->
  has (flags (header_of_bytes raw)) BFLAG_FIRST = false ->
  has (flags (header_of_bytes raw)) BFLAG_FINAL = false ->
  has (flags (header_of_bytes raw)) BFLAG_IGNORE = false ->
  exists st' c,
    step junk st = Next st'
    /\ chunk_list st' = []
    /\ c_address c = target_address (header_of_bytes raw)
    /\ c_argument c = argument (header_of_bytes raw)
    /\ c_flags c = flags (header_of_bytes raw)
    /\ output st' = write_image (output st) (chunk_list st ++ [c]) (settings st)
    /\ written (trace st') = written (trace st) ++ [chunk_list st ++ [c]]
    /\ settings st' = settings st.
Proof.
  intros Hok Hin Hlen Hraw Hxor Hinit Hfirst Hfinal Hig.
  rewrite (step_header junk st raw rest Hin Hlen Hraw), Hxor. cbn [Z.eqb].
  rewrite (read_header_eq st raw rest Hin Hlen).
  set (st1 := set_hdr _ _).
  rewrite process_merge by (unfold st1; simpl_state; assumption).
  replace (has (flags (hdr st1)) BFLAG_INIT) with true by (symmetry; exact Hinit).
  assert (Hf : find_or_create (hdr st1) (chunk_list st1)
               = (chunk_list st, new_chunk (hdr st1), [])).
  { apply (find_or_create_creates (hdr st1) (chunk_list st) Hok).
    left. intros ([E|E] & _); unfold st1 in E; simpl_state; rewrite E in Hinit;
      discriminate Hinit. }
  destruct (merge_around junk st1 _ _ _ Hf) as (M1 & _ & M3 & M4).
  destruct (extend_chunk_fields junk st1 (new_chunk (hdr st1))) as (C1 & C2 & C3).
  destruct (extend_frame junk st1 (new_chunk (hdr st1)))
    as (_ & _ & _ & _ & (w & T1 & T2 & _) & _).
  assert (Ht : trace (merge junk st1) = trace st ++ w).
  { rewrite (merge_unfold junk st1 _ _ _ Hf). simpl_state. exact T1. }
  destruct (flush_writes (merge junk st1)) as (Eo & Et & El).
  destruct (flush_fields (merge junk st1)) as (_ & Es & _).
  exists (flush (merge junk st1)), (snd (extend junk st1 (new_chunk (hdr st1)))).
  split; [reflexivity|]. split; [exact El|].
  split; [exact C1|]. split; [exact C2|]. split; [exact C3|].
  rewrite Eo, Et, Es, M1, M3, M4, Ht.
  destruct (chunk_list st ++ [snd (extend junk st1 (new_chunk (hdr st1)))]) eqn:E.
  { apply app_eq_nil in E. destruct E as (_ & E). discriminate E. }
  rewrite <- E. rewrite !written_app, T2, app_nil_r. cbn [written].
  repeat apply conj; reflexivity.
Qed.

Lemma init_block_is_written_at_once_witness :
  exists st' c,
    step (fun _ => 0)
         (mk_state (block BFLAG_INIT 0x2000 2 0 ++ [9; 9; 5]) []
                   [mk_chunk 0x1000 0 (Some [1; 2; 3; 4]) 4 0]
                   (mk_settings 0xAD 10 0x1234) (mk_header 0 0 0 0 0 0 0) 4 [])
    = Next st'
    /\ chunk_list st' = []
    /\ c_address c = 0x2000
    /\ written (trace st') = [[mk_chunk 0x1000 0 (Some [1; 2; 3; 4]) 4 0; c]].
Proof.
  destruct (init_block_is_written_at_once (fun _ => 0)
              (mk_state (block BFLAG_INIT 0x2000 2 0 ++ [9; 9; 5]) []
                        [mk_chunk 0x1000 0 (Some [1; 2; 3; 4]) 4 0]
                        (mk_settings 0xAD 10 0x1234) (mk_header 0 0 0 0 0 0 0) 4 [])
              (block BFLAG_INIT 0x2000 2 0) [9; 9; 5])
    as (st' & c & H1 & H2 & H3 & _ & _ & _ & H7 & _).
  - solve_chunks_ok.
  - reflexivity.
  - reflexivity.
  - vm_compute. repeat constructor; discriminate.
  - reflexivity.
  - reflexivity.
  - reflexivity.
  - reflexivity.
  - reflexivity.
  - exists st', c. repeat apply conj; assumption.
Defined.

(** ** Unrolling a Fill block *)

Lemma skipn_junk (junk : nat -> Z) (a k n : nat) :
  skipn k (map junk (seq a n)) = map junk (seq (a + k) (n - k)).
Proof. now rewrite skipn_map, skipn_seq. Qed.


(** X13. A Fill block that the merge rule puts at the end of a chunk
    that is not a Fill chunk is unrolled by whole words only, yet the
    chunk grows by the full byteCount: the buffer becomes the old bytes,
    then [byteCount / 4] copies of the argument (little-endian), then
    [byteCount mod 4] bytes that [realloc] handed out and nothing wrote.
    Nothing is read from the input. *)
Theorem fill_unrolling_leaves_a_tail
    (junk : nat -> Z) (st : state) (before after : list chunk_list_type)
    (c : chunk_list_type) :
  header_ok (hdr st) -> Forall chunk_ok (chunk_list st) ->
  find_or_create (hdr st) (chunk_list st) = (before, c, after) ->
  has (flags (hdr st)) BFLAG_FILL = true -> has (c_flags c) BFLAG_FILL = false ->
  target_address (hdr st) = chunk_end c -> 0 < byte_count (hdr st) ->
  block_end (hdr st) < 2 ^ 32 ->
  chunk_list (merge junk st)
  = before
    ++ mk_chunk (c_address c) (c_argument c)
         (Some (buffer c
                ++ concat (repeat (word_bytes (argument (hdr st)))
                                  (Z.to_nat (byte_count (hdr st) / 4)))
                ++ map junk (seq (fresh st + 4 * Z.to_nat (byte_count (hdr st) / 4))
                                 (Z.to_nat (byte_count (hdr st) mod 4)))))
         (c_length c + byte_count (hdr st)) (c_flags c)
    :: after
  /\ input (merge junk st) = input st.
Proof.
  intros Hh Hok Hf Hfl Hcf Hend Hpos Hwrap. unfold chunk_end, block_end in *.
  assert (Hc : chunk_ok c).
  { pose proof Hf as Hf'. apply find_or_create_spec in Hf'.
    destruct Hf' as (_ & [(Hl & _) | (_ & -> & _)]).
    - rewrite Hl in Hok. apply Forall_app in Hok. destruct Hok as (_ & Hok).
      apply Forall_cons_iff in Hok. tauto.
    - cbn [new_chunk c_flags] in Hcf. congruence. }
  destruct (merge_around junk st before after c Hf) as (M1 & M2 & _).
  rewrite M1, M2.
  rewrite (extend_append_fill junk st c Hh Hc Hfl Hcf Hend Hpos Hwrap).
  cbn [fst snd]. simpl_state. split; [|reflexivity].
  rewrite skipn_junk. do 8 f_equal.
  destruct Hh as [_ _ _ _ _ Hn _]. unfold word_ok in Hn.
  Z.div_mod_to_equations. lia.
Qed.

Lemma fill_unrolling_leaves_a_tail_witness :
  chunk_list
    (merge (fun k => Z.of_nat k)
       (mk_state [] [] [mk_chunk 0x1000 0 (Some [1; 2; 3; 4]) 4 0]
          (mk_settings 0xAD 10 0x1234)
          (mk_header 10 BFLAG_FILL 0 0xAD 0x1004 6 0x0A0B0C0D) 100 []))
  = [] ++ mk_chunk 0x1000 0 (Some ([1; 2; 3; 4] ++ [0x0D; 0x0C; 0x0B; 0x0A] ++ [104; 105]))
            10 0 :: [].
Proof.
  apply (fill_unrolling_leaves_a_tail (fun k => Z.of_nat k)
           (mk_state [] [] [mk_chunk 0x1000 0 (Some [1; 2; 3; 4]) 4 0]
              (mk_settings 0xAD 10 0x1234)
              (mk_header 10 BFLAG_FILL 0 0xAD 0x1004 6 0x0A0B0C0D) 100 [])
           [] [] (mk_chunk 0x1000 0 (Some [1; 2; 3; 4]) 4 0)).
  - solve_fields_ok.
  - solve_chunks_ok.
  - reflexivity.
  - reflexivity.
  - reflexivity.
  - reflexivity.
  - reflexivity.
  - reflexivity.
Defined.

(** ** Blocks laid end to end *)

Section Coalesce.

Variable junk : nat -> Z.
Variables bc sg : Z.
Hypothesis bc_ok : 0 <= bc < 16.
Hypothesis sg_ok : byte_ok sg.

(** A block without flags that ends up at the end of the chunk [c], the
    only chunk of the list once the block is in: its payload is appended. *)
Lemma step_plain_block (st : state) (c : chunk_list_type) (t arg : Z)
    (payload rest : list Z) :
  let h := with_checksum (mk_header bc 0 0 sg t (Z.of_nat (length payload)) arg) in
  input st = header_bytes h ++ payload ++ rest ->
  find_or_create h (chunk_list st) = ([], c, []) ->
  chunk_ok c -> has (c_flags c) BFLAG_FILL = false -> t = chunk_end c ->
  payload <> [] -> word_ok arg -> t + Z.of_nat (length payload) < 2 ^ 32 ->
  exists st',
    step junk st = Next st'
    /\ input st' = rest
    /\ chunk_list st'
       = [mk_chunk (c_address c) (c_argument c) (Some (buffer c ++ payload))
                   (c_length c + Z.of_nat (length payload)) (c_flags c)]
    /\ output st' = output st /\ settings st' = settings st /\ trace st' = trace st.
Proof.
  intros h Hin Hf Hc Hcf Hend Hne Harg Hwrap. unfold chunk_end in Hend.
  assert (Hlen : 0 < Z.of_nat (length payload)).
  { destruct payload; [contradiction|]. cbn [length]. lia. }
  assert (Ht : word_ok t).
  { destruct Hc as [Ha _ Hl _ _ _ _ _ _]. unfold word_ok in *. lia. }
  assert (Hh : header_ok h).
  { apply header_ok_with_checksum;
      cbn [bcode flags hdrsign target_address byte_count argument];
      unfold word_ok in *; try assumption; lia. }
  rewrite (step_written_header junk st _ (payload ++ rest) Hh Hin).
  set (st1 := set_hdr _ _).
  rewrite process_merge by reflexivity.
  change (has (flags (hdr st1)) BFLAG_INIT) with false. cbv iota.
  rewrite (merge_unfold junk st1 [] [] c Hf).
  rewrite (extend_append_payload junk st1 c Hh Hc eq_refl Hcf Hend Hlen Hwrap).
  - change (byte_count (hdr st1)) with (Z.of_nat (length payload)).
    change (input st1) with (payload ++ rest).
    rewrite Nat2Z.id, firstn_exact, skipn_exact by reflexivity.
    eexists. split; [reflexivity|]. simpl_state. repeat apply conj; reflexivity.
  - change (byte_count (hdr st1)) with (Z.of_nat (length payload)).
    change (input st1) with (payload ++ rest).
    rewrite Nat2Z.id, length_app. lia.
Qed.


Lemma data_chunk_ok (a g : Z) (buf : list Z) :
  word_ok a -> word_ok g -> buf <> [] -> a + Z.of_nat (length buf) < 2 ^ 32 ->
  chunk_ok (mk_chunk a g (Some buf) (Z.of_nat (length buf)) 0).
Proof.
  intros Ha Hg Hne Hend.
  assert (0 < Z.of_nat (length buf)) by (destruct buf; [contradiction|cbn [length]; lia]).
  constructor; cbn [c_address c_argument c_data c_length c_flags];
    try assumption; try reflexivity; try lia.
  rewrite Nat2Z.id. auto.
Qed.

(** Blocks laid end to end after the chunk, the only one of the list:
    all their payloads go into it. *)
Lemma contiguous_appends (more : list (Z * list Z)) :
  forall (st : state) (a g : Z) (buf rest : list Z),
    chunk_list st = [mk_chunk a g (Some buf) (Z.of_nat (length buf)) 0] ->
    word_ok a -> word_ok g -> buf <> [] ->
    input st = contiguous bc sg (a + Z.of_nat (length buf)) more ++ rest ->
    Forall (fun b => word_ok (fst b) /\ snd b <> []) more ->
    a + Z.of_nat (length (buf ++ concat (map snd more))) < 2 ^ 32 ->
    exists st',
      steps junk (length more) st = Some st'
      /\ input st' = rest
      /\ chunk_list st'
         = [mk_chunk a g (Some (buf ++ concat (map snd more)))
                     (Z.of_nat (length (buf ++ concat (map snd more)))) 0]
      /\ output st' = output st /\ settings st' = settings st /\ trace st' = trace st.
Proof.
  induction more as [|[arg payload] more IH];
    intros st a g buf rest Hl Ha Hg Hne Hin Hall Hend.
  - exists st. cbn [steps length map concat contiguous app] in *.
    rewrite app_nil_r. repeat apply conj; auto.
  - apply Forall_cons_iff in Hall. destruct Hall as ((Harg & Hp) & Hall).
    cbn [fst snd] in Harg, Hp.
    cbn [map concat snd] in Hend. rewrite app_assoc in Hend.
    assert (Hend1 : a + Z.of_nat (length (buf ++ payload)) < 2 ^ 32).
    { rewrite length_app in Hend. lia. }
    pose proof (data_chunk_ok a g buf Ha Hg Hne ltac:(rewrite length_app in Hend1; lia))
      as Hc.
    cbn [contiguous] in Hin. rewrite <- !app_assoc in Hin.
    destruct (step_plain_block st (mk_chunk a g (Some buf) (Z.of_nat (length buf)) 0)
                (a + Z.of_nat (length buf)) arg payload
                (contiguous bc sg (a + Z.of_nat (length buf) + Z.of_nat (length payload))
                            more ++ rest) Hin) as (st1 & S1 & S2 & S3 & S4 & S5 & S6).
    + rewrite Hl.
      apply (find_or_create_merges _ [] [] _).
      * cbn [app]. apply Forall_cons; [exact Hc|apply Forall_nil].
      * split; [left; reflexivity|discriminate].
      * split; [reflexivity|]. unfold in_closed_range, with_checksum, write_header.
        cbn [snd set_hdrchk target_address c_address c_length]. lia.
      * constructor.
    + exact Hc.
    + reflexivity.
    + reflexivity.
    + exact Hp.
    + exact Harg.
    + rewrite length_app in Hend1. lia.
    + cbn [c_address c_argument c_length c_flags buffer c_data] in S3.
      rewrite <- Nat2Z.inj_add, <- length_app in S3.
      destruct (IH st1 a g (buf ++ payload) rest S3 Ha Hg) as (st' & T1 & T2 & T3 & T4 & T5 & T6).
      * destruct buf; [contradiction|discriminate].
      * rewrite S2, length_app, Nat2Z.inj_add, Z.add_assoc. reflexivity.
      * exact Hall.
      * exact Hend.
      * exists st'. cbn [steps length]. rewrite S1.
        cbn [map concat snd]. rewrite app_assoc.
        repeat apply conj; congruence.
Qed.

End Coalesce.

Lemma loop_final_block (junk : nat -> Z) (st : state) (h : block_header_type)
    (rest : list Z) :
  header_ok (with_checksum h) -> has (flags h) BFLAG_FINAL = true ->
  input st = header_bytes (with_checksum h) ++ rest ->
  loop junk (S (length (input st))) st
  = Some (finish (flush (set_hdr (set_input st rest) (with_checksum h)))).
Proof.
  intros Hh Hfl Hin. cbn [loop].
  rewrite (step_written_header junk st h rest Hh Hin).
  rewrite process_final by (simpl_state; exact Hfl). reflexivity.
Qed.

Lemma header_ok_checksum (h : block_header_type) :
  header_ok h -> header_ok (with_checksum h).
Proof. intros []. now apply header_ok_with_checksum. Qed.

(** X14. A file made of a First block, then blocks without flags laid
    end to end (none empty, each starting where the one before ends, the
    address of the first plus the total length below 2^32), then a Final
    block, is rewritten as one
    image with a single block: the leading header of [write_image] with
    the entry point, signature and bcode of the First block and the size
    32 + n, one header without flags for the address of the first block,
    its argument and the total length n, the payloads of all the blocks
    in order, and the Final header. [main] returns 0. *)
Theorem contiguous_blocks_become_one_block
    (junk : nat -> Z) (settings0 : image_settings_type) (hdr0 : block_header_type)
    (h1 h2 : block_header_type) (bc sg t arg : Z) (payload : list Z)
    (more : list (Z * list Z)) :
  header_ok h1 -> has (flags h1) BFLAG_FIRST = true ->
  has (flags h1) BFLAG_FINAL = false ->
  header_ok h2 -> has (flags h2) BFLAG_FINAL = true ->
  0 <= bc < 16 -> byte_ok sg -> word_ok t -> word_ok arg -> payload <> [] ->
  Forall (fun b => word_ok (fst b) /\ snd b <> []) more ->
  t + Z.of_nat (length (payload ++ concat (map snd more))) < 2 ^ 32 ->
  let data := payload ++ concat (map snd more) in
  let n := Z.of_nat (length data) in
  main junk settings0 hdr0
       (header_bytes (with_checksum h1)
        ++ contiguous bc sg t ((arg, payload) :: more)
        ++ header_bytes (with_checksum h2))
  = Some (mk_result 0
            (header_bytes
               (with_checksum
                  (mk_header (bcode h1) (Z.lor BFLAG_IGNORE BFLAG_FIRST) 0 (hdrsign h1)
                             (target_address h1) 0 (wrap32 (32 + n))))
             ++ header_bytes
                  (with_checksum (mk_header (bcode h1) 0 0 (hdrsign h1) t n arg))
             ++ data
             ++ header_bytes
                  (with_checksum
                     (mk_header (bcode h2) BFLAG_FINAL 0 (hdrsign h2)
                                (target_address h1) 0 0)))
            [Written [mk_chunk t arg (Some data) n 0] (capture h1)]).
Proof.
  intros Hh1 F1 F1' Hh2 F2 Hbc Hsg Ht Harg Hp Hall Hend data n.
  set (file := _ ++ _ ++ _).
  set (st0 := initial settings0 hdr0 file).
  (* the First block *)
  assert (S0 : step junk st0
               = Next (set_settings
                         (set_hdr (set_input st0
                                     (contiguous bc sg t ((arg, payload) :: more)
                                      ++ header_bytes (with_checksum h2)))
                                  (with_checksum h1))
                         (capture h1))).
  { rewrite (step_written_header junk st0 h1 _ (header_ok_checksum _ Hh1) eq_refl).
    rewrite process_first by (simpl_state; assumption). reflexivity. }
  set (st1 := set_settings _ _) in S0.
  (* the first block of the run starts the chunk *)
  destruct (step_plain_block junk bc sg Hbc Hsg st1
              (new_chunk (with_checksum (mk_header bc 0 0 sg t
                                           (Z.of_nat (length payload)) arg)))
              t arg payload
              (contiguous bc sg (t + Z.of_nat (length payload)) more
               ++ header_bytes (with_checksum h2)))
    as (st2 & S1 & S2 & S3 & S4 & S5 & S6).
  { unfold st1. simpl_state. cbn [contiguous]. now rewrite <- !app_assoc. }
  { reflexivity. }
  { apply new_chunk_ok; [|reflexivity|reflexivity|reflexivity].
    apply header_ok_with_checksum;
      cbn [bcode flags hdrsign target_address byte_count argument];
      unfold word_ok in *; try assumption; try lia.
    rewrite length_app in Hend. lia. }
  { reflexivity. }
  { unfold chunk_end. cbn. lia. }
  { exact Hp. }
  { exact Harg. }
  { rewrite length_app in Hend. lia. }
  change (chunk_list st2 = [mk_chunk t arg (Some payload)
                                     (Z.of_nat (length payload)) 0]) in S3.
  (* the blocks that follow *)
  destruct (contiguous_appends junk bc sg Hbc Hsg more st2 t arg payload
              (header_bytes (with_checksum h2)) S3 Ht Harg Hp S2 Hall Hend)
    as (st3 & T1 & T2 & T3 & T4 & T5 & T6).
  fold data in T3. fold n in T3.
  assert (Hsteps : steps junk (1 + (1 + length more)) st0 = Some st3).
  { apply (steps_app junk 1 _ st0 st1); [cbn [steps]; now rewrite S0|].
    apply (steps_app junk 1 _ st1 st2); [cbn [steps]; now rewrite S1|exact T1]. }
  (* the Final block *)
  rewrite (main_steps junk _ _ _ _ _ Hsteps).
  rewrite (loop_final_block junk st3 h2 [] (header_ok_checksum _ Hh2) F2)
    by (now rewrite app_nil_r).
  set (st4 := set_hdr _ _).
  destruct (flush_writes st4) as (Eo & Et & _).
  destruct (flush_fields st4) as (_ & Es & Eh & _).
  rewrite finish_eq, Eo, Et, Es, Eh.
  change (chunk_list st4) with (chunk_list st3).
  change (output st4) with (output st3). change (trace st4) with (trace st3).
  change (settings st4) with (settings st3). change (hdr st4) with (with_checksum h2).
  rewrite T3, T4, T5, T6, S4, S5, S6.
  change (output st1) with (@nil Z). change (trace st1) with (@nil event).
  change (settings st1) with (capture h1).
  cbn [app].
  rewrite write_image_blocks
    by (repeat constructor; intros buf [= <-]; unfold n; cbn [c_length];
        now rewrite Nat2Z.id).
  destruct Hh1 as [B1 _ _ B4 _ _ _].
  cbn [app map concat capture s_bcode s_hdrsign entry_point].
  unfold chunk_block, chunk_header.
  cbn [c_data c_flags c_address c_length c_argument s_bcode s_hdrsign].
  change (s_bcode (capture h1)) with (bcode h1).
  change (s_hdrsign (capture h1)) with (hdrsign h1).
  change (0 mod 4096) with 0.
  rewrite (Z.mod_small (bcode h1)), (Z.mod_small (hdrsign h1)) by assumption.
  rewrite (with_checksum_hdrchk
             (set_block (with_checksum h2) BFLAG_FINAL 0 0 (target_address h1))
             (mk_header (bcode h2) BFLAG_FINAL 0 (hdrsign h2) (target_address h1) 0 0))
    by reflexivity.
  unfold image_size, chunk_size, sizeof_header. cbn [map fold_right c_data c_length].
  replace (16 + (16 + n + 0)) with (32 + n) by lia.
  rewrite app_nil_r, <- !app_assoc.
  reflexivity.
Qed.

Lemma contiguous_blocks_become_one_block_witness :
  main (fun _ => 0) (mk_settings 0 0 0) (mk_header 0 0 0 0 0 0 0)
       (block BFLAG_FIRST 0x1234 0 0
        ++ contiguous 10 0xAD 0x1000 [(0, [1; 2; 3; 4]); (7, [5; 6; 7; 8])]
        ++ block BFLAG_FINAL 0 0 0)
  = Some (mk_result 0
            (block (Z.lor BFLAG_IGNORE BFLAG_FIRST) 0x1234 0 40
             ++ block 0 0x1000 8 0 ++ [1; 2; 3; 4; 5; 6; 7; 8]
             ++ block BFLAG_FINAL 0x1234 0 0)
            [Written [mk_chunk 0x1000 0 (Some [1; 2; 3; 4; 5; 6; 7; 8]) 8 0]
                     (mk_settings 0xAD 10 0x1234)]).
Proof.
  apply (contiguous_blocks_become_one_block (fun _ => 0) (mk_settings 0 0 0)
           (mk_header 0 0 0 0 0 0 0)
           (mk_header 10 BFLAG_FIRST 0 0xAD 0x1234 0 0)
           (mk_header 10 BFLAG_FINAL 0 0xAD 0 0 0)
           10 0xAD 0x1000 0 [1; 2; 3; 4] [(7, [5; 6; 7; 8])]).
  - solve_fields_ok.
  - reflexivity.
  - reflexivity.
  - solve_fields_ok.
  - reflexivity.
  - lia.
  - unfold byte_ok. lia.
  - unfold word_ok. lia.
  - unfold word_ok. lia.
  - discriminate.
  - repeat constructor; cbn; try lia; discriminate.
  - reflexivity.
Defined.

(** ** The block counts *)

Lemma chunk_total_app (l1 l2 : list (list chunk_list_type)) :
  chunk_total (l1 ++ l2) = chunk_total l1 + chunk_total l2.
Proof. unfold chunk_total. rewrite concat_app, length_app. lia. Qed.

Lemma chunk_total_seen (st : state) :
  chunk_total (seen st)
  = chunk_total (written (trace st)) + Z.of_nat (length (chunk_list st)).
Proof.
  unfold seen, pending. rewrite chunk_total_app. f_equal.
  destruct (chunk_list st) as [|c l]; [reflexivity|].
  unfold chunk_total. cbn [concat]. now rewrite app_nil_r.
Qed.

Lemma chunk_total_flush (st : state) :
  chunk_total (seen (flush st)) = chunk_total (seen st).
Proof.
  destruct (seen_flush st) as (H1 & H2).
  rewrite (chunk_total_seen (flush st)), H1, H2. cbn [length]. lia.
Qed.

Section Counts.

Variable junk : nat -> Z.

Lemma counted_loop_fst (fuel : nat) :
  forall st k, option_map fst (counted_loop junk fuel st k) = loop junk fuel st.
Proof.
  induction fuel as [|fuel IH]; intros st k; cbn [counted_loop loop]; [reflexivity|].
  destruct (step junk st); [apply IH|reflexivity|reflexivity].
Qed.

Lemma merge_counted (st : state) :
  written (trace (merge junk st)) = written (trace st)
  /\ Z.of_nat (length (chunk_list (merge junk st)))
     = Z.of_nat (length (chunk_list st))
       + match snd (scan (hdr st) (chunk_list st)) with [] => 1 | _ :: _ => 0 end.
Proof.
  unfold merge, find_or_create.
  destruct (scan_spec (hdr st) (chunk_list st)) as (Hl & _).
  destruct (scan (hdr st) (chunk_list st)) as [passed rest]. cbn [fst snd] in *.
  rewrite Hl.
  destruct rest as [|c next].
  - destruct (extend_frame junk st (new_chunk (hdr st)))
      as (_ & _ & _ & _ & (w & T1 & T2 & _) & _).
    destruct (extend junk st (new_chunk (hdr st))) as [st' c']. simpl_state.
    rewrite T1, written_app, T2, !length_app. cbn [length].
    split; [apply app_nil_r|lia].
  - destruct (extend_frame junk st c) as (_ & _ & _ & _ & (w & T1 & T2 & _) & _).
    destruct (extend junk st c) as [st' c']. simpl_state.
    rewrite T1, written_app, T2, !length_app. cbn [length].
    split; [apply app_nil_r|lia].
Qed.


Lemma process_ignore (st : state) :
  has (flags (hdr st)) BFLAG_FIRST = false ->
  has (flags (hdr st)) BFLAG_FINAL = false ->
  has (flags (hdr st)) BFLAG_IGNORE = true ->
  process junk st
  = Next (set_input st (skipn (Z.to_nat (byte_count (hdr st))) (input st))).
Proof.
  intros H1 H2 H3. unfold process. rewrite has_lor, H1, H2, H3. reflexivity.
Qed.

Lemma chunk_total_nonneg (l : list (list chunk_list_type)) : 0 <= chunk_total l.
Proof. unfold chunk_total. lia. Qed.

(** One iteration keeps the counts right; the iteration that leaves the
    loop changes neither count. *)
Lemma count_step (size : Z) (st : state) (k : counters) :
  size < 2 ^ 32 -> counts_ok size st k ->
  match step junk st with
  | Next st' => counts_ok size st' (count st k)
  | Leave st' | Fail st' =>
      output_block_count (count st k) = output_block_count k
      /\ input_block_count (count st k) = input_block_count k
      /\ chunk_total (written (trace st')) <= chunk_total (seen st)
  end.
Proof.
  intros Hsize (I1 & I2 & I3).
  pose proof (chunk_total_nonneg (seen st)) as Hpos.
  pose proof (chunk_total_nonneg (written (trace st))) as Hpos'.
  pose proof (chunk_total_seen st) as Hseen.
  unfold step, count.
  destruct (16 <=? length (input st))%nat eqn:Hlen.
  - apply Nat.leb_le in Hlen. cbv zeta.
    set (st1 := read_header st).
    assert (H1 : (length (input st1) + 16 <= length (input st))%nat).
    { unfold st1, read_header. simpl_state. rewrite length_skipn. lia. }
    assert (E1 : seen st1 = seen st) by reflexivity.
    destruct (calc_header_checksum (hdr st1) =? 0).
    + destruct (has (flags (hdr st1)) BFLAG_FINAL) eqn:F2.
      { rewrite process_final by exact F2.
        cbn [output_block_count input_block_count].
        destruct (seen_flush st1) as (_ & ->). rewrite E1. lia. }
      destruct (has (flags (hdr st1)) BFLAG_FIRST) eqn:F1.
      { rewrite process_first by assumption.
        unfold counts_ok. cbn [output_block_count input_block_count]. simpl_state.
        destruct (flush_fields st1) as (-> & _).
        pose proof (chunk_total_flush st1) as Ef. rewrite E1 in Ef.
        change (seen (set_settings (flush st1) (capture (hdr st1))))
          with (seen (flush st1)).
        rewrite Ef. lia. }
      assert (Hic : wrap32 (input_block_count k + 1) = input_block_count k + 1)
        by (apply wrap32_small; lia).
      destruct (has (flags (hdr st1)) BFLAG_IGNORE) eqn:F3.
      { rewrite process_ignore by assumption.
        unfold counts_ok. cbn [output_block_count input_block_count]. simpl_state.
        change (seen (set_input st1 (skipn (Z.to_nat (byte_count (hdr st1)))
                                           (input st1))))
          with (seen st).
        rewrite Hic, length_skipn. lia. }
      rewrite process_merge by assumption.
      destruct (merge_counted st1) as (W & L).
      pose proof (input_merge junk st1) as Hin.
      pose proof (chunk_total_seen (merge junk st1)) as Hm.
      rewrite W in Hm. change (trace st1) with (trace st) in Hm.
      change (chunk_list st1) with (chunk_list st) in L.
      assert (Hgoal : counts_ok size (merge junk st1)
                (match snd (scan (hdr st1) (chunk_list st1)) with
                 | [] => mk_counters
                           (position (if has (flags (hdr st1)) BFLAG_FILL
                              then mk_counters (wrap32 (position k + sizeof_header))
                                     (wrap32 (input_block_count k + 1))
                                     (output_block_count k)
                              else mk_counters
                                     (wrap32 (wrap32 (position k + sizeof_header)
                                              + byte_count (hdr st1)))
                                     (wrap32 (input_block_count k + 1))
                                     (output_block_count k)))
                           (wrap32 (input_block_count k + 1))
                           (wrap32 (output_block_count k + 1))
                 | _ :: _ => if has (flags (hdr st1)) BFLAG_FILL
                             then mk_counters (wrap32 (position k + sizeof_header))
                                    (wrap32 (input_block_count k + 1))
                                    (output_block_count k)
                             else mk_counters
                                    (wrap32 (wrap32 (position k + sizeof_header)
                                             + byte_count (hdr st1)))
                                    (wrap32 (input_block_count k + 1))
                                    (output_block_count k)
                 end)).
      { unfold counts_ok. change (chunk_list st1) with (chunk_list st).
        destruct (snd (scan (hdr st1) (chunk_list st))).
        - cbn [output_block_count input_block_count].
          rewrite Hic, wrap32_small by lia. lia.
        - destruct (has (flags (hdr st1)) BFLAG_FILL);
            cbn [output_block_count input_block_count]; rewrite Hic; lia. }
      cbn [position input_block_count output_block_count].
      destruct (has (flags (hdr st1)) BFLAG_INIT).
      * destruct Hgoal as (G1 & G2 & G3). unfold counts_ok.
        rewrite chunk_total_flush. destruct (flush_fields (merge junk st1)) as (-> & _).
        revert G1 G2 G3.
        destruct (has (flags (hdr st1)) BFLAG_FILL);
          cbn [position input_block_count output_block_count]; auto.
      * revert Hgoal.
        destruct (has (flags (hdr st1)) BFLAG_FILL);
          cbn [position input_block_count output_block_count]; auto.
    + repeat split; try reflexivity. change (trace st1) with (trace st). lia.
  - repeat split; try reflexivity. simpl_state. lia.
Qed.


Lemma counted_loop_bounds (size : Z) (fuel : nat) :
  forall st k r k',
    size < 2 ^ 32 -> counts_ok size st k ->
    counted_loop junk fuel st k = Some (r, k') ->
    chunk_total (written (events r)) <= output_block_count k'
    /\ output_block_count k' <= input_block_count k'
    /\ 16 * input_block_count k' <= size.
Proof.
  induction fuel as [|fuel IH]; intros st k r k' Hsize Hk; cbn [counted_loop];
    [discriminate|].
  pose proof (count_step size st k Hsize Hk) as Hs.
  destruct Hk as (I1 & I2 & I3).
  destruct (step junk st) as [st'|st'|st'].
  - apply IH; assumption.
  - intros [= <- <-]. rewrite finish_eq. cbn [events].
    destruct Hs as (-> & -> & Hs). lia.
  - intros [= <- <-]. cbn [events].
    destruct Hs as (-> & -> & Hs). lia.
Qed.

Lemma counted_steps (size : Z) (n : nat) :
  forall st k st' fuel,
    size < 2 ^ 32 -> counts_ok size st k -> steps junk n st = Some st' ->
    exists k', counts_ok size st' k'
               /\ counted_loop junk (n + fuel) st k = counted_loop junk fuel st' k'.
Proof.
  induction n as [|n IH]; intros st k st' fuel Hsize Hk; cbn [steps].
  - intros [= <-]. exists k. auto.
  - pose proof (count_step size st k Hsize Hk) as Hs.
    cbn [Nat.add counted_loop].
    destruct (step junk st) as [st1|st1|st1]; try discriminate.
    intros H. apply (IH st1 (count st k) st' fuel Hsize Hs H).
Qed.

End Counts.

Lemma initial_counts_ok (settings0 : image_settings_type) (hdr0 : block_header_type)
    (file : list Z) :
  counts_ok (Z.of_nat (length file)) (initial settings0 hdr0 file) (mk_counters 0 0 0).
Proof.
  unfold counts_ok. cbn [output_block_count input_block_count initial input].
  repeat apply conj; [reflexivity|lia|lia].
Qed.

(** X15. On a file of less than 2^32 bytes [main] returns with counts
    such that: the number of chunks in the lists it wrote is at most the
    "blocks written" figure (a chunk is counted when it is created,
    written or not); that figure is at most the "blocks read" figure;
    and every block counted as read took at least 16 bytes of the
    file. *)
Theorem blocks_written_never_exceed_blocks_read
    (junk : nat -> Z) (settings0 : image_settings_type) (hdr0 : block_header_type)
    (file : list Z) :
  Z.of_nat (length file) < 2 ^ 32 ->
  exists r k,
    counted_main junk settings0 hdr0 file = Some (r, k)
    /\ main junk settings0 hdr0 file = Some r
    /\ chunk_total (written (events r)) <= output_block_count k
    /\ output_block_count k <= input_block_count k
    /\ 16 * input_block_count k <= Z.of_nat (length file).
Proof.
  intros Hsize.
  destruct (main_returns junk settings0 hdr0 file) as [r Hr].
  pose proof (counted_loop_fst junk (S (length file)) (initial settings0 hdr0 file)
                (mk_counters 0 0 0)) as Hfst.
  fold (counted_main junk settings0 hdr0 file) in Hfst.
  fold (main junk settings0 hdr0 file) in Hfst. rewrite Hr in Hfst.
  destruct (counted_main junk settings0 hdr0 file) as [[r' k]|] eqn:Hc;
    [|discriminate].
  cbn [option_map fst] in Hfst. injection Hfst as ->.
  exists r, k. split; [reflexivity|]. split; [exact Hr|].
  exact (counted_loop_bounds junk _ _ _ _ _ _ Hsize
           (initial_counts_ok settings0 hdr0 file) Hc).
Qed.

Lemma blocks_written_never_exceed_blocks_read_witness :
  exists r k,
    counted_main (fun _ => 0) (mk_settings 0 0 0) (mk_header 0 0 0 0 0 0 0)
      (block BFLAG_FIRST 0x1234 0 0 ++ block 0 0x1000 4 0 ++ [1; 2; 3; 4]
       ++ block 0 0x1004 4 0 ++ [5; 6; 7; 8] ++ block BFLAG_IGNORE 0 2 0 ++ [9; 9])
    = Some (r, k)
    /\ chunk_total (written (events r)) <= output_block_count k
    /\ output_block_count k <= input_block_count k.
Proof.
  destruct (blocks_written_never_exceed_blocks_read (fun _ => 0) (mk_settings 0 0 0)
              (mk_header 0 0 0 0 0 0 0)
              (block BFLAG_FIRST 0x1234 0 0 ++ block 0 0x1000 4 0 ++ [1; 2; 3; 4]
               ++ block 0 0x1004 4 0 ++ [5; 6; 7; 8] ++ block BFLAG_IGNORE 0 2 0
               ++ [9; 9]))
    as (r & k & H1 & _ & H3 & H4 & _).
  - reflexivity.
  - exists r, k. repeat apply conj; assumption.
Defined.

(** X16. When the loop is left through a Final block, on a file of less
    than 2^32 bytes, the "blocks written" figure [main] holds is exactly
    the number of chunks in the lists it wrote: one per block that
    follows a leading header in the output file, the leading headers and
    the closing Final header not counted. *)
Theorem blocks_written_is_the_chunks_written
    (junk : nat -> Z) (settings0 : image_settings_type) (hdr0 : block_header_type)
    (file : list Z) (n : nat) (st : state) (raw rest : list Z) :
  Z.of_nat (length file) < 2 ^ 32 ->
  steps junk n (initial settings0 hdr0 file) = Some st ->
  input st = raw ++ rest -> length raw = 16%nat -> bytes_ok raw ->
  xor_bytes raw = 0 ->
  has (flags (header_of_bytes raw)) BFLAG_FINAL = true ->
  exists r k,
    counted_main junk settings0 hdr0 file = Some (r, k)
    /\ exit_status r = 0
    /\ output_block_count k = chunk_total (written (events r))
    /\ output_block_count k <= input_block_count k.
Proof.
  intros Hsize Hsteps Hin Hlen Hok Hxor Hfinal.
  pose proof (steps_consume junk n _ _ Hsteps) as Hn.
  cbn [initial input] in Hn.
  destruct (counted_steps junk _ n _ _ st (S (length file) - n) Hsize
              (initial_counts_ok settings0 hdr0 file) Hsteps) as (k' & Hk & Hl).
  replace (n + (S (length file) - n))%nat with (S (length file)) in Hl by lia.
  fold (counted_main junk settings0 hdr0 file) in Hl.
  replace (S (length file) - n)%nat with (S (length file - n)) in Hl by lia.
  cbn [counted_loop] in Hl.
  pose proof (count_step junk _ st k' Hsize Hk) as Hs.
  rewrite (step_header junk st raw rest Hin Hlen Hok), Hxor in Hl, Hs.
  cbn [Z.eqb] in Hl, Hs.
  rewrite (read_header_eq st raw rest Hin Hlen) in Hl, Hs.
  rewrite process_final in Hl, Hs by (simpl_state; exact Hfinal).
  destruct Hs as (E1 & E2 & _). destruct Hk as (I1 & I2 & _).
  eexists _, _. split; [exact Hl|]. rewrite finish_eq. cbn [exit_status events].
  split; [reflexivity|]. rewrite E1, E2.
  destruct (seen_flush (set_hdr (set_input st rest) (header_of_bytes raw))) as (_ & ->).
  split; [exact I1|exact I2].
Qed.

Lemma blocks_written_is_the_chunks_written_witness :
  exists r k,
    counted_main (fun _ => 0) (mk_settings 0 0 0) (mk_header 0 0 0 0 0 0 0)
      (block BFLAG_FIRST 0x1234 0 0 ++ block 0 0x1000 4 0 ++ [1; 2; 3; 4]
       ++ block BFLAG_FINAL 0 0 0 ++ [0x55; 0x66])
    = Some (r, k)
    /\ exit_status r = 0
    /\ output_block_count k = chunk_total (written (events r)).
Proof.
  destruct (blocks_written_is_the_chunks_written (fun _ => 0) (mk_settings 0 0 0)
              (mk_header 0 0 0 0 0 0 0)
              (block BFLAG_FIRST 0x1234 0 0 ++ block 0 0x1000 4 0 ++ [1; 2; 3; 4]
               ++ block BFLAG_FINAL 0 0 0 ++ [0x55; 0x66]) 2%nat
              (mk_state (block BFLAG_FINAL 0 0 0 ++ [0x55; 0x66]) []
                 [mk_chunk 0x1000 0 (Some [1; 2; 3; 4]) 4 0]
                 (mk_settings 0xAD 10 0x1234) (mk_header 10 0 179 0xAD 0x1000 4 0) 4 [])
              (block BFLAG_FINAL 0 0 0) [0x55; 0x66])
    as (r & k & H1 & H2 & H3 & _).
  - reflexivity.
  - reflexivity.
  - reflexivity.
  - reflexivity.
  - vm_compute. repeat constructor; discriminate.
  - reflexivity.
  - reflexivity.
  - exists r, k. repeat apply conj; assumption.
Defined.

(** ** A block that overlaps the end of its chunk *)

(** X17. A block that is not a Fill block and passes the end of its
    chunk by [k] bytes makes the chunk [k] bytes longer, but what it
    reads and where it puts it follow the block, not the gap: the first
    [k] bytes of the payload are read and stored from the offset of the
    target address in the buffer on. So when the block starts before the
    end of the chunk, bytes the chunk already held are overwritten, the
    last bytes of the new range keep what [realloc] handed out, and the
    rest of the payload stays on the input. *)
Theorem overlapping_payload_is_stored_at_the_block_address
    (junk : nat -> Z) (st : state) (before after : list chunk_list_type)
    (c : chunk_list_type) :
  merge_block (hdr st) -> Forall chunk_ok (chunk_list st) ->
  find_or_create (hdr st) (chunk_list st) = (before, c, after) ->
  has (flags (hdr st)) BFLAG_FILL = false ->
  chunk_end c < block_end (hdr st) -> block_end (hdr st) < 2 ^ 32 ->
  let k := Z.to_nat (block_end (hdr st) - chunk_end c) in
  let off := Z.to_nat (target_address (hdr st) - c_address c) in
  let got := firstn k (input st) in
  chunk_list (merge junk st)
  = before
    ++ mk_chunk (c_address c) (c_argument c)
         (Some (firstn off (buffer c) ++ got
                ++ skipn (off + length got)
                     (buffer c ++ map junk (seq (fresh st) k))))
         (c_length c + Z.of_nat k) (c_flags c)
    :: after
  /\ input (merge junk st) = skipn k (input st).
Proof.
  intros (Hh & F1 & F2 & F3) Hok Hf Hfl Hlt Hwrap. cbv zeta.
  unfold chunk_end, block_end in *.
  pose proof (find_or_create_pre _ _ _ _ _ Hh Hok F1 F2 F3 Hf) as (_ & Hc & Hin & Hcf).
  assert (Hcf' : has (c_flags c) BFLAG_FILL = false).
  { destruct (has (c_flags c) BFLAG_FILL); [|reflexivity].
    rewrite (Hcf eq_refl) in Hfl. discriminate Hfl. }
  pose proof (buffer_length c Hc Hcf') as Hbuf.
  destruct (merge_around junk st before after c Hf) as (M1 & M2 & _).
  rewrite M1, M2.
  destruct Hh as [_ _ _ _ Ht Hn _]. destruct Hc as [Ha _ Hl He _ _ _ _ _].
  unfold in_closed_range, word_ok in *.
  unfold extend. rewrite Hfl.
  rewrite (wrap32_small (target_address _ + _)), (wrap32_small (c_address c + _)) by lia.
  destruct (Z.ltb_spec (c_address c + c_length c)
              (target_address (hdr st) + byte_count (hdr st))); [|lia].
  rewrite (wrap32_small (target_address (hdr st) + byte_count (hdr st)
                         - (c_address c + c_length c))) by lia.
  rewrite (wrap32_small (target_address (hdr st) - c_address c)) by lia.
  rewrite (wrap32_small (c_length c + _)) by lia.
  unfold realloc, fread, grow, store. fold (buffer c). simpl_state.
  cbn [c_address c_argument c_length c_flags c_data].
  rewrite wrap32_small by lia.
  rewrite (@firstn_all2 _ (Z.to_nat (c_length c
                                      + (target_address (hdr st) + byte_count (hdr st)
                                         - (c_address c + c_length c))))
                        (buffer c)) by lia.
  replace (Z.to_nat (c_length c + (target_address (hdr st) + byte_count (hdr st)
                                   - (c_address c + c_length c)))
           - length (buffer c))%nat
    with (Z.to_nat (target_address (hdr st) + byte_count (hdr st)
                    - (c_address c + c_length c))) by lia.
  rewrite (firstn_app (Z.to_nat (target_address (hdr st) - c_address c)) (buffer c)).
  replace (Z.to_nat (target_address (hdr st) - c_address c) - length (buffer c))%nat
    with 0%nat by lia.
  cbn [firstn]. rewrite app_nil_r, Z2Nat.id by lia.
  split; reflexivity.
Qed.

Lemma overlapping_payload_is_stored_at_the_block_address_witness :
  chunk_list
    (merge (fun _ => 0xEE)
       (mk_state [11; 12; 13; 14; 15; 16; 17; 18] []
          [mk_chunk 0x1000 0 (Some [1; 2; 3; 4; 5; 6; 7; 8]) 8 0]
          (mk_settings 0xAD 10 0x1234) (mk_header 10 0 0 0xAD 0x1004 8 0) 8 []))
  = [] ++ mk_chunk 0x1000 0
            (Some ([1; 2; 3; 4] ++ [11; 12; 13; 14] ++ [0xEE; 0xEE; 0xEE; 0xEE]))
            (8 + 4) 0 :: [].
Proof.
  apply (overlapping_payload_is_stored_at_the_block_address (fun _ => 0xEE)
           (mk_state [11; 12; 13; 14; 15; 16; 17; 18] []
              [mk_chunk 0x1000 0 (Some [1; 2; 3; 4; 5; 6; 7; 8]) 8 0]
              (mk_settings 0xAD 10 0x1234) (mk_header 10 0 0 0xAD 0x1004 8 0) 8 [])
           [] [] (mk_chunk 0x1000 0 (Some [1; 2; 3; 4; 5; 6; 7; 8]) 8 0)).
  - repeat apply conj; try reflexivity. solve_fields_ok.
  - solve_chunks_ok.
  - reflexivity.
  - reflexivity.
  - reflexivity.
  - reflexivity.
Defined.
